(** * GitLab Repository Analyzer: scan orchestration and cross-repository inference

    A shallow embedding of the Python sources
    [gitlab_analyzer/core/{repository,scanner,utils}.py],
    [gitlab_analyzer/analyzers/{connection,dependency}.py],
    [gitlab_analyzer/reporting/summary.py] and [config.py], together with
    the properties of the specification that are about them. *)

From Stdlib Require Import ZArith QArith List Ascii String Bool Lia.
From stdpp Require Import base option list gmap strings fin_maps.
Import ListNotations.

Local Open Scope string_scope.
Local Open Scope list_scope.

(** ** Python string primitives

    [str] values are modelled as [string]; the operations below are the
    ones the analyzers call. Every delimiter the code looks for is an ASCII
    character, so working on bytes or on code points gives the same cuts. *)

Module PyStr.

(** [c.lower()] on one character. *)
Definition lower_ascii (c : ascii) : ascii :=
  let n := nat_of_ascii c in
  if ((65 <=? n)%nat && (n <=? 90)%nat)%bool then ascii_of_nat (n + 32) else c.

(** [s.lower()]. *)
Fixpoint lower (s : string) : string :=
  match s with
  | EmptyString => EmptyString
  | String c r => String (lower_ascii c) (lower r)
  end.

(** [s.startswith(p)]. *)
Fixpoint startswith (s p : string) : bool :=
  match p, s with
  | EmptyString, _ => true
  | String _ _, EmptyString => false
  | String a p', String b s' => if Ascii.eqb a b then startswith s' p' else false
  end.

(** [sub in s]. *)
Fixpoint contains (sub s : string) : bool :=
  if startswith s sub then true
  else match s with
       | EmptyString => false
       | String _ r => contains sub r
       end.

(** [s.endswith(p)]. *)
Fixpoint endswith (s p : string) : bool :=
  if String.eqb s p then true
  else match s with
       | EmptyString => false
       | String _ r => endswith r p
       end.

(** [s.rstrip(c)] for a one-character argument. *)
Fixpoint rstrip (c : ascii) (s : string) : string :=
  match s with
  | EmptyString => EmptyString
  | String a r =>
      match rstrip c r with
      | EmptyString => if Ascii.eqb a c then EmptyString else String a EmptyString
      | r' => String a r'
      end
  end.

(** [s.split(c)] for a one-character separator: never the empty list. *)
Fixpoint split (c : ascii) (s : string) : list string :=
  match s with
  | EmptyString => [EmptyString]
  | String a r =>
      if Ascii.eqb a c then EmptyString :: split c r
      else match split c r with
           | [] => [String a EmptyString]
           | h :: t => String a h :: t
           end
  end.

(** [sep.join(parts)]. *)
Fixpoint join (sep : string) (parts : list string) : string :=
  match parts with
  | [] => EmptyString
  | [p] => p
  | p :: rest => p +:+ sep +:+ join sep rest
  end.

(** [xs[n:]]. *)
Definition slice_from {A} (n : nat) (xs : list A) : list A := drop n xs.

(** [s[n:]] on a string. *)
Fixpoint substr_from (n : nat) (s : string) : string :=
  match n, s with
  | O, _ => s
  | S n', String _ r => substr_from n' r
  | S _, EmptyString => EmptyString
  end.

(** [xs[-1]] of a list known to be non-empty ([split] results). *)
Fixpoint last_part (xs : list string) : string :=
  match xs with
  | [] => EmptyString
  | [x] => x
  | _ :: r => last_part r
  end.

(** [s.replace(old, '')] for a non-empty [old]: the occurrences are removed
    from left to right, without overlap. [skip] counts the characters of the
    occurrence found that are still to be dropped. *)
Fixpoint remove_go (old : string) (skip : nat) (s : string) : string :=
  match s with
  | EmptyString => EmptyString
  | String a r =>
      match skip with
      | S k => remove_go old k r
      | O => if startswith s old
             then remove_go old (String.length old - 1) r
             else String a (remove_go old 0 r)
      end
  end.

Definition remove_all (old s : string) : string := remove_go old 0 s.

(** A character of the ASCII range: on these [lower] above is Python's
    [str.lower]. *)
Definition ascii_char (c : ascii) : bool := (nat_of_ascii c <? 128)%nat.

Fixpoint is_ascii (s : string) : bool :=
  match s with
  | EmptyString => true
  | String c r => (ascii_char c && is_ascii r)%bool
  end.

(** The ASCII characters [str.strip()] removes: tab to carriage return, the
    four separators [\x1c] to [\x1f] and the space. *)
Definition is_space (c : ascii) : bool :=
  let n := nat_of_ascii c in
  (((9 <=? n) && (n <=? 13)) || ((28 <=? n) && (n <=? 31)) || (n =? 32))%bool%nat.

Fixpoint lstrip_space (s : string) : string :=
  match s with
  | EmptyString => EmptyString
  | String c r => if is_space c then lstrip_space r else s
  end.

Fixpoint rstrip_space (s : string) : string :=
  match s with
  | EmptyString => EmptyString
  | String a r =>
      match rstrip_space r with
      | EmptyString => if is_space a then EmptyString else String a EmptyString
      | r' => String a r'
      end
  end.

(** [s.strip()]. *)
Definition strip (s : string) : string := rstrip_space (lstrip_space s).

End PyStr.

(** ** Exceptions

    A call either returns a value or raises; the exception classes are the
    ones the sources raise or catch. *)

Inductive Error : Type :=
  | GitlabGetError (msg : string)
  | TimeoutError (msg : string)
  | KeyError (key : string)
  | TypeError
  | ValueError (msg : string)
  | OtherError (msg : string).

Definition Exc (A : Type) : Type := (Error + A)%type.

Definition ok {A} (a : A) : Exc A := inr a.
Definition raise {A} (e : Error) : Exc A := inl e.

Definition raised {A} (r : Exc A) : bool :=
  match r with inl _ => true | inr _ => false end.

(** ** Insertion-ordered dictionaries

    A Python [dict] keeps its keys in insertion order and assigning to a key
    already present keeps the key where it is. Where the sources iterate over
    a dictionary the model keeps that order. *)

Module ODict.
Section Defs.
Context {V : Type}.

Definition t : Type := list (string * V).

Definition empty : t := [].

Fixpoint get (k : string) (d : t) : option V :=
  match d with
  | [] => None
  | (k', v) :: r => if String.eqb k k' then Some v else get k r
  end.

Definition mem (k : string) (d : t) : bool :=
  match get k d with Some _ => true | None => false end.

Fixpoint set (k : string) (v : V) (d : t) : t :=
  match d with
  | [] => [(k, v)]
  | (k', v') :: r =>
      if String.eqb k k' then (k, v) :: r else (k', v') :: set k v r
  end.

Definition items (d : t) : list (string * V) := d.
Definition keys (d : t) : list string := map fst d.
End Defs.
Arguments t : clear implicits.
End ODict.

(** ** Values held in the string-keyed dictionaries of a record *)

Inductive Val : Type :=
  | VNone
  | VStr (s : string)
  | VNum (q : Q)
  | VStrs (l : list string).

(** [o or ''] and [if o:] for an optional string. *)
Definition truthy_str (o : option string) : bool :=
  match o with
  | Some (String _ _) => true
  | _ => false
  end.

(** [v == s] for a string [s]. *)
Definition is_str (v : Val) (s : string) : bool :=
  match v with
  | VStr s' => String.eqb s' s
  | _ => false
  end.

(** [x > y] on numbers. *)
Definition Qgtb (x y : Q) : bool := negb (Qle_bool x y).

(** ** The remote project object (python-gitlab)

    The provider is an external collaborator. A project object is modelled by
    what its calls answer: the attributes read by [Repository.__init__], the
    answer of [repository_tree(recursive=True, ref=..., all=True)] and the
    answer of [files.get(file_path=..., ref=...)] followed by [decode()] and
    the permissive [clean_content]. Remote content is static during a scan,
    so the answers are functions of the arguments. *)

Record Project : Type := {
  project_id : Z;
  project_name : string;
  path_with_namespace : string;
  project_default_branch : option string;
  project_web_url : string;
  repository_tree : string -> Exc (list string);
  files_get : string -> string -> Exc string
}.

(** ** core/repository.py *)

Module Repository.

(** The [documentation] dictionary has the four fixed keys. *)
Record Documentation : Type := {
  readme : option (gmap string Val);
  api_docs : list (gmap string Val);
  setup_instructions : list (gmap string Val);
  architecture : list (gmap string Val)
}.

Record Stats : Type := {
  total_files : Z;
  stats_analyzed_files : Z
}.

(** An entry of [apis]. *)
Record Endpoint : Type := {
  ep_path : string;
  ep_method : string;
  ep_source_file : string;
  ep_description : string
}.

Record t : Type := {
  id : Z;
  name : string;
  path : string;
  default_branch : string;
  project : Project;
  web_url : string;
  scanned : bool;
  analyzed_files : list string;
  technologies : ODict.t (list (gmap string Val));
  apis : list Endpoint;
  dependencies : ODict.t (list string);
  documentation : Documentation;
  stats : Stats
}.

(** [Repository.__init__]. *)
Definition init (gitlab_project : Project) : t := {|
  id := project_id gitlab_project;
  name := project_name gitlab_project;
  path := path_with_namespace gitlab_project;
  default_branch :=
    (if truthy_str (project_default_branch gitlab_project)
     then default "main" (project_default_branch gitlab_project)
     else "main");
  project := gitlab_project;
  web_url := project_web_url gitlab_project;
  scanned := false;
  analyzed_files := [];
  technologies :=
    [("frontend", []); ("backend", []); ("database", []);
     ("infrastructure", []); ("cicd", [])];
  apis := [];
  dependencies := [("imports", []); ("services", []); ("repositories", [])];
  documentation :=
    {| readme := None; api_docs := []; setup_instructions := [];
       architecture := [] |};
  stats := {| total_files := 0; stats_analyzed_files := 0 |}
|}.

Definition with_technologies (r : t) (x : ODict.t (list (gmap string Val))) : t :=
  {| id := id r; name := name r; path := path r;
     default_branch := default_branch r; project := project r;
     web_url := web_url r; scanned := scanned r;
     analyzed_files := analyzed_files r; technologies := x; apis := apis r;
     dependencies := dependencies r; documentation := documentation r;
     stats := stats r |}.

Definition with_apis (r : t) (x : list Endpoint) : t :=
  {| id := id r; name := name r; path := path r;
     default_branch := default_branch r; project := project r;
     web_url := web_url r; scanned := scanned r;
     analyzed_files := analyzed_files r; technologies := technologies r;
     apis := x; dependencies := dependencies r;
     documentation := documentation r; stats := stats r |}.

Definition with_dependencies (r : t) (x : ODict.t (list string)) : t :=
  {| id := id r; name := name r; path := path r;
     default_branch := default_branch r; project := project r;
     web_url := web_url r; scanned := scanned r;
     analyzed_files := analyzed_files r; technologies := technologies r;
     apis := apis r; dependencies := x; documentation := documentation r;
     stats := stats r |}.

Definition with_scanned (r : t) (x : bool) : t :=
  {| id := id r; name := name r; path := path r;
     default_branch := default_branch r; project := project r;
     web_url := web_url r; scanned := x;
     analyzed_files := analyzed_files r; technologies := technologies r;
     apis := apis r; dependencies := dependencies r;
     documentation := documentation r; stats := stats r |}.

Definition with_files (r : t) (files : list string) (s : Stats) : t :=
  {| id := id r; name := name r; path := path r;
     default_branch := default_branch r; project := project r;
     web_url := web_url r; scanned := scanned r;
     analyzed_files := files; technologies := technologies r;
     apis := apis r; dependencies := dependencies r;
     documentation := documentation r; stats := s |}.

(** *** [add_technology] *)

(** The dictionary literal [technology], after [technology.update(details)]
    when [details] is given and not empty. *)
Definition new_technology (name : string) (confidence : Q)
    (version path : option string) (details : option (gmap string Val))
    : gmap string Val :=
  let technology : gmap string Val :=
    <["name" := VStr name]>
    (<["confidence" := VNum confidence]>
    (<["detected_in" := VStr (if truthy_str path then default "" path else "")]>
    (<["version" := match version with Some v => VStr v | None => VNone end]> ∅))) in
  match details with
  | Some d => if decide (d = ∅) then technology else d ∪ technology
  | None => technology
  end.

(** The body of [if confidence > existing['confidence']:], statement by
    statement on the dictionary [existing]; an exception leaves the
    assignments made before it in place. *)
Definition raise_confidence (confidence : Q) (version path : option string)
    (details : option (gmap string Val)) (existing : gmap string Val)
    : gmap string Val * Exc unit :=
  let e1 := <["confidence" := VNum confidence]> existing in
  let detected : Exc Val :=
    if truthy_str path then ok (VStr (default "" path))
    else match e1 !! "detected_in" with
         | Some v => ok v
         | None => raise (KeyError "detected_in")
         end in
  match detected with
  | inl err => (e1, inl err)
  | inr v =>
      let e2 := <["detected_in" := v]> e1 in
      let e3 := if truthy_str version
                then <["version" := VStr (default "" version)]> e2 else e2 in
      let e4 := match details with
                | Some d => if decide (d = ∅) then e3 else d ∪ e3
                | None => e3
                end in
      (e4, ok tt)
  end.

(** The loop [for existing in self.technologies[category]]. The answer is the
    list after the loop, and [Some] of how the call ended when the loop left
    the function ([return], or an exception), [None] when it ran to its end. *)
Fixpoint merge_existing (name : string) (confidence : Q)
    (version path : option string) (details : option (gmap string Val))
    (l : list (gmap string Val))
    : list (gmap string Val) * option (Exc unit) :=
  match l with
  | [] => ([], None)
  | existing :: rest =>
      match existing !! "name" with
      | None => (l, Some (raise (KeyError "name")))
      | Some n =>
          if is_str n name then
            match existing !! "confidence" with
            | None => (l, Some (raise (KeyError "confidence")))
            | Some (VNum c) =>
                if Qgtb confidence c then
                  let '(e', res) :=
                    raise_confidence confidence version path details existing in
                  (e' :: rest, Some res)
                else (l, Some (ok tt))
            | Some _ => (l, Some (raise TypeError))
            end
          else
            let '(rest', res) :=
              merge_existing name confidence version path details rest in
            (existing :: rest', res)
      end
  end.

(** [Repository.add_technology]: the record after the call and how the call
    ended. *)
Definition add_technology (category name : string) (confidence : Q)
    (version path : option string) (details : option (gmap string Val))
    (self : t) : t * Exc unit :=
  let techs0 :=
    if ODict.mem category (technologies self) then technologies self
    else ODict.set category [] (technologies self) in
  let technology := new_technology name confidence version path details in
  let l := default [] (ODict.get category techs0) in
  match merge_existing name confidence version path details l with
  | (l', Some res) =>
      (with_technologies self (ODict.set category l' techs0), res)
  | (_, None) =>
      (with_technologies self (ODict.set category (l ++ [technology]) techs0),
       ok tt)
  end.

(** [Repository.add_api_endpoint]. *)
Definition add_api_endpoint (path method source_file : string)
    (description : option string) (self : t) : t :=
  with_apis self
    (apis self ++
     [{| ep_path := path; ep_method := method; ep_source_file := source_file;
         ep_description :=
           if truthy_str description then default "" description else "" |}]).

(** [name in xs] on a list of strings. *)
Definition str_in (x : string) (xs : list string) : bool :=
  existsb (String.eqb x) xs.

(** [Repository.add_dependency]. *)
Definition add_dependency (dep_type name : string) (self : t) : t :=
  let deps0 :=
    if ODict.mem dep_type (dependencies self) then dependencies self
    else ODict.set dep_type [] (dependencies self) in
  let l := default [] (ODict.get dep_type deps0) in
  if str_in name l then with_dependencies self deps0
  else with_dependencies self (ODict.set dep_type (l ++ [name]) deps0).

(** *** [add_documentation] *)

Definition with_documentation (r : t) (x : Documentation) : t :=
  {| id := id r; name := name r; path := path r;
     default_branch := default_branch r; project := project r;
     web_url := web_url r; scanned := scanned r;
     analyzed_files := analyzed_files r; technologies := technologies r;
     apis := apis r; dependencies := dependencies r; documentation := x;
     stats := stats r |}.

(** The dictionary stored for a piece of documentation. *)
Definition doc_entry (content : Val) (path : string) : gmap string Val :=
  <["content" := content]> (<["path" := VStr path]> ∅).

(** [Repository.add_documentation]: the readme is assigned, the three lists
    are appended to, any other type is ignored. *)
Definition add_documentation (doc_type : string) (content : Val)
    (path : option string) (self : t) : t :=
  let d := documentation self in
  if String.eqb doc_type "readme" then
    with_documentation self
      {| readme :=
           Some (doc_entry content
                   (if truthy_str path then default "" path else "README.md"));
         api_docs := api_docs d; setup_instructions := setup_instructions d;
         architecture := architecture d |}
  else
    let entry := doc_entry content (if truthy_str path then default "" path else "") in
    if String.eqb doc_type "api_docs" then
      with_documentation self
        {| readme := readme d; api_docs := api_docs d ++ [entry];
           setup_instructions := setup_instructions d;
           architecture := architecture d |}
    else if String.eqb doc_type "setup_instructions" then
      with_documentation self
        {| readme := readme d; api_docs := api_docs d;
           setup_instructions := setup_instructions d ++ [entry];
           architecture := architecture d |}
    else if String.eqb doc_type "architecture" then
      with_documentation self
        {| readme := readme d; api_docs := api_docs d;
           setup_instructions := setup_instructions d;
           architecture := architecture d ++ [entry] |}
    else self.

(** *** Sequences of [add_technology] calls *)

(** The arguments of one call. *)
Record TechCall : Type := {
  tc_category : string;
  tc_name : string;
  tc_confidence : Q;
  tc_version : option string;
  tc_path : option string;
  tc_details : option (gmap string Val)
}.

Definition call (c : TechCall) (self : t) : t * Exc unit :=
  add_technology (tc_category c) (tc_name c) (tc_confidence c)
                 (tc_version c) (tc_path c) (tc_details c) self.

Definition calls (cs : list TechCall) (self : t) : t :=
  fold_left (fun r c => fst (call c r)) cs self.

(** [existing['name'] == name]. *)
Definition has_name (name : string) (existing : gmap string Val) : bool :=
  match existing !! "name" with
  | Some v => is_str v name
  | None => false
  end.

(** The observations recorded for [name] under [category]. *)
Definition observations (category name : string) (self : t)
    : list (gmap string Val) :=
  List.filter (has_name name) (default [] (ODict.get category (technologies self))).

(** [details] leaves the keys [name] and [confidence] of an observation
    alone, as the details the detectors pass do. *)
Definition plain_details (details : option (gmap string Val)) : Prop :=
  match details with
  | Some d => d !! "name" = None /\ d !! "confidence" = None
  | None => True
  end.

(** Every list of the dictionary is free of duplicates. *)
Definition deduplicated (r : t) : Prop :=
  forall kind l, ODict.get kind (dependencies r) = Some l -> NoDup l.

(** *** Sequences of [add_dependency] calls *)

Definition add_dependencies (ops : list (string * string)) (self : t) : t :=
  fold_left (fun r op => add_dependency (fst op) (snd op) r) ops self.

(** An observation as [add_technology] builds and keeps it: it has a name
    that is a string, a confidence that is a number and the file it was
    detected in. *)
Definition well_formed (e : gmap string Val) : Prop :=
  (exists n, e !! "name" = Some (VStr n)) /\
  (exists c, e !! "confidence" = Some (VNum c)) /\
  is_Some (e !! "detected_in").

Definition name_of (e : gmap string Val) : string :=
  match e !! "name" with
  | Some (VStr n) => n
  | _ => ""
  end.

(** The invariant of a category list, and of a record. *)
Definition distinct_names (l : list (gmap string Val)) : Prop :=
  Forall well_formed l /\ NoDup (map name_of l).

Definition invariant (self : t) : Prop :=
  forall category l,
    ODict.get category (technologies self) = Some l -> distinct_names l.

(** [self.dependencies.get(kind, [])]. *)
Definition dependencies_of (kind : string) (self : t) : list string :=
  default [] (ODict.get kind (dependencies self)).

End Repository.

(** ** analyzers/connection.py *)

Module Connection.

(** *** Regular expressions

    The [re] engine is an external collaborator: the analyzer is modelled over
    the answer of [re.finditer(pattern, content)], a list of match objects in
    the order found. The patterns are named after the comments of
    [ConnectionAnalyzer.__init__]; [UrlNaming n] is the pattern built in
    [_find_service_connections] around [re.escape(n)]. *)

Record Match : Type := {
  group0 : string;
  groups : list (option string)
}.

Inductive Pattern : Type :=
  | ApiExpress | ApiFlaskRoute | ApiView | ApiDjangoPath | ApiFastAPI
  | ApiSpring | ApiGeneric | ApiGenericUrl
  | ClientAxios | ClientFetch | ClientAjax | ClientRequest | ClientHttp
  | ClientUrl
  | SvcCompose | SvcKubernetes | SvcHostEnv | SvcUrlEnv | SvcImport
  | SvcRequire | SvcService | SvcServiceName
  | UrlNaming (repo_name : string).

Definition api_patterns : list Pattern :=
  [ApiExpress; ApiFlaskRoute; ApiView; ApiDjangoPath; ApiFastAPI; ApiSpring;
   ApiGeneric; ApiGenericUrl].

Definition api_client_patterns : list Pattern :=
  [ClientAxios; ClientFetch; ClientAjax; ClientRequest; ClientHttp; ClientUrl].

Definition service_patterns : list Pattern :=
  [SvcCompose; SvcKubernetes; SvcHostEnv; SvcUrlEnv; SvcImport; SvcRequire;
   SvcService; SvcServiceName].

(** [re.sub(r':[^/]+', ':param', s)]: a colon followed by at least one
    character other than a slash is replaced, together with the longest run of
    such characters. [skip] is set while the scanner is inside a match. *)
Fixpoint sub_colon (skip : bool) (s : string) : string :=
  match s with
  | EmptyString => EmptyString
  | String c r =>
      if skip then
        if Ascii.eqb c "/" then String c (sub_colon false r)
        else sub_colon true r
      else if Ascii.eqb c ":" then
        match r with
        | String d _ =>
            if Ascii.eqb d "/" then String c (sub_colon false r)
            else ":param" +:+ sub_colon true r
        | EmptyString => String c EmptyString
        end
      else String c (sub_colon false r)
  end.

(** Does [r] start with one or more characters other than [close], followed
    by [close]? This is what is left of the pattern after its first
    character, for [<[^>]+>] and [\{[^}]+\}]. *)
Fixpoint closes_after (close : ascii) (seen : bool) (r : string) : bool :=
  match r with
  | EmptyString => false
  | String d r' =>
      if Ascii.eqb d close then seen else closes_after close true r'
  end.

(** [re.sub(r'<[^>]+>', ':param', s)] with [opening], [close] the two
    brackets; the same scanner serves the braces. *)
Fixpoint sub_group (opening close : ascii) (skip : bool) (s : string) : string :=
  match s with
  | EmptyString => EmptyString
  | String c r =>
      if skip then
        if Ascii.eqb c close then sub_group opening close false r
        else sub_group opening close true r
      else if (Ascii.eqb c opening && closes_after close false r)%bool then
        ":param" +:+ sub_group opening close true r
      else String c (sub_group opening close false r)
  end.

(** [ConnectionAnalyzer._normalize_path]. *)
Definition _normalize_path (path : string) : string :=
  let path := PyStr.rstrip "/" path in
  let path :=
    if PyStr.contains "://" path
    then "/" +:+ PyStr.join "/" (PyStr.slice_from 3 (PyStr.split "/" path))
    else path in
  let path := sub_colon false path in
  let path := sub_group "<" ">" false path in
  sub_group "{" "}" false path.

(** The method chosen from [match.group(0)] in [_extract_api_endpoints]. *)
Definition http_method (matched_text : string) : string :=
  let t := PyStr.lower matched_text in
  if PyStr.contains "post" t then "POST"
  else if PyStr.contains "put" t then "PUT"
  else if PyStr.contains "delete" t then "DELETE"
  else if PyStr.contains "patch" t then "PATCH"
  else "GET".

(** The value of [path] after the [len(match.groups())] tests. *)
Definition match_path (m : Match) : option string :=
  match groups m with
  | [] => None
  | [g] => g
  | _ :: g :: _ => g
  end.

(** [match.group(1)]. *)
Definition group1 (m : Match) : option string :=
  match groups m with
  | [] => None
  | g :: _ => g
  end.

Definition code_extensions : list string :=
  [".py"; ".js"; ".java"; ".go"; ".ts"; ".rb"; ".php"].

Definition is_code_file (file_path : string) : bool :=
  existsb (PyStr.endswith file_path) code_extensions.

(** An [endpoint_info] dictionary. *)
Record EndpointInfo : Type := {
  repo_id : Z;
  repo_name : string;
  file_path : string;
  matched_text : string
}.

(** The tiers of [_find_matching_endpoints] for one indexed endpoint, the
    three arms of its [if]/[elif]/[elif]. *)
Definition endpoint_in_client (endpoint_path norm_client_path : string) : bool :=
  (PyStr.startswith endpoint_path "/api"
   && PyStr.contains endpoint_path norm_client_path)%bool.

Definition client_in_endpoint (endpoint_path norm_client_path : string) : bool :=
  (PyStr.startswith norm_client_path "/api"
   && PyStr.contains norm_client_path endpoint_path)%bool.

Definition same_api_suffix (endpoint_path norm_client_path : string) : bool :=
  (PyStr.startswith endpoint_path "/api/"
   && PyStr.startswith norm_client_path "/api/"
   && String.eqb (PyStr.substr_from 5 endpoint_path)
                 (PyStr.substr_from 5 norm_client_path))%bool.

Definition partial_match (endpoint_path norm_client_path : string) : bool :=
  if endpoint_in_client endpoint_path norm_client_path then true
  else if client_in_endpoint endpoint_path norm_client_path then true
  else same_api_suffix endpoint_path norm_client_path.

(** The first two arms together: containment, with [/api] at the start of
    the contained path. *)
Definition contained_with_prefix (endpoint_path norm_client_path : string) : bool :=
  (endpoint_in_client endpoint_path norm_client_path
   || client_in_endpoint endpoint_path norm_client_path)%bool.

(** [ConnectionAnalyzer._find_matching_endpoints]. *)
Definition _find_matching_endpoints (client_path : string)
    (endpoints : ODict.t (list EndpointInfo))
    : list (string * list EndpointInfo) :=
  let norm_client_path := _normalize_path client_path in
  match ODict.get norm_client_path endpoints with
  | Some infos => [(norm_client_path, infos)]
  | None =>
      filter (fun item => partial_match (fst item) norm_client_path)
             (ODict.items endpoints)
  end.

Section Analyzer.

Variable finditer : Pattern -> string -> list Match.

(** The file content the three passes read, [None] when the fetch raises and
    the file is skipped. *)
Definition fetch (repo : Repository.t) (file_path : string) : option string :=
  match files_get (Repository.project repo) file_path
                  (Repository.default_branch repo) with
  | inr content => Some content
  | inl _ => None
  end.

(** *** [_extract_api_endpoints] *)

Definition index_state : Type :=
  (ODict.t (list EndpointInfo) * Repository.t)%type.

(** The body of [for match in matches]. *)
Definition index_match (file_path : string) (st : index_state) (m : Match)
    : index_state :=
  let '(endpoints, repo) := st in
  if truthy_str (match_path m) then
    let path := _normalize_path (default "" (match_path m)) in
    let endpoint_info :=
      {| repo_id := Repository.id repo; repo_name := Repository.name repo;
         file_path := file_path; matched_text := group0 m |} in
    let endpoints' :=
      match ODict.get path endpoints with
      | Some infos => ODict.set path (infos ++ [endpoint_info]) endpoints
      | None => ODict.set path [endpoint_info] endpoints
      end in
    (endpoints',
     Repository.add_api_endpoint path (http_method (group0 m)) file_path None repo)
  else st.

(** The body of [for file_path in repo.analyzed_files]. *)
Definition index_file (st : index_state) (file_path : string) : index_state :=
  if is_code_file file_path then
    match fetch (snd st) file_path with
    | Some content =>
        fold_left
          (fun st pattern =>
             fold_left (index_match file_path) (finditer pattern content) st)
          api_patterns st
    | None => st
    end
  else st.

(** The body of [for repo in repositories]. *)
Definition index_repo (endpoints : ODict.t (list EndpointInfo))
    (repo : Repository.t) : index_state :=
  if Repository.scanned repo
  then fold_left index_file (Repository.analyzed_files repo) (endpoints, repo)
  else (endpoints, repo).

(** [_extract_api_endpoints]: the index returned and the records as the call
    leaves them. *)
Fixpoint extract_from (endpoints : ODict.t (list EndpointInfo))
    (repositories : list Repository.t)
    : ODict.t (list EndpointInfo) * list Repository.t :=
  match repositories with
  | [] => (endpoints, [])
  | repo :: rest =>
      let '(endpoints', repo') := index_repo endpoints repo in
      let '(endpoints'', rest') := extract_from endpoints' rest in
      (endpoints'', repo' :: rest')
  end.

Definition _extract_api_endpoints (repositories : list Repository.t)
    : ODict.t (list EndpointInfo) * list Repository.t :=
  extract_from ODict.empty repositories.

(** *** [_find_api_connections] *)

(** [for info in endpoint_info]. *)
Definition connect_infos (repo : Repository.t) (infos : list EndpointInfo)
    : Repository.t :=
  fold_left
    (fun repo info =>
       if negb (Z.eqb (repo_id info) (Repository.id repo))
       then Repository.add_dependency "repositories" (repo_name info) repo
       else repo)
    infos repo.

(** The body of [for match in matches]. *)
Definition connect_match (api_endpoints : ODict.t (list EndpointInfo))
    (repo : Repository.t) (m : Match) : Repository.t :=
  if truthy_str (match_path m) then
    let path := _normalize_path (default "" (match_path m)) in
    let connected_endpoints := _find_matching_endpoints path api_endpoints in
    fold_left (fun repo item => connect_infos repo (snd item))
              connected_endpoints repo
  else repo.

Definition connect_file (api_endpoints : ODict.t (list EndpointInfo))
    (repo : Repository.t) (file_path : string) : Repository.t :=
  if is_code_file file_path then
    match fetch repo file_path with
    | Some content =>
        fold_left
          (fun repo pattern =>
             fold_left (connect_match api_endpoints) (finditer pattern content) repo)
          api_client_patterns repo
    | None => repo
    end
  else repo.

Definition connect_repo (api_endpoints : ODict.t (list EndpointInfo))
    (repo : Repository.t) : Repository.t :=
  if Repository.scanned repo
  then fold_left (connect_file api_endpoints) (Repository.analyzed_files repo) repo
  else repo.

Definition _find_api_connections (repositories : list Repository.t)
    (api_endpoints : ODict.t (list EndpointInfo)) : list Repository.t :=
  map (connect_repo api_endpoints) repositories.

(** *** [_find_service_connections] *)

(** The first loop: the set [repo_names]. *)
Definition name_tokens (repo : Repository.t) : gset string :=
  if Repository.scanned repo then
    let full := PyStr.lower (Repository.name repo) in
    let parts := PyStr.split "-" full in
    let long_parts :=
      if (1 <? length parts)%nat
      then filter (fun part => (3 <? String.length part)%nat) parts
      else [] in
    {[ full ]} ∪ list_to_set long_parts
  else ∅.

Definition collect_repo_names (repositories : list Repository.t) : gset string :=
  foldr (fun repo acc => name_tokens repo ∪ acc) ∅ repositories.

Definition config_markers : list string :=
  ["docker"; "kubernetes"; "k8s"; ".yml"; ".yaml"; ".env"; "config"].

Definition service_code_extensions : list string :=
  [".py"; ".js"; ".java"; ".ts"; ".rb"; ".php"].

Definition is_config (file_path : string) : bool :=
  existsb (fun x => PyStr.contains x (PyStr.lower file_path)) config_markers.

(** [for target_repo in repositories] with the condition [wanted] on the
    target and the guard [target_repo.id != repo.id]. *)
Definition link_targets (wanted : Repository.t -> bool)
    (repositories : list Repository.t) (repo : Repository.t) : Repository.t :=
  fold_left
    (fun repo target_repo =>
       if (wanted target_repo
           && negb (Z.eqb (Repository.id target_repo) (Repository.id repo)))%bool
       then Repository.add_dependency "services" (Repository.name target_repo) repo
       else repo)
    repositories repo.

(** The body of [for repo_name in repo_names] under a service match. *)
Definition link_token (repositories : list Repository.t) (service_name : string)
    (repo : Repository.t) (repo_name : string) : Repository.t :=
  if (String.eqb service_name repo_name
      || ((5 <? String.length repo_name)%nat
          && PyStr.contains repo_name service_name))%bool
  then
    link_targets
      (fun target_repo =>
         (String.eqb (PyStr.lower (Repository.name target_repo)) repo_name
          || ((5 <? String.length repo_name)%nat
              && PyStr.contains repo_name
                   (PyStr.lower (Repository.name target_repo))))%bool)
      repositories repo
  else repo.

Definition service_match (repositories : list Repository.t)
    (repo_names : gset string) (repo : Repository.t) (m : Match)
    : Repository.t :=
  if truthy_str (group1 m) then
    let service_name := PyStr.lower (default "" (group1 m)) in
    fold_left (link_token repositories service_name) (elements repo_names) repo
  else repo.

(** The additional check for URLs that carry a repository name. *)
Definition url_token (repositories : list Repository.t) (content : string)
    (repo : Repository.t) (repo_name : string) : Repository.t :=
  if (5 <? String.length repo_name)%nat then
    fold_left
      (fun repo _ =>
         link_targets
           (fun target_repo =>
              PyStr.contains repo_name
                (PyStr.lower (Repository.name target_repo)))
           repositories repo)
      (finditer (UrlNaming repo_name) content) repo
  else repo.

Definition service_file (repositories : list Repository.t)
    (repo_names : gset string) (repo : Repository.t) (file_path : string)
    : Repository.t :=
  if (negb (is_config file_path)
      && negb (existsb (PyStr.endswith file_path) service_code_extensions))%bool
  then repo
  else
    match fetch repo file_path with
    | Some content =>
        let repo :=
          fold_left
            (fun repo pattern =>
               fold_left (service_match repositories repo_names)
                         (finditer pattern content) repo)
            service_patterns repo in
        fold_left (url_token repositories content) (elements repo_names) repo
    | None => repo
    end.

Definition service_repo (repositories : list Repository.t)
    (repo_names : gset string) (repo : Repository.t) : Repository.t :=
  if Repository.scanned repo
  then fold_left (service_file repositories repo_names)
                 (Repository.analyzed_files repo) repo
  else repo.

Definition _find_service_connections (repositories : list Repository.t)
    : list Repository.t :=
  let repo_names := collect_repo_names repositories in
  map (service_repo repositories repo_names) repositories.

(** [ConnectionAnalyzer.analyze]. *)
Definition analyze (repositories : list Repository.t) : list Repository.t :=
  match repositories with
  | [] => []
  | _ =>
      let '(api_endpoints, repositories) := _extract_api_endpoints repositories in
      let repositories := _find_api_connections repositories api_endpoints in
      _find_service_connections repositories
  end.

End Analyzer.

(** *** Route paths

    The paths the patterns are written for: segments separated by slashes,
    each a literal or one parameter in one of the three syntaxes. *)

Inductive Segment : Type :=
  | Literal (s : string)
  | ColonParam (n : string)
  | AngleParam (n : string)
  | BraceParam (n : string).

Fixpoint all_chars (p : ascii -> bool) (s : string) : bool :=
  match s with
  | EmptyString => true
  | String c r => (p c && all_chars p r)%bool
  end.

(** The characters the normalization reacts to. *)
Definition special (c : ascii) : bool :=
  (Ascii.eqb c "/" || Ascii.eqb c ":" || Ascii.eqb c "<" || Ascii.eqb c ">"
   || Ascii.eqb c "{" || Ascii.eqb c "}")%bool.

(** [x] does not occur in [s]. *)
Definition avoids (x : ascii) (s : string) : bool :=
  all_chars (fun c => negb (Ascii.eqb c x)) s.

(** *** Case-insensitive occurrence, said without [lower]

    [same_letter c d]: the two characters are equal, or one is an upper-case
    letter of the ASCII alphabet and the other the same letter in lower
    case. *)
Definition upper_case (n : nat) : bool := ((65 <=? n) && (n <=? 90))%bool%nat.

Definition same_letter (c d : ascii) : bool :=
  let n := nat_of_ascii c in
  let m := nat_of_ascii d in
  ((n =? m) || (upper_case n && (m =? n + 32)) || (upper_case m && (n =? m + 32)))%bool%nat.

Fixpoint same_text (s t : string) : bool :=
  match s, t with
  | EmptyString, EmptyString => true
  | String c s', String d t' => (same_letter c d && same_text s' t')%bool
  | _, _ => false
  end.

(** [keyword] occurs in [text] in some casing. *)
Definition mentions (keyword text : string) : Prop :=
  exists before word after,
    text = before +:+ word +:+ after /\ same_text word keyword = true.

(** No upper-case letter in [s]. *)
Definition lower_cased (s : string) : bool :=
  all_chars (fun c => negb (upper_case (nat_of_ascii c))) s.

(** A non-empty string without special characters. *)
Definition plain_name (s : string) : bool :=
  match s with
  | EmptyString => false
  | String _ _ => all_chars (fun c => negb (special c)) s
  end.

Definition segment_name (seg : Segment) : string :=
  match seg with
  | Literal s => s
  | ColonParam n => n
  | AngleParam n => n
  | BraceParam n => n
  end.

Definition segment_text (seg : Segment) : string :=
  match seg with
  | Literal s => s
  | ColonParam n => ":" +:+ n
  | AngleParam n => "<" +:+ n +:+ ">"
  | BraceParam n => "{" +:+ n +:+ "}"
  end.

Definition route (segs : list Segment) : Prop :=
  Forall (fun seg => plain_name (segment_name seg) = true) segs.

(** The text of a path: every segment after a slash. *)
Fixpoint render (segs : list Segment) : string :=
  match segs with
  | [] => EmptyString
  | seg :: rest => "/" +:+ segment_text seg +:+ render rest
  end.

(** [n] slashes. *)
Fixpoint slashes (n : nat) : string :=
  match n with
  | O => EmptyString
  | S k => String "/" (slashes k)
  end.

(** The segment with its parameter, if it is one, replaced by the
    placeholder. *)
Definition placeholder (seg : Segment) : Segment :=
  match seg with
  | Literal s => Literal s
  | _ => ColonParam "param"
  end.

(** One substitution pass seen on segments: the segments [which] selects
    become the placeholder. *)
Definition replace_if (which : Segment -> bool) (seg : Segment) : Segment :=
  if which seg then ColonParam "param" else seg.

Definition is_colon (seg : Segment) : bool :=
  match seg with ColonParam _ => true | _ => false end.

Definition is_angle (seg : Segment) : bool :=
  match seg with AngleParam _ => true | _ => false end.

Definition is_brace (seg : Segment) : bool :=
  match seg with BraceParam _ => true | _ => false end.

(** *** Who is who in a list of records *)

(** The identifier and the name of every record of the list. *)
Definition identities (repositories : list Repository.t) : list (Z * string) :=
  map (fun r => (Repository.id r, Repository.name r)) repositories.

(** [x] names a record of the list whose identifier is not [own]. *)
Definition names_another (ids : list (Z * string)) (own : Z) (x : string) : Prop :=
  exists i, (i, x) ∈ ids /\ i <> own.

(** A record keeps the identity [(own, name)] and every dependency it holds
    was in [base] or names another record. *)
Definition only_others (ids : list (Z * string)) (own : Z) (name : string)
    (base : string -> list string) (r : Repository.t) : Prop :=
  Repository.id r = own /\ Repository.name r = name /\
  forall kind x,
    x ∈ Repository.dependencies_of kind r ->
    x ∈ base kind \/ names_another ids own x.

(** Every entry of the index was written for a record of the list. *)
Definition sourced (ids : list (Z * string))
    (endpoints : ODict.t (list EndpointInfo)) : Prop :=
  forall item info,
    item ∈ ODict.items endpoints -> info ∈ snd item ->
    (repo_id info, repo_name info) ∈ ids.

(** The state of the indexing loops: the index is sourced and the record is
    the one the loop started with, up to its [apis]. *)
Definition indexing (ids : list (Z * string)) (repo : Repository.t)
    (st : ODict.t (list EndpointInfo) * Repository.t) : Prop :=
  sourced ids (fst st) /\
  Repository.id (snd st) = Repository.id repo /\
  Repository.name (snd st) = Repository.name repo /\
  Repository.dependencies (snd st) = Repository.dependencies repo.

(** *** What the analyzer leaves alone *)

(** Two records that differ at most in their [apis] and [dependencies]. *)
Definition same_but_links (r r' : Repository.t) : Prop :=
  Repository.id r' = Repository.id r /\
  Repository.name r' = Repository.name r /\
  Repository.path r' = Repository.path r /\
  Repository.default_branch r' = Repository.default_branch r /\
  Repository.project r' = Repository.project r /\
  Repository.web_url r' = Repository.web_url r /\
  Repository.scanned r' = Repository.scanned r /\
  Repository.analyzed_files r' = Repository.analyzed_files r /\
  Repository.technologies r' = Repository.technologies r /\
  Repository.documentation r' = Repository.documentation r /\
  Repository.stats r' = Repository.stats r.

(** An endpoint observation as the indexing pass records it for [r]. *)
Definition recorded_for (r : Repository.t) (e : Repository.Endpoint) : Prop :=
  In (Repository.ep_method e) ["GET"; "POST"; "PUT"; "DELETE"; "PATCH"] /\
  In (Repository.ep_source_file e) (Repository.analyzed_files r) /\
  is_code_file (Repository.ep_source_file e) = true /\
  Repository.ep_description e = "" /\
  exists raw, Repository.ep_path e = _normalize_path raw.

(** A record the passes skip: not scanned, or without analysed files. *)
Definition skipped (r : Repository.t) : Prop :=
  Repository.scanned r = false \/ Repository.analyzed_files r = [].

(** The endpoints a record has gained are those of its code files. *)
Definition gained (r x : Repository.t) : Prop :=
  Repository.analyzed_files x = Repository.analyzed_files r /\
  exists added,
    Repository.apis x = Repository.apis r ++ added /\
    Forall (recorded_for r) added.

End Connection.

(** ** config.py *)

Module Config.

(** The values the scanner reads from the configuration. *)
Inductive CVal : Type :=
  | CInt (z : Z)
  | CBool (b : bool)
  | CStr (s : string)
  | CStrs (l : list string)
  | CPatterns (l : list (gmap string string)).

(** [self.config]: section name to option name to value. *)
Record t : Type := { config : gmap string (gmap string CVal) }.

Definition default_extensions : list string :=
  [".py"; ".js"; ".java"; ".go"; ".rb"; ".php"; ".ts"; ".jsx"; ".tsx";
   ".yml"; ".yaml"; ".json"; ".tf"; ".md"; ".html"; ".css"; ".scss"].

Definition DEFAULT_CONFIG : gmap string (gmap string CVal) :=
  <["gitlab" := <["url" := CStr "https://gitlab.com"]> (<["timeout" := CInt 30]> ∅)]>
  (<["scanning" :=
       <["concurrent_scans" := CInt 5]>
       (<["timeout_seconds" := CInt 30]>
       (<["file_extensions" := CStrs default_extensions]> ∅))]>
  (<["detectors" :=
       <["frontend" := CBool true]> (<["backend" := CBool true]>
       (<["database" := CBool true]> (<["infrastructure" := CBool true]>
       (<["cicd" := CBool true]> (<["custom_patterns" := CPatterns []]> ∅)))))]>
  (<["analyzers" :=
       <["connections" := CBool true]> (<["dependencies" := CBool true]>
       (<["documentation" := CBool true]> ∅))]>
  (<["reporting" :=
       <["format" := CStr "json"]> (<["verbosity" := CStr "normal"]> ∅)]> ∅)))).

(** [Config.get(section, key, default)] with both names given:
    [self.config.get(section, {}).get(key, default)]. *)
Definition get (self : t) (section key : string) (dflt : CVal) : CVal :=
  default dflt (default ∅ (config self !! section) !! key).

(** [Config.set(section, key, value)] with a key. *)
Definition set (self : t) (section key : string) (value : CVal) : t :=
  {| config :=
       <[section := <[key := value]> (default ∅ (config self !! section))]>
       (config self) |}.

(** [Config._merge_config(self.config, loaded)] for a loaded file whose
    sections are dictionaries of plain values: a value of the file replaces
    the one in place, whatever it is. *)
Definition _merge_config (base update : gmap string (gmap string CVal))
    : gmap string (gmap string CVal) :=
  union_with (fun b u => Some (u ∪ b)) base update.

(** [Config.load_config] on the parsed content of the file. *)
Definition load_config (self : t) (loaded : gmap string (gmap string CVal)) : t :=
  {| config := _merge_config (config self) loaded |}.

End Config.

(** ** core/utils.py: the [timeout] decorator

    [wrapper] starts [func] on a thread, joins it for [seconds] and raises
    [TimeoutError] when the thread is still alive, that is when the call runs
    for longer than [seconds]; otherwise it hands over what the call returned
    or raised. The time a call takes is an input of the model. *)

Definition timeout {A : Type} (seconds : Z) (duration : Q) (outcome : Exc A)
    : Exc A :=
  if Qgtb duration (inject_Z seconds)
  then raise (TimeoutError "Operation timed out")
  else outcome.

(** ** core/scanner.py *)

Module Scanner.

(** [detector.detect(repo, content, path)]: the record as the call leaves it
    and how the call ended. The detectors' tables are data outside the
    orchestrator. *)
Definition Detector : Type :=
  Repository.t -> string -> string -> Repository.t * Exc unit.

(** [cross-repository analyzer.analyze(repositories)]. *)
Definition Analyzer : Type := list Repository.t -> Exc (list Repository.t).

(** An entry of [group.projects.list(...)]. *)
Record Handle : Type := {
  handle_id : Z;
  handle_name : string
}.

Record Group : Type := {
  group_name : string;
  projects_list : Exc (list Handle)
}.

(** What [GitLabScanner] holds and what its environment answers:
    [scan_seconds] is the wall-clock time [_scan_project] takes on a handle. *)
Record GitLabScanner : Type := {
  groups_get : Exc Group;
  projects_get : Z -> Exc Project;
  config : Config.t;
  detectors : list Detector;
  analyzers : list Analyzer;
  scan_seconds : Handle -> Q
}.

(** [_process_file]. *)
Fixpoint _process_file (ds : list Detector) (repo : Repository.t)
    (file_path content : string) : Repository.t * Exc unit :=
  match ds with
  | [] => (repo, ok tt)
  | detector :: rest =>
      match detector repo content file_path with
      | (repo', inr _) => _process_file rest repo' file_path content
      | (repo', inl e) => (repo', inl e)
      end
  end.

(** The body of [for item in tree] in [_scan_repository_files]. *)
Definition scan_item (self : GitLabScanner) (file_extensions : list string)
    (repo : Repository.t) (path : string) : Repository.t :=
  if negb (existsb (PyStr.endswith path) file_extensions) then repo
  else
    match files_get (Repository.project repo) path
                    (Repository.default_branch repo) with
    | inl _ => repo
    | inr content =>
        match _process_file (detectors self) repo path content with
        | (repo', inl _) => repo'
        | (repo', inr _) =>
            Repository.with_files repo'
              (Repository.analyzed_files repo' ++ [path])
              {| Repository.total_files :=
                   Repository.total_files (Repository.stats repo');
                 Repository.stats_analyzed_files :=
                   Repository.stats_analyzed_files (Repository.stats repo') + 1 |}
        end
    end.

(** [GitLabScanner._scan_repository_files]: every exception is caught inside,
    the call always returns. *)
Definition _scan_repository_files (self : GitLabScanner) (repo : Repository.t)
    : Repository.t :=
  match repository_tree (Repository.project repo)
                        (Repository.default_branch repo) with
  | inl _ => repo
  | inr tree =>
      let repo :=
        Repository.with_files repo (Repository.analyzed_files repo)
          {| Repository.total_files := Z.of_nat (length tree);
             Repository.stats_analyzed_files :=
               Repository.stats_analyzed_files (Repository.stats repo) |} in
      match Config.get (config self) "scanning" "file_extensions"
              (Config.CStrs [".py"; ".js"; ".java"; ".yml"; ".yaml"]) with
      | Config.CStrs file_extensions =>
          fold_left (scan_item self file_extensions) tree repo
      | _ => repo
      end
  end.

(** The body of [GitLabScanner._scan_project], under the decorator: each of
    its three handlers returns [None]. *)
Definition scan_project_body (self : GitLabScanner) (project : Handle)
    (timeout_seconds : Config.CVal) : option Repository.t :=
  match projects_get self (handle_id project) with
  | inl _ => None
  | inr full_project =>
      let repo := Repository.init full_project in
      let repo := _scan_repository_files self repo in
      Some (Repository.with_scanned repo true)
  end.

(** [GitLabScanner._scan_project] as callers see it, decorated with
    [@timeout(30)]. *)
Definition _scan_project (self : GitLabScanner) (project : Handle)
    (timeout_seconds : Config.CVal) : Exc (option Repository.t) :=
  timeout 30 (scan_seconds self project)
          (ok (scan_project_body self project timeout_seconds)).

(** [max_workers], or the [TypeError] of [min] on a value that is no number. *)
Definition max_workers (self : GitLabScanner) (projects : list Handle) : Exc Z :=
  match Config.get (config self) "scanning" "concurrent_scans" (Config.CInt 5) with
  | Config.CInt n => ok (Z.min n (Z.of_nat (length projects)))
  | _ => raise TypeError
  end.

(** [timeout_seconds] as [scan] reads it. *)
Definition timeout_seconds (self : GitLabScanner) : Config.CVal :=
  Config.get (config self) "scanning" "timeout_seconds" (Config.CInt 30).

(** The loop over the completed futures: [self.repositories] after it. The
    futures are taken in the order of submission; the order of completion only
    permutes the list. *)
Definition collect (self : GitLabScanner) (timeout_seconds : Config.CVal)
    (projects : list Handle) : list Repository.t :=
  fold_left
    (fun repositories project =>
       match _scan_project self project timeout_seconds with
       | inr (Some repo) => repositories ++ [repo]
       | inr None => repositories
       | inl _ => repositories
       end)
    projects [].

(** A handle completes when its scan stays within thirty seconds and the
    project lookup answers. *)
Definition completes (self : GitLabScanner) (project : Handle) : bool :=
  (negb (Qgtb (scan_seconds self project) (inject_Z 30))
   && negb (raised (projects_get self (handle_id project))))%bool.

(** [_run_cross_repo_analysis]. *)
Fixpoint run_analyzers (l : list Analyzer) (repositories : list Repository.t)
    : Exc (list Repository.t) :=
  match l with
  | [] => ok repositories
  | analyzer :: rest =>
      match analyzer repositories with
      | inl e => inl e
      | inr repositories' => run_analyzers rest repositories'
      end
  end.

Definition _run_cross_repo_analysis (self : GitLabScanner)
    (repositories : list Repository.t) : Exc (list Repository.t) :=
  match repositories with
  | [] => ok []
  | _ => run_analyzers (analyzers self) repositories
  end.

(** The scanning phase of [scan], from the project list to the end of the
    [with ThreadPoolExecutor] block; the executor refuses a pool size below
    one with [ValueError]. *)
Definition scan_projects (self : GitLabScanner) (projects : list Handle)
    : Exc (list Repository.t) :=
  match max_workers self projects with
  | inl e => inl e
  | inr workers =>
      let timeout_seconds := timeout_seconds self in
      if (workers <=? 0)%Z
      then raise (ValueError "max_workers must be greater than 0")
      else ok (collect self timeout_seconds projects)
  end.

(** [GitLabScanner.scan]: [self.repositories] when the call returns. *)
Definition scan (self : GitLabScanner) (specific_repos : option (list Z))
    : Exc (list Repository.t) :=
  match groups_get self with
  | inl (GitlabGetError _) => ok []
  | inl e => inl e
  | inr group =>
      match projects_list group with
      | inl (GitlabGetError _) => ok []
      | inl e => inl e
      | inr projects =>
          let projects :=
            match specific_repos with
            | Some (_ :: _ as ids) =>
                filter (fun p => existsb (Z.eqb (handle_id p)) ids) projects
            | _ => projects
            end in
          match scan_projects self projects with
          | inl e => inl e
          | inr repositories => _run_cross_repo_analysis self repositories
          end
      end
  end.

(** A detector that keeps to its contract: it does not raise and it leaves
    the file list, the counters and the project of the record alone. *)
Definition well_behaved (detector : Detector) : Prop :=
  forall repo content file_path,
    snd (detector repo content file_path) = ok tt /\
    Repository.analyzed_files (fst (detector repo content file_path))
      = Repository.analyzed_files repo /\
    Repository.stats (fst (detector repo content file_path))
      = Repository.stats repo /\
    Repository.project (fst (detector repo content file_path))
      = Repository.project repo /\
    Repository.default_branch (fst (detector repo content file_path))
      = Repository.default_branch repo.

(** The files of a tree that the scan keeps: an allowed extension and a
    content that could be fetched. *)
Definition kept (file_extensions : list string) (repo : Repository.t)
    (path : string) : bool :=
  (existsb (PyStr.endswith path) file_extensions
   && negb (raised (files_get (Repository.project repo) path
                              (Repository.default_branch repo))))%bool.

(** The state of the loop over the tree. *)
Definition scanning (repo : Repository.t) (files : list string) (n : Z)
    (r : Repository.t) : Prop :=
  Repository.analyzed_files r = Repository.analyzed_files repo ++ files /\
  Repository.stats_analyzed_files (Repository.stats r)
    = (Repository.stats_analyzed_files (Repository.stats repo) + n)%Z /\
  Repository.total_files (Repository.stats r)
    = Repository.total_files (Repository.stats repo) /\
  Repository.project r = Repository.project repo /\
  Repository.default_branch r = Repository.default_branch repo.

End Scanner.

(** ** analyzers/dependency.py: [find_cross_repo_dependencies] *)

Module Dependency.

(** A parsed dependency, a dependency file and the information kept for a
    repository, as [analyze_repository] builds them. *)
Record Dep : Type := {
  dep_name : string;
  dep_version : string;
  dep_type : string
}.

Record DepFile : Type := {
  dep_file_path : string;
  dependencies : list Dep
}.

Record RepoInfo : Type := {
  dependency_files : list DepFile
}.

(** [repo_name.split('/')[-1].replace('.git', '')]. *)
Definition simple_name (repo_name : string) : string :=
  PyStr.remove_all ".git" (PyStr.last_part (PyStr.split "/" repo_name)).

Definition variations (simple_name : string) : list string :=
  [simple_name +:+ "-lib";
   simple_name +:+ "-api";
   simple_name +:+ "-client";
   simple_name +:+ "-service";
   "lib-" +:+ simple_name;
   "api-" +:+ simple_name;
   simple_name +:+ "-sdk"].

(** The candidate keys a repository writes into [repo_packages]. *)
Definition candidate_keys (repo_name : string) : list string :=
  simple_name repo_name :: variations (simple_name repo_name).

(** The body of the first loop. *)
Definition add_packages (repo_packages : ODict.t string) (repo_name : string)
    : ODict.t string :=
  fold_left (fun d key => ODict.set key repo_name d)
            (candidate_keys repo_name) repo_packages.

(** [repo_packages] after the first loop. *)
Definition build_repo_packages (repos_data : ODict.t RepoInfo) : ODict.t string :=
  fold_left (fun d item => add_packages d (fst item))
            (ODict.items repos_data) ODict.empty.

(** [for package_name, related_repo in repo_packages.items()]. *)
Definition match_packages (repo_packages : ODict.t string) (repo_name : string)
    (dependencies : list string) (dep : Dep) : list string :=
  let dep_name := PyStr.lower (dep_name dep) in
  fold_left
    (fun dependencies item =>
       let '(package_name, related_repo) := item in
       if (PyStr.contains (PyStr.lower package_name) dep_name
           && negb (String.eqb related_repo repo_name))%bool
       then if Repository.str_in related_repo dependencies
            then dependencies
            else dependencies ++ [related_repo]
       else dependencies)
    (ODict.items repo_packages) dependencies.

(** The list [dependencies] built for one repository. *)
Definition repo_dependencies (repo_packages : ODict.t string)
    (repo_name : string) (repo_info : RepoInfo) : list string :=
  fold_left
    (fun dependencies dep_file =>
       fold_left (match_packages repo_packages repo_name)
                 (Dependency.dependencies dep_file) dependencies)
    (dependency_files repo_info) [].

(** [DependencyAnalyzer.find_cross_repo_dependencies]. *)
Definition find_cross_repo_dependencies (repos_data : ODict.t RepoInfo)
    : ODict.t (list string) :=
  let repo_packages := build_repo_packages repos_data in
  fold_left
    (fun cross_repo_deps item =>
       let '(repo_name, repo_info) := item in
       match repo_dependencies repo_packages repo_name repo_info with
       | [] => cross_repo_deps
       | dependencies => ODict.set repo_name dependencies cross_repo_deps
       end)
    (ODict.items repos_data) ODict.empty.

(** The repository a key of [repo_packages] ends up with: the last one, in
    the order of [repos_data], that writes the key. *)
Fixpoint last_claimant (key : string) (names : list string) : option string :=
  match names with
  | [] => None
  | n :: rest =>
      match last_claimant key rest with
      | Some m => Some m
      | None => if Repository.str_in key (candidate_keys n) then Some n else None
      end
  end.

(** The edges recorded for a repository, none when it is no key of the
    result. *)
Definition edges_of (repo_name : string) (cross_repo_deps : ODict.t (list string))
    : list string :=
  default [] (ODict.get repo_name cross_repo_deps).

(** Repository names and dependency names are ASCII text, on which [lower]
    above is [str.lower]. *)
Definition ascii_data (repos_data : ODict.t RepoInfo) : bool :=
  forallb
    (fun item : string * RepoInfo =>
       (PyStr.is_ascii (fst item)
        && forallb
             (fun dep_file =>
                forallb (fun dep => PyStr.is_ascii (dep_name dep))
                        (dependencies dep_file))
             (dependency_files (snd item)))%bool)
    (ODict.items repos_data).

End Dependency.

(** ** reporting/summary.py: [generate_summary]

    The records handed to the summary builder are objects on the heap that the
    caller keeps using. The builder is written over that heap: [load i] reads
    the [i]-th object of the list it is given, and every step returns the heap
    it leaves behind. This module gives the report as a value; the objects
    the builder creates and updates while it runs are the matter of
    [Objects], which follows. *)

Module Summary.

Definition Heap : Type := list Repository.t.

Definition M (A : Type) : Type := Heap -> Heap * Exc A.

Definition ret {A} (a : A) : M A := fun h => (h, ok a).

Definition bind {A B} (c : M A) (k : A -> M B) : M B :=
  fun h =>
    match c h with
    | (h', inr a) => k a h'
    | (h', inl e) => (h', inl e)
    end.

Definition lift {A} (r : Exc A) : M A := fun h => (h, r).

(** Reading the [i]-th record of [repositories]. *)
Definition load (i : nat) : M Repository.t :=
  fun h =>
    match h !! i with
    | Some repo => (h, ok repo)
    | None => (h, raise (OtherError "list index out of range"))
    end.

Notation "x <- c ;; k" := (bind c (fun x => k))
  (at level 100, c at next level, right associativity).

(** A [for] loop that threads the local variables [s]. *)
Fixpoint for_each {A S} (xs : list A) (body : S -> A -> M S) (s : S) : M S :=
  match xs with
  | [] => ret s
  | x :: rest => s' <- body s x ;; for_each rest body s'
  end.

(** A computation is read-only when it hands back the heap it was given. *)
Definition read_only {A} (c : M A) : Prop := forall h, fst (c h) = h.

(** *** The structure handed to the report renderer *)

Record CountEntry : Type := {
  ce_name : Val;
  ce_count : Z
}.

Record Edge : Type := {
  source : string;
  target : string;
  edge_type : string
}.

Record DocFlags : Type := {
  has_readme : bool;
  has_api_docs : bool;
  has_setup_instructions : bool;
  has_architecture_info : bool
}.

Record RepoSummary : Type := {
  rs_id : Z;
  rs_name : string;
  rs_path : string;
  rs_web_url : string;
  rs_technologies : list Val;
  rs_apis : nat;
  rs_documentation : DocFlags;
  rs_dependencies : list string;
  rs_services : list string
}.

Record DocRef : Type := {
  dr_repository : string;
  dr_path : Val;
  dr_type : Val
}.

Record DocsSummary : Type := {
  repos_with_readme : Z;
  repos_with_api_docs : Z;
  repos_with_setup : Z;
  repos_with_architecture : Z;
  docs_total_repositories : nat;
  docs_setup_instructions : list DocRef;
  architecture_overview : list DocRef
}.

Record Report : Type := {
  total_repositories : nat;
  scanned_repositories : nat;
  total_technologies : nat;
  top_technologies : list (Val * Z);
  repositories : list RepoSummary;
  technologies : ODict.t (list CountEntry);
  api_connections : list Edge;
  service_dependencies : list Edge;
  documentation : option DocsSummary
}.

(** The summary of an empty list; its [documentation] is the empty
    dictionary. *)
Definition empty_report : Report := {|
  total_repositories := 0; scanned_repositories := 0; total_technologies := 0;
  top_technologies := []; repositories := []; technologies := [];
  api_connections := []; service_dependencies := []; documentation := None
|}.

(** *** Local computations *)

(** Equality of two names as dictionary keys of the [Counter]. *)
Definition val_eqb (a b : Val) : bool :=
  match a, b with
  | VNone, VNone => true
  | VStr s, VStr s' => String.eqb s s'
  | VNum q, VNum q' => Qeq_bool q q'
  | _, _ => false
  end.

(** [technology_counts[tech_name] += 1]; a list cannot be a key. *)
Fixpoint counter_incr (k : Val) (c : list (Val * Z)) : list (Val * Z) :=
  match c with
  | [] => [(k, 1%Z)]
  | (k', n) :: rest =>
      if val_eqb k k' then (k', (n + 1)%Z) :: rest
      else (k', n) :: counter_incr k rest
  end.

Definition hashable (v : Val) : bool :=
  match v with VStrs _ => false | _ => true end.

(** [tech_name == t] for an entry [t] of [all_technologies[category]]: the
    entries are dictionaries and a name is not, the comparison is false. *)
Definition name_is_entry (tech_name : Val) (entry : CountEntry) : bool := false.

(** The [else] branch: the count of the first entry with that name. *)
Fixpoint bump_entry (tech_name : Val) (l : list CountEntry) : list CountEntry :=
  match l with
  | [] => []
  | entry :: rest =>
      if val_eqb (ce_name entry) tech_name
      then {| ce_name := ce_name entry; ce_count := (ce_count entry + 1)%Z |} :: rest
      else entry :: bump_entry tech_name rest
  end.

(** The local variables of the main loop. *)
Record Acc : Type := {
  all_technologies : ODict.t (list CountEntry);
  technology_counts : list (Val * Z);
  acc_api_connections : list Edge;
  acc_service_dependencies : list Edge;
  repos_summary : list RepoSummary
}.

(** The body of [for tech in techs]. *)
Definition count_tech (category : string)
    (st : Exc (ODict.t (list CountEntry) * list (Val * Z) * list Val))
    (tech : gmap string Val)
    : Exc (ODict.t (list CountEntry) * list (Val * Z) * list Val) :=
  match st with
  | inl e => inl e
  | inr (all_techs, counts, repo_techs) =>
      match tech !! "name" with
      | None => raise (KeyError "name")
      | Some tech_name =>
          if negb (hashable tech_name) then raise TypeError
          else
            let counts := counter_incr tech_name counts in
            let entries := default [] (ODict.get category all_techs) in
            let entries :=
              if negb (existsb (name_is_entry tech_name) entries)
              then entries ++ [{| ce_name := tech_name; ce_count := 1 |}]
              else bump_entry tech_name entries in
            ok (ODict.set category entries all_techs, counts,
                repo_techs ++ [tech_name])
      end
  end.

Definition _summarize_repo_documentation (repo : Repository.t) : DocFlags :=
  let d := Repository.documentation repo in
  {| has_readme := match Repository.readme d with Some _ => true | None => false end;
     has_api_docs := (0 <? length (Repository.api_docs d))%nat;
     has_setup_instructions := (0 <? length (Repository.setup_instructions d))%nat;
     has_architecture_info := (0 <? length (Repository.architecture d))%nat |}.

(** The body of the main loop for a scanned record. *)
Definition summarize_repo (acc : Acc) (repo : Repository.t) : Exc Acc :=
  let counted :=
    fold_left
      (fun st item =>
         fold_left (count_tech (fst item)) (snd item) st)
      (ODict.items (Repository.technologies repo))
      (ok (all_technologies acc, technology_counts acc, [])) in
  match counted with
  | inl e => inl e
  | inr (all_techs, counts, repo_techs) =>
      let deps := default [] (ODict.get "repositories" (Repository.dependencies repo)) in
      let services := default [] (ODict.get "services" (Repository.dependencies repo)) in
      ok {| all_technologies := all_techs;
            technology_counts := counts;
            acc_api_connections :=
              acc_api_connections acc ++
              map (fun dep_repo =>
                     {| source := Repository.name repo; target := dep_repo;
                        edge_type := "api" |}) deps;
            acc_service_dependencies :=
              acc_service_dependencies acc ++
              map (fun service =>
                     {| source := Repository.name repo; target := service;
                        edge_type := "service" |}) services;
            repos_summary :=
              repos_summary acc ++
              [{| rs_id := Repository.id repo; rs_name := Repository.name repo;
                  rs_path := Repository.path repo;
                  rs_web_url := Repository.web_url repo;
                  rs_technologies := repo_techs;
                  rs_apis := length (Repository.apis repo);
                  rs_documentation := _summarize_repo_documentation repo;
                  rs_dependencies := deps;
                  rs_services := services |}] |}
  end.

(** [sorted(xs, key=count, reverse=True)]: descending and stable. *)
Fixpoint insert_desc {A} (key : A -> Z) (x : A) (l : list A) : list A :=
  match l with
  | [] => [x]
  | y :: rest =>
      if (key x <? key y)%Z then y :: insert_desc key x rest else x :: l
  end.

Definition sorted_desc {A} (key : A -> Z) (l : list A) : list A :=
  foldr (insert_desc key) [] l.

(** [Counter.most_common(n)]. *)
Definition most_common (n : nat) (c : list (Val * Z)) : list (Val * Z) :=
  take n (sorted_desc snd c).

(** The body of the loop of [_generate_documentation_summary]. *)
Definition doc_refs (repo : Repository.t) (l : list (gmap string Val)) : list DocRef :=
  map (fun d =>
         {| dr_repository := Repository.name repo;
            dr_path := default (VStr "") (d !! "path");
            dr_type := default (VStr "text") (d !! "type") |}) l.

Definition document_repo (s : DocsSummary) (repo : Repository.t) : DocsSummary :=
  if negb (Repository.scanned repo) then s
  else
    let d := Repository.documentation repo in
    let setup := Repository.setup_instructions d in
    let arch := Repository.architecture d in
    {| repos_with_readme :=
         (match Repository.readme d with
          | Some _ => repos_with_readme s + 1
          | None => repos_with_readme s
          end)%Z;
       repos_with_api_docs :=
         (match Repository.api_docs d with
          | [] => repos_with_api_docs s
          | _ => repos_with_api_docs s + 1
          end)%Z;
       repos_with_setup :=
         (match setup with [] => repos_with_setup s | _ => repos_with_setup s + 1 end)%Z;
       repos_with_architecture :=
         (match arch with
          | [] => repos_with_architecture s
          | _ => repos_with_architecture s + 1
          end)%Z;
       docs_total_repositories := docs_total_repositories s;
       docs_setup_instructions := docs_setup_instructions s ++ doc_refs repo setup;
       architecture_overview := architecture_overview s ++ doc_refs repo arch |}.

(** *** The builder over the heap *)

(** [_generate_documentation_summary(repositories)]. *)
Definition _generate_documentation_summary (n : nat) : M DocsSummary :=
  for_each (seq 0 n)
    (fun s i => repo <- load i ;; ret (document_repo s repo))
    {| repos_with_readme := 0; repos_with_api_docs := 0; repos_with_setup := 0;
       repos_with_architecture := 0; docs_total_repositories := n;
       docs_setup_instructions := []; architecture_overview := [] |}.

(** [generate_summary(repositories)], [repositories] being the [n] records of
    the heap. *)
Definition generate_summary_on (n : nat) : M Report :=
  match n with
  | O => ret empty_report
  | _ =>
      scanned_repos <-
        for_each (seq 0 n)
          (fun count i =>
             repo <- load i ;;
             ret (if Repository.scanned repo then S count else count)) O ;;
      acc <-
        for_each (seq 0 n)
          (fun acc i =>
             repo <- load i ;;
             if negb (Repository.scanned repo) then ret acc
             else lift (summarize_repo acc repo))
          {| all_technologies := []; technology_counts := [];
             acc_api_connections := []; acc_service_dependencies := [];
             repos_summary := [] |} ;;
      let tech_summary :=
        map (fun item => (fst item, sorted_desc ce_count (snd item)))
            (ODict.items (all_technologies acc)) in
      let top_techs := most_common 10 (technology_counts acc) in
      docs <- _generate_documentation_summary n ;;
      ret {| total_repositories := n;
             scanned_repositories := scanned_repos;
             total_technologies := length (technology_counts acc);
             top_technologies := top_techs;
             repositories := repos_summary acc;
             technologies := tech_summary;
             api_connections := acc_api_connections acc;
             service_dependencies := acc_service_dependencies acc;
             documentation := Some docs |}
  end.

Definition generate_summary : M Report :=
  fun h => generate_summary_on (length h) h.

(** *** What a report says of the records *)

(** The edges a record contributes to a connection list. *)
Definition edges_from (kind type : string) (repo : Repository.t) : list Edge :=
  map (fun name =>
         {| source := Repository.name repo; target := name; edge_type := type |})
      (Repository.dependencies_of kind repo).

(** The entry of [repositories] for a record, but for its technologies. *)
Definition summarizes (repo : Repository.t) (s : RepoSummary) : Prop :=
  rs_id s = Repository.id repo /\
  rs_name s = Repository.name repo /\
  rs_path s = Repository.path repo /\
  rs_web_url s = Repository.web_url repo /\
  rs_apis s = length (Repository.apis repo) /\
  rs_documentation s = _summarize_repo_documentation repo /\
  rs_dependencies s = Repository.dependencies_of "repositories" repo /\
  rs_services s = Repository.dependencies_of "services" repo.

(** Every observation of the record has a name that can be a dictionary
    key. *)
Definition summarizable (repo : Repository.t) : Prop :=
  forall category techs tech,
    (category, techs) ∈ ODict.items (Repository.technologies repo) ->
    tech ∈ techs ->
    exists name, tech !! "name" = Some name /\ hashable name = true.

(** The records the main loop works on. *)
Definition scanned_of (repositories : list Repository.t) : list Repository.t :=
  List.filter Repository.scanned repositories.

(** [for repo in repositories: body], the records read by position. *)
Definition over_records {S} (body : S -> Repository.t -> M S)
    (positions : list nat) (s : S) : M S :=
  for_each positions (fun s i => repo <- load i ;; body s repo) s.

(** The rounds of the loops of [generate_summary], and the empty locals. *)
Definition count_round (count : nat) (repo : Repository.t) : M nat :=
  ret (if Repository.scanned repo then Datatypes.S count else count).

Definition main_round (acc : Acc) (repo : Repository.t) : M Acc :=
  if negb (Repository.scanned repo) then ret acc
  else lift (summarize_repo acc repo).

Definition acc0 : Acc :=
  {| all_technologies := []; technology_counts := [];
     acc_api_connections := []; acc_service_dependencies := [];
     repos_summary := [] |}.

End Summary.

(** ** reporting/summary.py on the object store

    The report builder works on Python objects: the records it is given are
    instances whose attributes refer to lists and dictionaries, and while it
    runs it creates and updates lists and dictionaries of its own. The
    records above show what the report says; this module shows what the
    builder does to the objects, so that a statement about what it leaves
    untouched has something to say.

    A call runs in a frame. Every object that exists when the call starts
    is one of the [globals]; every object the call creates goes to the
    [locals] of the frame, in the order of creation. A value is immediate
    ([None], a bool, an int, a float, a str: these are immutable) or a
    reference to an object of one of the two regions. Assignment to an
    item, [append] and the missing-key handler of [defaultdict] write to
    the object a reference leads to, whichever region it is in. *)

Module Objects.

Inductive Loc : Type :=
  | G (n : nat)
  | L (n : nat).

Inductive PV : Type :=
  | PNone
  | PBool (b : bool)
  | PInt (z : Z)
  | PFloat (q : Q)
  | PStr (s : string)
  | PRef (l : Loc).

(** The three dictionary classes of summary.py. *)
Inductive Kind : Type :=
  | dict
  | defaultdict        (* [defaultdict(list)] *)
  | Counter.

Inductive Obj : Type :=
  | PyList (items : list PV)
  | PyDict (kind : Kind) (entries : list (PV * PV))
  | Instance (attrs : list (string * PV)).

Record Store : Type := {
  globals : list Obj;
  locals : list Obj
}.

(** The frame of a call made when the objects [g] exist. *)
Definition call (g : list Obj) : Store := {| globals := g; locals := [] |}.

Definition M (A : Type) : Type := Store -> Store * Exc A.

Definition ret {A} (a : A) : M A := fun s => (s, ok a).

Definition bind {A B} (c : M A) (k : A -> M B) : M B :=
  fun s =>
    match c s with
    | (s', inr a) => k a s'
    | (s', inl e) => (s', inl e)
    end.

Definition throw {A} (e : Error) : M A := fun s => (s, raise e).

Definition lift {A} (r : Exc A) : M A := fun s => (s, r).

Notation "x <- c ;; k" := (bind c (fun x => k))
  (at level 100, c at next level, right associativity).

Definition AttributeError : Error := OtherError "AttributeError".
Definition IndexError : Error := OtherError "IndexError".

(** *** The three accesses to the store *)

(** Following a reference. Python has no reference to nothing; the error is
    there to make the function total. *)
Definition deref (l : Loc) : M Obj :=
  fun s =>
    match (match l with G n => globals s !! n | L n => locals s !! n end) with
    | Some o => (s, ok o)
    | None => (s, raise (OtherError "no such object"))
    end.

(** Creating an object: it is a local of the frame. *)
Definition new (o : Obj) : M PV :=
  fun s =>
    ({| globals := globals s; locals := locals s ++ [o] |},
     ok (PRef (L (length (locals s))))).

(** Updating an object in place, in the region where it is. *)
Definition assign (l : Loc) (o : Obj) : M unit :=
  fun s =>
    match l with
    | G n => ({| globals := <[n := o]> (globals s); locals := locals s |}, ok tt)
    | L n => ({| globals := globals s; locals := <[n := o]> (locals s) |}, ok tt)
    end.

Fixpoint for_each {A} (xs : list A) (body : A -> M unit) : M unit :=
  match xs with
  | [] => ret tt
  | x :: rest => _ <- body x ;; for_each rest body
  end.

Fixpoint for_all {A B} (xs : list A) (f : A -> M B) : M (list B) :=
  match xs with
  | [] => ret []
  | x :: rest => y <- f x ;; ys <- for_all rest f ;; ret (y :: ys)
  end.

(** *** Values *)

Definition number (v : PV) : option Q :=
  match v with
  | PBool b => Some (inject_Z (if b then 1 else 0))
  | PInt z => Some (inject_Z z)
  | PFloat q => Some q
  | _ => None
  end.

Definition same_loc (a b : Loc) : bool :=
  match a, b with
  | G n, G m => (n =? m)%nat
  | L n, L m => (n =? m)%nat
  | _, _ => false
  end.

(** [a == b] for values that can be dictionary keys: numbers compare by
    value ([True == 1 == 1.0]), strings by text, instances by identity (the
    record class defines no [__eq__]). A list or a dictionary is equal only
    to another list or dictionary, so comparing one with a key gives
    [False], as here. *)
Definition equal (a b : PV) : bool :=
  match number a, number b with
  | Some x, Some y => Qeq_bool x y
  | None, None =>
      match a, b with
      | PNone, PNone => true
      | PStr s, PStr t => String.eqb s t
      | PRef l, PRef m => same_loc l m
      | _, _ => false
      end
  | _, _ => false
  end.

Fixpoint lookup_key (k : PV) (entries : list (PV * PV)) : option PV :=
  match entries with
  | [] => None
  | (k', v) :: rest => if equal k' k then Some v else lookup_key k rest
  end.

(** [d[k] = v] on the entries: a key already there keeps its place (and the
    key object first used), a new key goes to the end. *)
Fixpoint store_key (k v : PV) (entries : list (PV * PV)) : list (PV * PV) :=
  match entries with
  | [] => [(k, v)]
  | (k', v') :: rest =>
      if equal k' k then (k', v) :: rest else (k', v') :: store_key k v rest
  end.

(** [hash(k)], for its exception: lists and dictionaries are unhashable. *)
Definition hash_key (k : PV) : M unit :=
  match k with
  | PRef l =>
      o <- deref l ;;
      match o with
      | Instance _ => ret tt
      | _ => throw TypeError
      end
  | _ => ret tt
  end.

(** The position an integer index denotes in a sequence of [n] items. *)
Definition position (k : PV) (n : nat) : Exc nat :=
  match k with
  | PInt _ | PBool _ =>
      let z := match k with PInt z => z | PBool true => 1%Z | _ => 0%Z end in
      if ((0 <=? z) && (z <? Z.of_nat n))%Z%bool then ok (Z.to_nat z)
      else if ((z <? 0) && (- Z.of_nat n <=? z))%Z%bool
           then ok (Z.to_nat (Z.of_nat n + z))
           else raise IndexError
  | _ => raise TypeError
  end.

Fixpoint characters (s : string) : list PV :=
  match s with
  | EmptyString => []
  | String c r => PStr (String c EmptyString) :: characters r
  end.

Definition key_text (k : PV) : string :=
  match k with PStr s => s | _ => "" end.

Definition assoc (name : string) (attrs : list (string * PV)) : option PV :=
  snd <$> List.find (fun a => String.eqb (fst a) name) attrs.

(** Calling a method the object does not have. An instance that holds data
    under that name fails at the call instead of at the look-up. *)
Definition no_method {A} (o : Obj) (name : string) : M A :=
  match o with
  | Instance attrs =>
      match assoc name attrs with
      | Some _ => throw TypeError
      | None => throw AttributeError
      end
  | _ => throw AttributeError
  end.

(** *** The operations summary.py applies to objects *)

(** [v.name], a data attribute. *)
Definition attribute (v : PV) (name : string) : M PV :=
  match v with
  | PRef l =>
      o <- deref l ;;
      match o with
      | Instance attrs =>
          match assoc name attrs with
          | Some x => ret x
          | None => throw AttributeError
          end
      | _ => throw AttributeError
      end
  | _ => throw AttributeError
  end.

(** [bool(v)], as [if v:] and [if not v:] take it. *)
Definition truth (v : PV) : M bool :=
  match v with
  | PNone => ret false
  | PBool b => ret b
  | PInt z => ret (negb (z =? 0)%Z)
  | PFloat q => ret (negb (Qeq_bool q 0))
  | PStr s => ret (negb (String.eqb s ""))
  | PRef l =>
      o <- deref l ;;
      match o with
      | PyList items => ret (negb (length items =? 0)%nat)
      | PyDict _ entries => ret (negb (length entries =? 0)%nat)
      | Instance _ => ret true
      end
  end.

(** [len(v)]. *)
Definition len (v : PV) : M Z :=
  match v with
  | PStr s => ret (Z.of_nat (String.length s))
  | PRef l =>
      o <- deref l ;;
      match o with
      | PyList items => ret (Z.of_nat (length items))
      | PyDict _ entries => ret (Z.of_nat (length entries))
      | Instance _ => throw TypeError
      end
  | _ => throw TypeError
  end.

(** The items a [for] loop over [v] visits. The loops of summary.py never
    change the container they run over, so the items are those present when
    the loop starts. *)
Definition iterate (v : PV) : M (list PV) :=
  match v with
  | PStr s => ret (characters s)
  | PRef l =>
      o <- deref l ;;
      match o with
      | PyList items => ret items
      | PyDict _ entries => ret (map fst entries)
      | Instance _ => throw TypeError
      end
  | _ => throw TypeError
  end.

(** [v.items()]. *)
Definition items (v : PV) : M (list (PV * PV)) :=
  match v with
  | PRef l =>
      o <- deref l ;;
      match o with
      | PyDict _ entries => ret entries
      | _ => no_method o "items"
      end
  | _ => throw AttributeError
  end.

(** [v[k]]. On a [defaultdict(list)] a missing key is given a new empty
    list, which is stored in the dictionary: reading writes. A [Counter]
    answers 0 for a missing key and stores nothing. *)
Definition subscript (v k : PV) : M PV :=
  match v with
  | PStr s =>
      i <- lift (position k (String.length s)) ;;
      match characters s !! i with
      | Some c => ret c
      | None => throw IndexError
      end
  | PRef l =>
      o <- deref l ;;
      match o with
      | PyList items =>
          i <- lift (position k (length items)) ;;
          match items !! i with
          | Some x => ret x
          | None => throw IndexError
          end
      | PyDict kind entries =>
          _ <- hash_key k ;;
          match lookup_key k entries with
          | Some x => ret x
          | None =>
              match kind with
              | dict => throw (KeyError (key_text k))
              | defaultdict =>
                  x <- new (PyList []) ;;
                  _ <- assign l (PyDict kind (entries ++ [(k, x)])) ;;
                  ret x
              | Counter => ret (PInt 0)
              end
          end
      | Instance _ => throw TypeError
      end
  | _ => throw TypeError
  end.

(** [v.get(k, d)]: the method is looked up, then the default is evaluated,
    then the key is hashed. Nothing is stored, whatever the class. *)
Definition dict_get (v k : PV) (d : M PV) : M PV :=
  match v with
  | PRef l =>
      o <- deref l ;;
      match o with
      | PyDict _ entries =>
          x <- d ;;
          _ <- hash_key k ;;
          ret (default x (lookup_key k entries))
      | _ => no_method o "get"
      end
  | _ => throw AttributeError
  end.

(** [v[k] = x]. *)
Definition set_item (v k x : PV) : M unit :=
  match v with
  | PRef l =>
      o <- deref l ;;
      match o with
      | PyList items =>
          i <- lift (position k (length items)) ;;
          assign l (PyList (<[i := x]> items))
      | PyDict kind entries =>
          _ <- hash_key k ;;
          assign l (PyDict kind (store_key k x entries))
      | Instance _ => throw TypeError
      end
  | _ => throw TypeError
  end.

(** [v.append(x)]. *)
Definition append (v x : PV) : M unit :=
  match v with
  | PRef l =>
      o <- deref l ;;
      match o with
      | PyList items => assign l (PyList (items ++ [x]))
      | _ => no_method o "append"
      end
  | _ => throw AttributeError
  end.

(** [x in v]. The one place that asks has used [x] as a key just before,
    so [==] is [equal]. *)
Definition contains (v x : PV) : M bool :=
  match v with
  | PStr s =>
      match x with
      | PStr t => ret (PyStr.contains t s)
      | _ => throw TypeError
      end
  | PRef l =>
      o <- deref l ;;
      match o with
      | PyList items => ret (existsb (fun e => equal e x) items)
      | PyDict _ entries =>
          _ <- hash_key x ;;
          ret (match lookup_key x entries with Some _ => true | None => false end)
      | Instance _ => throw TypeError
      end
  | _ => throw TypeError
  end.

(** [v + 1]. *)
Definition add_one (v : PV) : Exc PV :=
  match v with
  | PBool b => ok (PInt (if b then 2 else 1))
  | PInt z => ok (PInt (z + 1))
  | PFloat q => ok (PFloat (q + 1))
  | _ => raise TypeError
  end.

(** The key of a sort. The counts that are sorted are the integers that
    [generate_summary] has written itself; what Python does with keys of
    another type is not followed, the model raises [TypeError]. *)
Definition sort_key (v : PV) : M Q :=
  match number v with
  | Some q => ret q
  | None => throw TypeError
  end.

Fixpoint insert_desc {A} (x : Q * A) (l : list (Q * A)) : list (Q * A) :=
  match l with
  | [] => [x]
  | y :: rest =>
      if negb (Qle_bool (fst y) (fst x)) then y :: insert_desc x rest
      else x :: l
  end.

(** A stable sort with [reverse=True]: larger keys first, equal keys in
    the order they had. *)
Definition sorted_desc {A} (l : list (Q * A)) : list A :=
  map snd (foldr insert_desc [] l).

(** [sorted(v, key=lambda x: x.get('count', 0), reverse=True)]: a new
    list. The key function is called on every item; keys are compared only
    when there are two items or more. *)
Definition sorted_by_count (v : PV) : M PV :=
  xs <- iterate v ;;
  keys <- for_all xs (fun x => dict_get x (PStr "count") (ret (PInt 0))) ;;
  match xs with
  | [] | [_] => new (PyList xs)
  | _ =>
      qs <- for_all keys sort_key ;;
      new (PyList (sorted_desc (combine qs xs)))
  end.

(** [v.most_common(n)], the pairs of a [Counter] by decreasing count. *)
Definition most_common (n : nat) (v : PV) : M (list (PV * PV)) :=
  match v with
  | PRef l =>
      o <- deref l ;;
      match o with
      | PyDict Counter entries =>
          match entries with
          | [] | [_] => ret (take n entries)
          | _ =>
              qs <- for_all (map snd entries) sort_key ;;
              ret (take n (sorted_desc (combine qs entries)))
          end
      | _ => no_method o "most_common"
      end
  | _ => throw AttributeError
  end.

(** *** summary.py, lines 143-160 *)

Definition _summarize_repo_documentation (repo : PV) : M PV :=
  d <- attribute repo "documentation" ;;
  readme <- subscript d (PStr "readme") ;;
  d <- attribute repo "documentation" ;;
  api_docs <- subscript d (PStr "api_docs") ;;
  n_api <- len api_docs ;;
  d <- attribute repo "documentation" ;;
  setup <- subscript d (PStr "setup_instructions") ;;
  n_setup <- len setup ;;
  d <- attribute repo "documentation" ;;
  architecture <- subscript d (PStr "architecture") ;;
  n_arch <- len architecture ;;
  new (PyDict dict
         [(PStr "has_readme",
           PBool (match readme with PNone => false | _ => true end));
          (PStr "has_api_docs", PBool (0 <? n_api)%Z);
          (PStr "has_setup_instructions", PBool (0 <? n_setup)%Z);
          (PStr "has_architecture_info", PBool (0 <? n_arch)%Z)]).

(** *** summary.py, lines 163-218 *)

(** [docs_summary[key] += 1]. *)
Definition increment (target key : PV) : M unit :=
  c <- subscript target key ;;
  c' <- lift (add_one c) ;;
  set_item target key c'.

(** The body of the two inner loops:
    [docs_summary[key].append({'repository': repo.name, ...})]. *)
Definition note_document (docs_summary : PV) (key : string) (repo doc : PV)
    : M unit :=
  target <- subscript docs_summary (PStr key) ;;
  name <- attribute repo "name" ;;
  path <- dict_get doc (PStr "path") (ret (PStr "")) ;;
  type <- dict_get doc (PStr "type") (ret (PStr "text")) ;;
  e <- new (PyDict dict [(PStr "repository", name); (PStr "path", path);
                         (PStr "type", type)]) ;;
  append target e.

Definition document_repository (docs_summary repo : PV) : M unit :=
  s <- attribute repo "scanned" ;;
  scanned <- truth s ;;
  if negb scanned then ret tt else
  d <- attribute repo "documentation" ;;
  readme <- subscript d (PStr "readme") ;;
  _ <- match readme with
       | PNone => ret tt
       | _ => increment docs_summary (PStr "repos_with_readme")
       end ;;
  d <- attribute repo "documentation" ;;
  api_docs <- subscript d (PStr "api_docs") ;;
  has_api <- truth api_docs ;;
  _ <- (if has_api then increment docs_summary (PStr "repos_with_api_docs")
        else ret tt) ;;
  d <- attribute repo "documentation" ;;
  setup <- subscript d (PStr "setup_instructions") ;;
  has_setup <- truth setup ;;
  _ <- (if has_setup then
          _ <- increment docs_summary (PStr "repos_with_setup") ;;
          d <- attribute repo "documentation" ;;
          setups <- subscript d (PStr "setup_instructions") ;;
          xs <- iterate setups ;;
          for_each xs (note_document docs_summary "setup_instructions" repo)
        else ret tt) ;;
  d <- attribute repo "documentation" ;;
  architecture <- subscript d (PStr "architecture") ;;
  has_arch <- truth architecture ;;
  if has_arch then
    _ <- increment docs_summary (PStr "repos_with_architecture") ;;
    d <- attribute repo "documentation" ;;
    archs <- subscript d (PStr "architecture") ;;
    xs <- iterate archs ;;
    for_each xs (note_document docs_summary "architecture_overview" repo)
  else ret tt.

Definition _generate_documentation_summary (repositories : PV) : M PV :=
  total <- len repositories ;;
  setup_instructions <- new (PyList []) ;;
  architecture_overview <- new (PyList []) ;;
  docs_summary <-
    new (PyDict dict
           [(PStr "repos_with_readme", PInt 0);
            (PStr "repos_with_api_docs", PInt 0);
            (PStr "repos_with_setup", PInt 0);
            (PStr "repos_with_architecture", PInt 0);
            (PStr "total_repositories", PInt total);
            (PStr "setup_instructions", setup_instructions);
            (PStr "architecture_overview", architecture_overview)]) ;;
  repos <- iterate repositories ;;
  _ <- for_each repos (document_repository docs_summary) ;;
  ret docs_summary.

(** *** summary.py, lines 11-140 *)

(** [sum(1 for repo in repositories if repo.scanned)]. *)
Fixpoint count_scanned (repos : list PV) (total : Z) : M Z :=
  match repos with
  | [] => ret total
  | repo :: rest =>
      s <- attribute repo "scanned" ;;
      scanned <- truth s ;;
      count_scanned rest (if scanned then total + 1 else total)%Z
  end.

(** Lines 74-77: the loop that looks for the entry of [tech_name] and
    leaves at the first it finds. *)
Fixpoint increment_named (tech_name : PV) (ts : list PV) : M unit :=
  match ts with
  | [] => ret tt
  | t :: rest =>
      name <- subscript t (PStr "name") ;;
      if equal name tech_name then
        c <- dict_get t (PStr "count") (ret (PInt 0)) ;;
        c' <- lift (add_one c) ;;
        set_item t (PStr "count") c'
      else increment_named tech_name rest
  end.

(** Lines 60-80, the body of the loop over the observations of a category. *)
Definition note_technology
    (all_technologies technology_counts repo_techs category tech : PV)
    : M unit :=
  tech_name <- subscript tech (PStr "name") ;;
  _ <- increment technology_counts tech_name ;;
  listed <- subscript all_technologies category ;;
  present <- contains listed tech_name ;;
  _ <- (if negb present then
          target <- subscript all_technologies category ;;
          e <- new (PyDict dict [(PStr "name", tech_name);
                                 (PStr "count", PInt 1)]) ;;
          append target e
        else
          listed <- subscript all_technologies category ;;
          ts <- iterate listed ;;
          increment_named tech_name ts) ;;
  append repo_techs tech_name.

(** Lines 83-98: one of the two loops over the links of a record. *)
Definition note_links (connections repo : PV) (key type : string) : M unit :=
  deps <- attribute repo "dependencies" ;;
  linked <- dict_get deps (PStr key) (new (PyList [])) ;;
  any <- truth linked ;;
  if any then
    deps <- attribute repo "dependencies" ;;
    targets <- subscript deps (PStr key) ;;
    xs <- iterate targets ;;
    for_each xs (fun target =>
      name <- attribute repo "name" ;;
      e <- new (PyDict dict [(PStr "source", name); (PStr "target", target);
                             (PStr "type", PStr type)]) ;;
      append connections e)
  else ret tt.

(** Lines 52-113, the body of the loop over the records. *)
Definition summarize_repository
    (all_technologies technology_counts api_connections service_dependencies
     repos_summary repo : PV) : M unit :=
  s <- attribute repo "scanned" ;;
  scanned <- truth s ;;
  if negb scanned then ret tt else
  repo_techs <- new (PyList []) ;;
  technologies <- attribute repo "technologies" ;;
  categories <- items technologies ;;
  _ <- for_each categories (fun item =>
         techs <- iterate (snd item) ;;
         for_each techs
           (note_technology all_technologies technology_counts repo_techs
              (fst item))) ;;
  _ <- note_links api_connections repo "repositories" "api" ;;
  _ <- note_links service_dependencies repo "services" "service" ;;
  id <- attribute repo "id" ;;
  name <- attribute repo "name" ;;
  path <- attribute repo "path" ;;
  web_url <- attribute repo "web_url" ;;
  apis <- attribute repo "apis" ;;
  n_apis <- len apis ;;
  documentation <- _summarize_repo_documentation repo ;;
  deps <- attribute repo "dependencies" ;;
  dependencies <- dict_get deps (PStr "repositories") (new (PyList [])) ;;
  deps <- attribute repo "dependencies" ;;
  services <- dict_get deps (PStr "services") (new (PyList [])) ;;
  connections <- new (PyDict dict [(PStr "dependencies", dependencies);
                                   (PStr "services", services)]) ;;
  e <- new (PyDict dict
              [(PStr "id", id); (PStr "name", name); (PStr "path", path);
               (PStr "web_url", web_url); (PStr "technologies", repo_techs);
               (PStr "apis", PInt n_apis);
               (PStr "documentation", documentation);
               (PStr "connections", connections)]) ;;
  append repos_summary e.

(** Lines 22-36: the report of an empty list. *)
Definition empty_report : M PV :=
  top <- new (PyDict dict []) ;;
  summary <- new (PyDict dict
                    [(PStr "total_repositories", PInt 0);
                     (PStr "scanned_repositories", PInt 0);
                     (PStr "total_technologies", PInt 0);
                     (PStr "top_technologies", top)]) ;;
  repositories <- new (PyList []) ;;
  technologies <- new (PyDict dict []) ;;
  api_connections <- new (PyList []) ;;
  service_dependencies <- new (PyList []) ;;
  connections <- new (PyDict dict
                        [(PStr "api_connections", api_connections);
                         (PStr "service_dependencies", service_dependencies)]) ;;
  documentation <- new (PyDict dict []) ;;
  new (PyDict dict
         [(PStr "summary", summary); (PStr "repositories", repositories);
          (PStr "technologies", technologies);
          (PStr "connections", connections);
          (PStr "documentation", documentation)]).

(** Lines 115-140: what follows the loop over the records. *)
Definition build_report
    (repositories : PV) (total_repos scanned_repos : Z)
    (all_technologies technology_counts api_connections service_dependencies
     repos_summary : PV) : M PV :=
  tech_summary <- new (PyDict dict []) ;;
  categories <- items all_technologies ;;
  _ <- for_each categories (fun item =>
         s <- sorted_by_count (snd item) ;;
         set_item tech_summary (fst item) s) ;;
  top_techs <- most_common 10 technology_counts ;;
  top_techs_dict <-
    new (PyDict dict
           (fold_left (fun d item => store_key (fst item) (snd item) d)
                      top_techs [])) ;;
  n_techs <- len technology_counts ;;
  summary <- new (PyDict dict
                    [(PStr "total_repositories", PInt total_repos);
                     (PStr "scanned_repositories", PInt scanned_repos);
                     (PStr "total_technologies", PInt n_techs);
                     (PStr "top_technologies", top_techs_dict)]) ;;
  connections <- new (PyDict dict
                        [(PStr "api_connections", api_connections);
                         (PStr "service_dependencies", service_dependencies)]) ;;
  documentation <- _generate_documentation_summary repositories ;;
  new (PyDict dict
         [(PStr "summary", summary); (PStr "repositories", repos_summary);
          (PStr "technologies", tech_summary);
          (PStr "connections", connections);
          (PStr "documentation", documentation)]).

Definition generate_summary (repositories : PV) : M PV :=
  any <- truth repositories ;;
  if negb any then empty_report else
  total_repos <- len repositories ;;
  repos <- iterate repositories ;;
  scanned_repos <- count_scanned repos 0 ;;
  all_technologies <- new (PyDict defaultdict []) ;;
  technology_counts <- new (PyDict Counter []) ;;
  api_connections <- new (PyList []) ;;
  service_dependencies <- new (PyList []) ;;
  repos_summary <- new (PyList []) ;;
  repos <- iterate repositories ;;
  _ <- for_each repos
         (summarize_repository all_technologies technology_counts
            api_connections service_dependencies repos_summary) ;;
  build_report repositories total_repos scanned_repos all_technologies
    technology_counts api_connections service_dependencies repos_summary.

(** *** What a call leaves untouched: the vocabulary of the proofs *)

(** The records [Repository.__init__] builds hold lists and plain
    dictionaries: no object that exists before the call is a
    [defaultdict]. *)
Definition is_defaultdict (o : Obj) : bool :=
  match o with PyDict defaultdict _ => true | _ => false end.

Definition no_defaultdict (g : list Obj) : bool :=
  forallb (fun o => negb (is_defaultdict o)) g.

(** [wp g c Q l]: run in the frame with globals [g] and locals [l], the
    computation [c] leaves the globals as they are, whether it returns or
    raises, and when it returns [a] with locals [l'], then [Q a l']. *)
Definition wp {A} (g : list Obj) (c : M A) (Q : A -> list Obj -> Prop)
    (l : list Obj) : Prop :=
  globals (fst (c {| globals := g; locals := l |})) = g /\
  match snd (c {| globals := g; locals := l |}) with
  | inr a => Q a (locals (fst (c {| globals := g; locals := l |})))
  | inl _ => True
  end.

(** A computation that writes nothing at all. *)
Definition reads {A} (c : M A) : Prop := forall s, fst (c s) = s.

(** A computation that writes to no global, whatever the locals. *)
Definition safe {A} (g : list Obj) (c : M A) : Prop :=
  forall l, wp g c (fun _ _ => True) l.

Inductive Shape : Type :=
  | list_shape
  | dict_shape (k : Kind)
  | instance_shape.

Definition shape (o : Obj) : Shape :=
  match o with
  | PyList _ => list_shape
  | PyDict k _ => dict_shape k
  | Instance _ => instance_shape
  end.

(** The locals grow and an object keeps its class. *)
Definition extends (l l' : list Obj) : Prop :=
  forall n o, l !! n = Some o ->
    exists o', l' !! n = Some o' /\ shape o' = shape o.

Definition kind_at (l : list Obj) (n : nat) (k : Kind) : Prop :=
  shape <$> l !! n = Some (dict_shape k).

(** A reference to a plain dictionary of the frame. *)
Definition plain_dict_ref (l : list Obj) (v : PV) : Prop :=
  exists n, v = PRef (L n) /\ kind_at l n dict.

(** A reference to a list of the frame that holds such references only:
    what [all_technologies] holds for a category. *)
Definition entry_list (l : list Obj) (v : PV) : Prop :=
  exists f items,
    v = PRef (L f) /\ l !! f = Some (PyList items) /\
    Forall (plain_dict_ref l) items.

Definition category_lists (l : list Obj) : Prop :=
  forall n entries,
    l !! n = Some (PyDict defaultdict entries) ->
    Forall (fun kv => entry_list l (snd kv)) entries.

(** The list [repo_techs] of the record at hand, at [r], is none of the
    lists a [defaultdict] holds. *)
Definition apart (r : nat) (l : list Obj) : Prop :=
  (r < length l)%nat /\
  forall n entries,
    l !! n = Some (PyDict defaultdict entries) ->
    Forall (fun kv => snd kv <> PRef (L r)) entries.

(** The invariant of the loop over the records: [a] is
    [all_technologies], [b] is [technology_counts], [r] is [repo_techs]
    while a record is being processed. *)
Definition tracking (a b : nat) (r : option nat) (l : list Obj) : Prop :=
  kind_at l a defaultdict /\ kind_at l b Counter /\ category_lists l /\
  match r with Some r => apart r l | None => True end.

(** The invariant of [_generate_documentation_summary]: [docs_summary], at
    [ds], is a plain dictionary whose two lists are lists of the frame. *)
Definition documenting (ds : nat) (l : list Obj) : Prop :=
  exists entries l1 l2,
    l !! ds = Some (PyDict dict entries) /\
    lookup_key (PStr "setup_instructions") entries = Some (PRef (L l1)) /\
    lookup_key (PStr "architecture_overview") entries = Some (PRef (L l2)).

(** *** Objects to run the builder on *)

(** One scanned record, [shop], as [Repository.__init__] and the analyzers
    leave it: Flask observed in the backend, a link to [billing], a README
    and one page of setup instructions. Object 0 is the list handed to
    [generate_summary]. *)
Definition shop_objects : list Obj :=
  [ PyList [PRef (G 1)];
    Instance [("id", PInt 7); ("name", PStr "shop");
              ("path", PStr "acme/shop");
              ("web_url", PStr "https://gitlab.example/acme/shop");
              ("scanned", PBool true);
              ("technologies", PRef (G 2)); ("apis", PRef (G 6));
              ("dependencies", PRef (G 7)); ("documentation", PRef (G 11))];
    PyDict dict [(PStr "frontend", PRef (G 3)); (PStr "backend", PRef (G 4))];
    PyList [];
    PyList [PRef (G 5)];
    PyDict dict [(PStr "name", PStr "Flask"); (PStr "confidence", PFloat 0.9)];
    PyList [];
    PyDict dict [(PStr "imports", PRef (G 8)); (PStr "services", PRef (G 9));
                 (PStr "repositories", PRef (G 10))];
    PyList [];
    PyList [];
    PyList [PStr "billing"];
    PyDict dict [(PStr "readme", PStr "README.md");
                 (PStr "api_docs", PRef (G 12));
                 (PStr "setup_instructions", PRef (G 13));
                 (PStr "architecture", PRef (G 15))];
    PyList [];
    PyList [PRef (G 14)];
    PyDict dict [(PStr "path", PStr "docs/setup.md");
                 (PStr "type", PStr "markdown")];
    PyList [] ].

(** The same objects, but the [documentation] of the record has been
    replaced by a [defaultdict(list)] that lacks the key [readme]. *)
Definition shop_objects_defaultdict : list Obj :=
  <[11%nat := PyDict defaultdict
                [(PStr "api_docs", PRef (G 12));
                 (PStr "setup_instructions", PRef (G 13));
                 (PStr "architecture", PRef (G 15))]]> shop_objects.

End Objects.

(** ** core/utils.py: list and text helpers *)

Module Utils.

(** [range(i, stop, step)] for a positive [step]; [fuel] bounds the number of
    values, [stop] of them are always enough. *)
Fixpoint range_from (fuel i stop step : nat) : list nat :=
  match fuel with
  | O => []
  | S f =>
      if (i <? stop)%nat then i :: range_from f (i + step) stop step else []
  end.

(** [chunked_list]: [items[i:i + chunk_size]] for [i] in
    [range(0, len(items), chunk_size)]. A step of zero makes [range] raise, a
    negative step makes it empty. *)
Definition chunked_list {A} (items : list A) (chunk_size : Z)
    : Exc (list (list A)) :=
  if (chunk_size =? 0)%Z then raise (ValueError "range() arg 3 must not be zero")
  else if (chunk_size <? 0)%Z then ok []
  else
    let c := Z.to_nat chunk_size in
    ok (map (fun i => take c (drop i items))
            (range_from (length items) 0 (length items) c)).

(** [find_pattern_in_content]. *)
Definition find_pattern_in_content (content : string) (patterns : list string)
    (case_sensitive : bool) : bool :=
  let content := if case_sensitive then content else PyStr.lower content in
  let patterns := if case_sensitive then patterns else map PyStr.lower patterns in
  existsb (fun pattern => PyStr.contains pattern content) patterns.

End Utils.

(** ** core/scanner.py: loading the analyzers *)

Module Loader.

(** The analyzer objects [_load_analyzers] creates. *)
Inductive AnalyzerObject : Type :=
  | ConnectionAnalyzer
  | DependencyAnalyzer
  | DocumentationAnalyzer.

(** [Config.get(section, key)]: the value, [None] when it is not set. *)
Definition setting (self : Config.t) (section key : string) : option Config.CVal :=
  default ∅ (Config.config self !! section) !! key.

(** The truth value of a setting. *)
Definition truthy (v : option Config.CVal) : bool :=
  match v with
  | None => false
  | Some (Config.CInt z) => negb (z =? 0)%Z
  | Some (Config.CBool b) => b
  | Some (Config.CStr s) => negb (String.eqb s "")
  | Some (Config.CStrs l) => match l with [] => false | _ => true end
  | Some (Config.CPatterns l) => match l with [] => false | _ => true end
  end.

(** The detector objects [_load_detectors] creates; a [CustomDetector]
    carries the name, the category and the two patterns it was built with. *)
Inductive DetectorObject : Type :=
  | FrontendDetector
  | BackendDetector
  | DatabaseDetector
  | InfrastructureDetector
  | CICDDetector
  | CustomDetector (name category file_pattern content_pattern : string).

Definition custom_detector (pattern : gmap string string) : DetectorObject :=
  CustomDetector (default "Custom" (pattern !! "name"))
                 (default "custom" (pattern !! "category"))
                 (default "*" (pattern !! "file_pattern"))
                 (default "" (pattern !! "content_pattern")).

(** [GitLabScanner._load_detectors]; a value of [custom_patterns] that is no
    list of patterns is outside the model and loads nothing. *)
Definition _load_detectors (config : Config.t) : list DetectorObject :=
  (if truthy (setting config "detectors" "frontend")
   then [FrontendDetector] else [])
  ++ (if truthy (setting config "detectors" "backend")
      then [BackendDetector] else [])
  ++ (if truthy (setting config "detectors" "database")
      then [DatabaseDetector] else [])
  ++ (if truthy (setting config "detectors" "infrastructure")
      then [InfrastructureDetector] else [])
  ++ (if truthy (setting config "detectors" "cicd")
      then [CICDDetector] else [])
  ++ match Config.get config "detectors" "custom_patterns" (Config.CPatterns []) with
     | Config.CPatterns patterns => map custom_detector patterns
     | _ => []
     end.

(** [GitLabScanner._load_analyzers]. *)
Definition _load_analyzers (config : Config.t) : list AnalyzerObject :=
  (if truthy (setting config "analyzers" "connections")
   then [ConnectionAnalyzer] else [])
  ++ (if truthy (setting config "analyzers" "dependencies")
      then [DependencyAnalyzer] else [])
  ++ (if truthy (setting config "analyzers" "documentation")
      then [DocumentationAnalyzer] else []).

(** [analyzer.analyze(repositories)] for each class. [ConnectionAnalyzer]
    catches what its file accesses raise; [DependencyAnalyzer] defines no
    method of that name, the attribute lookup raises; [DocumentationAnalyzer]
    lives in a file of its own and is a parameter. *)
Definition analyze_method (finditer : Connection.Pattern -> string -> list Connection.Match)
    (documentation_analyze : Scanner.Analyzer) (a : AnalyzerObject)
    : Scanner.Analyzer :=
  match a with
  | ConnectionAnalyzer =>
      fun repositories => ok (Connection.analyze finditer repositories)
  | DependencyAnalyzer =>
      fun _ => raise (OtherError
        "AttributeError: 'DependencyAnalyzer' object has no attribute 'analyze'")
  | DocumentationAnalyzer => documentation_analyze
  end.

(** [GitLabScanner.__init__]: the scanner for a GitLab instance, seen through
    what it answers, and a configuration. The [detect] methods of the
    detector classes are code of their own and a parameter, as is the time a
    scan takes. *)
Definition new_scanner (groups_get : Exc Scanner.Group)
    (projects_get : Z -> Exc Project) (scan_seconds : Scanner.Handle -> Q)
    (detect_method : DetectorObject -> Scanner.Detector)
    (finditer : Connection.Pattern -> string -> list Connection.Match)
    (documentation_analyze : Scanner.Analyzer)
    (config : Config.t) : Scanner.GitLabScanner := {|
  Scanner.groups_get := groups_get;
  Scanner.projects_get := projects_get;
  Scanner.config := config;
  Scanner.detectors := map detect_method (_load_detectors config);
  Scanner.analyzers :=
    map (analyze_method finditer documentation_analyze) (_load_analyzers config);
  Scanner.scan_seconds := scan_seconds
|}.

End Loader.

(** ** analyzers/dependency.py: requirements and tallies *)

Module Manifest.
Import Dependency.

(** The class [[a-zA-Z0-9_.-]] of the requirements pattern. *)
Definition name_char (c : ascii) : bool :=
  let n := nat_of_ascii c in
  (((97 <=? n) && (n <=? 122)) || ((65 <=? n) && (n <=? 90))
   || ((48 <=? n) && (n <=? 57))
   || Ascii.eqb c "_" || Ascii.eqb c "." || Ascii.eqb c "-")%bool%nat.

(** The class [[<>=!~]]. *)
Definition operator_char (c : ascii) : bool :=
  (Ascii.eqb c "<" || Ascii.eqb c ">" || Ascii.eqb c "=" || Ascii.eqb c "!"
   || Ascii.eqb c "~")%bool.

Definition newline : ascii := "010"%char.

(** The longest prefix of characters of a class, and what follows. *)
Fixpoint span (p : ascii -> bool) (s : string) : string * string :=
  match s with
  | EmptyString => (EmptyString, EmptyString)
  | String c r =>
      if p c then let '(a, b) := span p r in (String c a, b)
      else (EmptyString, s)
  end.

(** The text a final [$] closes: the line without one newline at its end. *)
Fixpoint chomp (s : string) : string :=
  match s with
  | EmptyString => EmptyString
  | String c r =>
      match r with
      | EmptyString => if Ascii.eqb c newline then EmptyString else s
      | _ => String c (chomp r)
      end
  end.

(** [re.match(r'^([a-zA-Z0-9_.-]+)([<>=!~].+)?$', line)]: groups 1 and 2. The
    two classes are disjoint, so the name is the longest run of name
    characters, and what follows is nothing or an operator character and at
    least one more character, none a newline. *)
Definition match_requirement (line : string) : option (string * option string) :=
  let '(name, rest) := span name_char (chomp line) in
  match name, rest with
  | EmptyString, _ => None
  | _, EmptyString => Some (name, None)
  | _, String c tail =>
      match tail with
      | EmptyString => None
      | _ =>
          if (operator_char c
              && Connection.all_chars (fun x => negb (Ascii.eqb x newline)) tail)%bool
          then Some (name, Some rest)
          else None
      end
  end.

(** The body of the loop over a [requirements.txt] after
    [line = line.strip()]. *)
Definition requirement_of_line (line : string) : option Dep :=
  if (negb (String.eqb line "") && negb (PyStr.startswith line "#"))%bool then
    match match_requirement line with
    | Some (name, version) =>
        Some {| dep_name := name;
                dep_version := default "Not specified" version;
                dep_type := "python" |}
    | None => None
    end
  else None.

(** The body of [for line in f] in the [requirements.txt] branch of
    [parse_dependencies]: the dependency appended for the line, if any. *)
Definition parse_requirement (line : string) : option Dep :=
  requirement_of_line (PyStr.strip line).

(** An entry of [result['dependency_files']]. *)
Record FileEntry : Type := {
  entry_path : string;
  entry_type : string;
  entry_dependencies : list Dep
}.

(** What [analyze_repository] builds from the dependency files:
    [dependency_files], [total_dependencies] and [dependency_types]. *)
Record Analysis : Type := {
  analysis_files : list FileEntry;
  total_dependencies : Z;
  dependency_types : ODict.t Z
}.

(** [os.path.basename] of a path with [/] as separator. *)
Definition basename (file_path : string) : string :=
  PyStr.last_part (PyStr.split "/" file_path).

(** The body of [for dep in dependencies]. *)
Definition count_dep (st : ODict.t Z * Z) (dep : Dep) : ODict.t Z * Z :=
  let '(types, total) := st in
  let types :=
    if ODict.mem (dep_type dep) types then types
    else ODict.set (dep_type dep) 0%Z types in
  (ODict.set (dep_type dep)
     (default 0%Z (ODict.get (dep_type dep) types) + 1)%Z types,
   (total + 1)%Z).

(** The body of [for file_path in dep_files], on the path of the file
    relative to the repository and what [parse_dependencies] returned for
    it. *)
Definition analyze_file (result : Analysis) (parsed : string * list Dep) : Analysis :=
  match snd parsed with
  | [] => result
  | deps =>
      let '(types, total) :=
        fold_left count_dep deps
                  (dependency_types result, total_dependencies result) in
      {| analysis_files :=
           analysis_files result ++
           [{| entry_path := fst parsed; entry_type := basename (fst parsed);
               entry_dependencies := deps |}];
         total_dependencies := total;
         dependency_types := types |}
  end.

(** The dependency part of [DependencyAnalyzer.analyze_repository]. *)
Definition analyze_repository (parsed : list (string * list Dep)) : Analysis :=
  fold_left analyze_file parsed
    {| analysis_files := []; total_dependencies := 0; dependency_types := [] |}.

(** The dependencies of a type among those parsed. *)
Definition with_type (ty : string) (dep : Dep) : bool :=
  String.eqb (dep_type dep) ty.

Definition of_type (ty : string) (parsed : list (string * list Dep)) : list Dep :=
  List.filter (with_type ty) (concat (map snd parsed)).

(** The count kept for a type after [l] more dependencies of that type, [o]
    being what the dictionary held for it before. *)
Definition tally (l : list Dep) (o : option Z) : option Z :=
  match l with
  | [] => o
  | _ => Some (default 0%Z o + Z.of_nat (length l))%Z
  end.

(** The entry [analyze_repository] appends for a file with dependencies. *)
Definition entry_of (parsed : string * list Dep) : FileEntry :=
  {| entry_path := fst parsed; entry_type := basename (fst parsed);
     entry_dependencies := snd parsed |}.

Definition has_dependencies (parsed : string * list Dep) : bool :=
  match snd parsed with [] => false | _ => true end.

End Manifest.

(** ** reporting/summary.py: service groups *)

Module ServiceGroups.

Definition service_suffixes : list string :=
  ["-api"; "-service"; "-backend"; "-server"; "-client"; "-core"].

(** [s[:n]]. *)
Fixpoint str_take (n : nat) (s : string) : string :=
  match n, s with
  | S k, String c r => String c (str_take k r)
  | _, _ => EmptyString
  end.

(** [extract_service_name], the helper of [_identify_service_groups]: the
    name without the first suffix of the list that it ends with, whatever the
    case. *)
Fixpoint extract_from (suffixes : list string) (name : string) : string :=
  match suffixes with
  | [] => name
  | suffix :: rest =>
      if PyStr.endswith (PyStr.lower name) suffix
      then str_take (String.length name - String.length suffix) name
      else extract_from rest name
  end.

Definition extract_service_name (name : string) : string :=
  extract_from service_suffixes name.

(** [service_groups[service_name].append(repo.name)] on a [defaultdict]. *)
Definition group_add (groups : ODict.t (list string)) (repo : Repository.t)
    : ODict.t (list string) :=
  if negb (Repository.scanned repo) then groups
  else
    let service_name := extract_service_name (Repository.name repo) in
    ODict.set service_name
      (default [] (ODict.get service_name groups) ++ [Repository.name repo])
      groups.

(** [_identify_service_groups]. *)
Definition _identify_service_groups (repositories : list Repository.t)
    : ODict.t (list string) :=
  List.filter (fun item => (1 <? length (snd item))%nat)
    (fold_left group_add repositories []).

(** The names of the scanned repositories whose service name is [k], in the
    order of the list. *)
Definition members_of (k : string) (repositories : list Repository.t)
    : list string :=
  map Repository.name
    (List.filter
       (fun repo =>
          (Repository.scanned repo
           && String.eqb (extract_service_name (Repository.name repo)) k)%bool)
       repositories).

(** What a key holds after [l] more names were appended under it. *)
Definition extended (l : list string) (o : option (list string))
    : option (list string) :=
  match l with
  | [] => o
  | _ => Some (default [] o ++ l)
  end.

End ServiceGroups.

(** ** Concrete inputs used by the examples *)

Module Examples.

(** A project whose tree listing answers [tree] and whose files answer
    [files]. *)
Definition demo_project (i : Z) (n : string) (tree : Exc (list string))
    (files : string -> Exc string) : Project := {|
  project_id := i;
  project_name := n;
  path_with_namespace := "acme/" +:+ n;
  project_default_branch := Some "main";
  project_web_url := "https://gitlab.example/acme/" +:+ n;
  repository_tree := fun _ => tree;
  files_get := fun file_path _ => files file_path
|}.

Definition no_files (file_path : string) : Exc string :=
  raise (GitlabGetError "404 File Not Found").

Definition handles (n : nat) : list Scanner.Handle :=
  map (fun i => {| Scanner.handle_id := Z.of_nat i;
                   Scanner.handle_name := "repo" |})
      (seq 1 n).

(** Ten handles behind a group; the tree listing of project 4 raises a 404,
    every other tree is empty. Each scan takes [seconds]. *)
Definition ten_projects (cfg : Config.t) (seconds : Q) : Scanner.GitLabScanner := {|
  Scanner.groups_get :=
    ok {| Scanner.group_name := "acme"; Scanner.projects_list := ok (handles 10) |};
  Scanner.projects_get := fun i =>
    ok (demo_project i "repo"
          (if (i =? 4)%Z then raise (GitlabGetError "404 Tree Not Found")
           else ok [])
          no_files);
  Scanner.config := cfg;
  Scanner.detectors := [];
  Scanner.analyzers := [];
  Scanner.scan_seconds := fun _ => seconds
|}.

(** The default configuration with [section.key] read from a file. *)
Definition configured (section key : string) (v : Config.CVal) : Config.t :=
  Config.load_config {| Config.config := Config.DEFAULT_CONFIG |}
    {[ section := {[ key := v ]} ]}.

(** Two detections of Flask in the backend category, and a third that is more
    confident than the first. *)
Definition flask_first : Repository.TechCall := {|
  Repository.tc_category := "backend"; Repository.tc_name := "Flask";
  Repository.tc_confidence := 8 # 10; Repository.tc_version := Some "1.0";
  Repository.tc_path := Some "requirements.txt"; Repository.tc_details := None
|}.

Definition flask_equal : Repository.TechCall := {|
  Repository.tc_category := "backend"; Repository.tc_name := "Flask";
  Repository.tc_confidence := 8 # 10; Repository.tc_version := Some "2.0";
  Repository.tc_path := Some "app.py";
  Repository.tc_details := Some {[ "matches" := VStrs ["flask==2.0"] ]}
|}.

Definition flask_higher : Repository.TechCall := {|
  Repository.tc_category := "backend"; Repository.tc_name := "Flask";
  Repository.tc_confidence := 9 # 10; Repository.tc_version := Some "2.0";
  Repository.tc_path := Some "app.py";
  Repository.tc_details := Some {[ "matches" := VStrs ["flask==2.0"] ]}
|}.

Definition shop : Project := demo_project 1 "shop" (ok []) no_files.

(** Repository information with the given manifest dependency names. *)
Definition depends_on (names : list string) : Dependency.RepoInfo := {|
  Dependency.dependency_files :=
    match names with
    | [] => []
    | _ =>
        [{| Dependency.dep_file_path := "requirements.txt";
            Dependency.dependencies :=
              map (fun n => {| Dependency.dep_name := n;
                               Dependency.dep_version := "Not specified";
                               Dependency.dep_type := "python" |}) names |}]
    end
|}.

(** The scenario of the specification. *)
Definition billing_repos : ODict.t Dependency.RepoInfo :=
  [("billing-service", depends_on ["acme-billing-client"]);
   ("billing", depends_on [])].

(** Two repositories whose candidate keys collide: [billing-api] is the
    simple name of the first and a variant of the second. *)
Definition colliding_repos : ODict.t Dependency.RepoInfo :=
  [("billing-api", depends_on []);
   ("billing", depends_on []);
   ("shop", depends_on ["billing-api"])].

(** A record as the scanner leaves it: scanned, with the files analysed. *)
Definition scanned_repo (p : Project) (files : list string) : Repository.t :=
  Repository.with_scanned
    (Repository.with_files (Repository.init p) files
       {| Repository.total_files := Z.of_nat (length files);
          Repository.stats_analyzed_files := Z.of_nat (length files) |})
    true.

(** One file that declares an endpoint and one that calls it. *)
Definition server_source : string := "app.post('/api/orders', create)".
Definition client_source : string := "fetch('https://x/api/orders')".

Definition one_file (file_path content : string) (asked : string) : Exc string :=
  if String.eqb asked file_path then ok content
  else raise (GitlabGetError "404 File Not Found").

(** What [re.finditer] finds in the two sources: the Express pattern and the
    generic path pattern in the server, the fetch pattern and the generic URL
    pattern in the client, and in the client the URL pattern of every name
    that occurs in the address. *)
Definition demo_finditer (pattern : Connection.Pattern) (content : string)
    : list Connection.Match :=
  if String.eqb content server_source then
    match pattern with
    | Connection.ApiExpress =>
        [{| Connection.group0 := "app.post('/api/orders'";
            Connection.groups := [Some "post"; Some "/api/orders"] |}]
    | Connection.ApiGeneric =>
        [{| Connection.group0 := "'/api/orders'";
            Connection.groups := [Some "/api/orders"] |}]
    | _ => []
    end
  else if String.eqb content client_source then
    match pattern with
    | Connection.ClientFetch =>
        [{| Connection.group0 := "fetch('https://x/api/orders'";
            Connection.groups := [Some "https://x/api/orders"] |}]
    | Connection.ApiGenericUrl =>
        [{| Connection.group0 := "'https://x/api/orders'";
            Connection.groups := [Some "https://x/api/orders"] |}]
    | Connection.UrlNaming n =>
        if PyStr.contains n "x/api/orders"
        then [{| Connection.group0 := "'https://x/api/orders'";
                 Connection.groups := [] |}]
        else []
    | _ => []
    end
  else [].

(** The scenario of the specification: [orders-api] declares the endpoint,
    [checkout-service] calls it. *)
Definition orders_and_checkout : list Repository.t :=
  [scanned_repo (demo_project 1 "orders-api" (ok ["server.js"])
                   (one_file "server.js" server_source)) ["server.js"];
   scanned_repo (demo_project 2 "checkout-service" (ok ["client.js"])
                   (one_file "client.js" client_source)) ["client.js"]].

(** The same two repositories, both named [backend], in two subgroups. *)
Definition two_backends : list Repository.t :=
  [scanned_repo (demo_project 1 "backend" (ok ["server.js"])
                   (one_file "server.js" server_source)) ["server.js"];
   scanned_repo (demo_project 2 "backend" (ok ["client.js"])
                   (one_file "client.js" client_source)) ["client.js"]].

(** A group without projects. *)
Definition empty_group (cfg : Config.t) : Scanner.GitLabScanner := {|
  Scanner.groups_get :=
    ok {| Scanner.group_name := "acme"; Scanner.projects_list := ok [] |};
  Scanner.projects_get := fun i => raise (GitlabGetError "404 Project Not Found");
  Scanner.config := cfg;
  Scanner.detectors := [];
  Scanner.analyzers := [];
  Scanner.scan_seconds := fun _ => 1%Q
|}.

(** The ten projects scanned with the analyzers the configuration asks for. *)
Definition loaded_scanner (cfg : Config.t) : Scanner.GitLabScanner := {|
  Scanner.groups_get := Scanner.groups_get (ten_projects cfg 1);
  Scanner.projects_get := Scanner.projects_get (ten_projects cfg 1);
  Scanner.config := cfg;
  Scanner.detectors := [];
  Scanner.analyzers :=
    map (Loader.analyze_method demo_finditer (fun repositories => ok repositories))
        (Loader._load_analyzers cfg);
  Scanner.scan_seconds := fun _ => 1%Q
|}.

(** A detector that records every file it sees as an endpoint source. *)
Definition noting_detector : Scanner.Detector :=
  fun repo content file_path =>
    (Repository.add_api_endpoint file_path "GET" file_path None repo, ok tt).

(** A project with three files, one of which cannot be fetched, scanned by
    the default configuration. *)
Definition three_files : Project :=
  demo_project 7 "mixed" (ok ["app.py"; "logo.png"; "gone.js"])
    (one_file "app.py" "print('hello')").

Definition noting_scanner : Scanner.GitLabScanner := {|
  Scanner.groups_get :=
    ok {| Scanner.group_name := "acme"; Scanner.projects_list := ok (handles 1) |};
  Scanner.projects_get := fun i => ok three_files;
  Scanner.config := {| Config.config := Config.DEFAULT_CONFIG |};
  Scanner.detectors := [noting_detector];
  Scanner.analyzers := [];
  Scanner.scan_seconds := fun _ => 1%Q
|}.

(** Two scanned records in which Flask was detected. *)
Definition flask_repo (p : Project) : Repository.t :=
  Repository.calls [flask_first] (scanned_repo p []).

Definition flask_twice : Summary.Heap :=
  [flask_repo shop; flask_repo (demo_project 2 "billing" (ok []) no_files)].

(** A scanned record with a dependency, a record that was not scanned and a
    scanned record without dependencies. *)
Definition mixed_heap : Summary.Heap :=
  [Repository.add_dependency "repositories" "billing" (scanned_repo shop []);
   Repository.init (demo_project 2 "billing" (ok []) no_files);
   flask_repo (demo_project 3 "web" (ok []) no_files)].

(** A scanned record with an observation that lost its name. *)
Definition nameless_heap : Summary.Heap :=
  [Repository.with_technologies (scanned_repo shop [])
     [("backend", [{[ "confidence" := VNum 1 ]}])]].

(** The ten projects behind a scanner built as [GitLabScanner.__init__]
    builds it: detectors and analyzers are those the configuration loads. *)
Definition built_scanner (cfg : Config.t) (seconds : Q) : Scanner.GitLabScanner :=
  Loader.new_scanner
    (ok {| Scanner.group_name := "acme"; Scanner.projects_list := ok (handles 10) |})
    (fun i =>
       ok (demo_project i "repo"
             (if (i =? 4)%Z then raise (GitlabGetError "404 Tree Not Found")
              else ok [])
             no_files))
    (fun _ => seconds)
    (fun _ => noting_detector)
    demo_finditer
    (fun repositories => ok repositories)
    cfg.

(** A configuration that loads the connection analyzer only. *)
Definition connections_only (cfg : Config.t) : Config.t :=
  Config.set (Config.set cfg "analyzers" "dependencies" (Config.CBool false))
             "analyzers" "documentation" (Config.CBool false).

End Examples.

(** * Properties *)

(** ** Scan orchestrator *)

Module ScannerFacts.
Import Scanner Examples.

(** The decorated call hands over the body's answer when the scan stays
    within the thirty seconds of the decorator. *)
Lemma scan_project_in_time self project t :
  Qgtb (scan_seconds self project) (inject_Z 30) = false ->
  _scan_project self project t = ok (scan_project_body self project t).
Proof. intros H. unfold _scan_project, timeout. now rewrite H. Qed.

Lemma scan_project_late self project t :
  Qgtb (scan_seconds self project) (inject_Z 30) = true ->
  raised (_scan_project self project t) = true.
Proof. intros H. unfold _scan_project, timeout. now rewrite H. Qed.

(** The argument [timeout_seconds] has no part in the answer. *)
Lemma scan_project_ignores_timeout_seconds self project t1 t2 :
  _scan_project self project t1 = _scan_project self project t2.
Proof. reflexivity. Qed.

Lemma collect_from_app self t projects acc :
  fold_left
    (fun repositories project =>
       match _scan_project self project t with
       | inr (Some repo) => repositories ++ [repo]
       | inr None => repositories
       | inl _ => repositories
       end) projects acc
  = acc ++ collect self t projects.
Proof.
  unfold collect. revert acc.
  induction projects as [|p ps IH] using rev_ind; intros acc.
  - simpl. now rewrite app_nil_r.
  - rewrite !fold_left_app. simpl. rewrite IH.
    destruct (_scan_project self p t) as [e|[r|]]; simpl;
      rewrite ?app_nil_r, ?app_assoc; reflexivity.
Qed.

Lemma collect_cons self t p ps :
  collect self t (p :: ps) =
  match _scan_project self p t with
  | inr (Some repo) => [repo]
  | _ => []
  end ++ collect self t ps.
Proof.
  unfold collect at 1. simpl. rewrite collect_from_app.
  destruct (_scan_project self p t) as [e|[r|]]; reflexivity.
Qed.

Lemma completes_spec self t p :
  completes self p =
  match _scan_project self p t with inr (Some _) => true | _ => false end.
Proof.
  unfold completes, _scan_project, timeout, scan_project_body.
  destruct (Qgtb (scan_seconds self p) (inject_Z 30)); simpl; [reflexivity|].
  destruct (projects_get self (handle_id p)); reflexivity.
Qed.

Lemma collect_length self t projects :
  length (collect self t projects) = length (filter (completes self) projects).
Proof.
  induction projects as [|p ps IH]; [reflexivity|].
  rewrite collect_cons, length_app, IH, filter_cons.
  destruct (decide (completes self p)) as [Hd|Hd];
    rewrite (completes_spec self t) in Hd;
    destruct (_scan_project self p t) as [e|[r|]]; simpl in *;
    try reflexivity; exfalso; auto.
Qed.

Lemma scan_repository_files_tree_error self repo e :
  repository_tree (Repository.project repo) (Repository.default_branch repo) = inl e ->
  _scan_repository_files self repo = repo.
Proof. intros H. unfold _scan_repository_files. now rewrite H. Qed.

Lemma collect_elem_of self t projects r :
  r ∈ collect self t projects <->
  exists project,
    project ∈ projects /\ _scan_project self project t = inr (Some r).
Proof.
  induction projects as [|p ps IH].
  - split; [intros H; inversion H|]. intros (project & H & _). inversion H.
  - rewrite collect_cons, elem_of_app, IH. split.
    + intros [H|(project & Hin & Hrun)].
      * exists p. split; [apply elem_of_cons; now left|].
        destruct (_scan_project self p t) as [e|[r'|]];
          [inversion H| |inversion H].
        apply list_elem_of_singleton in H. now subst.
      * exists project. split; [apply elem_of_cons; now right|exact Hrun].
    + intros (project & Hin & Hrun).
      apply elem_of_cons in Hin as [->|Hin].
      * left. rewrite Hrun. apply list_elem_of_singleton. reflexivity.
      * right. eauto.
Qed.

(** What the decorated call answers, case by case. *)
Lemma scan_project_answers self project t r :
  _scan_project self project t = inr (Some r) <->
  Qgtb (scan_seconds self project) (inject_Z 30) = false /\
  exists full,
    projects_get self (handle_id project) = inr full /\
    r = Repository.with_scanned
          (_scan_repository_files self (Repository.init full)) true.
Proof.
  unfold _scan_project, timeout, scan_project_body, ok.
  destruct (Qgtb (scan_seconds self project) (inject_Z 30)).
  - split; [discriminate|]. intros [H _]. discriminate.
  - destruct (projects_get self (handle_id project)) as [e|full].
    + split; [discriminate|]. intros (_ & full & H & _). discriminate.
    + split.
      * intros [= <-]. split; [reflexivity|]. now exists full.
      * intros (_ & full' & [= <-] & ->). reflexivity.
Qed.

(** C1, as stated, fails: ten handles, pool size three, the tree listing of
    project 4 raises a 404 and nothing else fails, the scanner being built as
    the constructor builds it from the configuration. The scanning loop keeps
    ten records, not nine, and the record of project 4 is among them, marked
    scanned, without files. With the connection analyzer alone loaded, the
    call as a whole returns these ten records. *)
Lemma tree_listing_failure_is_still_a_record :
  let cfg := configured "scanning" "concurrent_scans" (Config.CInt 3) in
  let self := built_scanner cfg 1 in
  (forall i, exists p, projects_get self i = inr p /\
     (raised (repository_tree p "main") = true <-> i = 4%Z)) /\
  (exists repositories,
     scan_projects self (handles 10) = ok repositories /\
     length repositories = 10%nat /\
     map (fun r => (Repository.id r, Repository.scanned r,
                    Repository.analyzed_files r))
         (filter (fun r => (Repository.id r =? 4)%Z) repositories)
     = [(4%Z, true, [])]) /\
  (exists repositories,
     scan (built_scanner (connections_only cfg) 1) None = ok repositories /\
     length repositories = 10%nat /\
     map (fun r => (Repository.id r, Repository.scanned r,
                    Repository.analyzed_files r))
         (filter (fun r => (Repository.id r =? 4)%Z) repositories)
     = [(4%Z, true, [])]).
Proof.
  split; [|split].
  - intros i. eexists. split; [reflexivity|]. simpl.
    destruct (Z.eqb_spec i 4); simpl; split; intros; congruence.
  - exists (match scan_projects
                    (built_scanner
                       (configured "scanning" "concurrent_scans" (Config.CInt 3)) 1)
                    (handles 10) with
            | inr l => l
            | inl _ => []
            end).
    split; [vm_compute; reflexivity|]. split; vm_compute; reflexivity.
  - exists (match scan
                    (built_scanner
                       (connections_only
                          (configured "scanning" "concurrent_scans" (Config.CInt 3))) 1)
                    None with
            | inr l => l
            | inl _ => []
            end).
    split; [vm_compute; reflexivity|]. split; vm_compute; reflexivity.
Qed.

(** C1 (amended). A handle whose project lookup raises contributes no record.
    A handle whose tree listing raises has no file analysed, yet its record,
    marked scanned and without files, is among the records kept, because
    [_scan_repository_files] catches the error itself. For a positive pool
    size the scanning loop returns without raising, and the records it keeps
    are exactly those of the handles whose lookup answered and whose scan
    stayed within the thirty seconds of the decorator; there is no list of
    failures. *)
Theorem scan_projects_contains_failures self projects n :
  Config.get (config self) "scanning" "concurrent_scans" (Config.CInt 5)
    = Config.CInt n ->
  (0 < n)%Z ->
  projects <> [] ->
  exists repositories,
    scan_projects self projects = ok repositories /\
    (forall r,
       r ∈ repositories <->
       exists project full,
         project ∈ projects /\
         Qgtb (scan_seconds self project) (inject_Z 30) = false /\
         projects_get self (handle_id project) = inr full /\
         r = Repository.with_scanned
               (_scan_repository_files self (Repository.init full)) true) /\
    length repositories = length (filter (completes self) projects) /\
    (forall project full e,
       project ∈ projects ->
       Qgtb (scan_seconds self project) (inject_Z 30) = false ->
       projects_get self (handle_id project) = inr full ->
       repository_tree full (Repository.default_branch (Repository.init full))
         = inl e ->
       exists r,
         r ∈ repositories /\
         r = Repository.with_scanned (Repository.init full) true /\
         Repository.scanned r = true /\
         Repository.analyzed_files r = []).
Proof.
  intros Hcfg Hn Hne.
  exists (collect self (timeout_seconds self) projects).
  assert (Hmem : forall r,
            r ∈ collect self (timeout_seconds self) projects <->
            exists project full,
              project ∈ projects /\
              Qgtb (scan_seconds self project) (inject_Z 30) = false /\
              projects_get self (handle_id project) = inr full /\
              r = Repository.with_scanned
                    (_scan_repository_files self (Repository.init full)) true).
  { intros r. rewrite collect_elem_of. split.
    - intros (project & Hin & Hrun).
      apply scan_project_answers in Hrun as (Htime & full & Hfull & ->).
      exists project, full. auto.
    - intros (project & full & Hin & Htime & Hfull & ->).
      exists project. split; [exact Hin|].
      apply scan_project_answers. split; [exact Htime|]. now exists full. }
  split; [|split; [exact Hmem|split; [apply collect_length|]]].
  - unfold scan_projects, max_workers. rewrite Hcfg. unfold ok.
    destruct (Z.leb_spec (Z.min n (Z.of_nat (length projects))) 0) as [Hle|Hlt];
      [|reflexivity].
    destruct projects; [congruence|]. simpl length in Hle. lia.
  - intros project full e Hin Htime Hfull Htree.
    exists (Repository.with_scanned (Repository.init full) true).
    split; [|repeat split].
    apply Hmem. exists project, full. repeat split; auto.
    now rewrite (scan_repository_files_tree_error self _ e Htree).
Qed.

Lemma scan_projects_contains_failures_witness :
  let self :=
    built_scanner (configured "scanning" "concurrent_scans" (Config.CInt 3)) 1 in
  exists repositories,
    scan_projects self (handles 10) = ok repositories /\
    length repositories = 10%nat /\
    exists r,
      r ∈ repositories /\ Repository.id r = 4%Z /\
      Repository.scanned r = true /\ Repository.analyzed_files r = [].
Proof.
  intros self.
  destruct (scan_projects_contains_failures self (handles 10) 3)
    as (rs & Hrs & _ & Hlen & Hfail).
  - reflexivity.
  - lia.
  - discriminate.
  - exists rs. split; [exact Hrs|]. split; [rewrite Hlen; reflexivity|].
    destruct (Hfail {| handle_id := 4; handle_name := "repo" |}
                (demo_project 4 "repo"
                   (raise (GitlabGetError "404 Tree Not Found")) no_files)
                (GitlabGetError "404 Tree Not Found"))
      as (r & Hin & Hr & Hs & Hf).
    + vm_compute. do 3 apply list_elem_of_further. apply list_elem_of_here.
    + reflexivity.
    + reflexivity.
    + reflexivity.
    + exists r. split; [exact Hin|]. split; [now subst r|]. split; assumption.
Defined.

(** C2, at the failing input: [timeout_seconds] is configured as 10, every
    scan takes 20 seconds, and all ten records are returned. The decorator
    is applied with the constant 30 and the argument is never consulted. *)
Theorem scan_longer_than_timeout_seconds_is_kept :
  let self := ten_projects (configured "scanning" "timeout_seconds" (Config.CInt 10)) 20 in
  timeout_seconds self = Config.CInt 10 /\
  (forall project, Qgtb (scan_seconds self project) (inject_Z 10) = true) /\
  exists repositories,
    scan self None = ok repositories /\ length repositories = 10%nat.
Proof.
  split; [reflexivity|]. split; [intros; reflexivity|].
  eexists. split; [vm_compute; reflexivity|reflexivity].
Qed.

(** C4, as stated, fails: a configuration file that sets [concurrent_scans]
    to 50 and [timeout_seconds] to 5 is consumed as it is. *)
Lemma settings_from_file_are_not_clamped :
  let cfg :=
    Config.load_config {| Config.config := Config.DEFAULT_CONFIG |}
      {[ "scanning" := <["concurrent_scans" := Config.CInt 50]>
                       {[ "timeout_seconds" := Config.CInt 5 ]} ]} in
  let self := ten_projects cfg 1 in
  max_workers self (handles 100) = ok 50%Z /\
  ~ (1 <= 50 <= 20)%Z /\
  timeout_seconds self = Config.CInt 5 /\
  ~ (10 <= 5 <= 300)%Z.
Proof.
  repeat split; try (vm_compute; reflexivity); lia.
Qed.

(** The value read is the value configured, whichever way: set through
    [Config.set], given by a loaded file, or left as it was when the file
    does not give it. *)
Lemma get_set_same cfg section key v d :
  Config.get (Config.set cfg section key v) section key d = v.
Proof.
  unfold Config.get, Config.set. cbn [Config.config].
  rewrite lookup_insert_eq. cbn [default]. unfold default, from_option, id.
  now rewrite lookup_insert_eq.
Qed.

Lemma get_load_given base loaded name section key v d :
  loaded !! name = Some section -> section !! key = Some v ->
  Config.get (Config.load_config base loaded) name key d = v.
Proof.
  intros Hsec Hk. unfold Config.get, Config.load_config, Config._merge_config.
  cbn [Config.config]. rewrite lookup_union_with, Hsec.
  destruct (Config.config base !! name) as [b|]; cbn.
  - rewrite lookup_union, Hk. destruct (b !! key); reflexivity.
  - now rewrite Hk.
Qed.

Lemma get_load_absent base loaded name key d :
  (forall section, loaded !! name = Some section -> section !! key = None) ->
  Config.get (Config.load_config base loaded) name key d
  = Config.get base name key d.
Proof.
  intros Habs. unfold Config.get, Config.load_config, Config._merge_config.
  cbn [Config.config]. rewrite lookup_union_with.
  destruct (loaded !! name) as [section|] eqn:Hsec;
    destruct (Config.config base !! name) as [b|]; cbn; try reflexivity.
  - rewrite lookup_union, (Habs section eq_refl).
    now destruct (b !! key).
  - now rewrite (Habs section eq_refl).
Qed.

(** C4 (amended). The orchestrator reads [concurrent_scans] and
    [timeout_seconds] as the configuration holds them, unclamped: the worker
    pool is asked for min(configured, number of handles) whatever the
    configured integer, a size below one is refused by the executor, and the
    timeout is handed on as it is. The configuration holds a value as it was
    set, as the loaded file gives it, or as it was before when the file does
    not give it; without any the defaults 5 and 30 are read. *)
Theorem pool_size_is_min_of_raw_setting self n t projects :
  Config.get (config self) "scanning" "concurrent_scans" (Config.CInt 5)
    = Config.CInt n ->
  Config.get (config self) "scanning" "timeout_seconds" (Config.CInt 30) = t ->
  max_workers self projects = ok (Z.min n (Z.of_nat (length projects))) /\
  timeout_seconds self = t /\
  scan_projects self projects
  = (if (Z.min n (Z.of_nat (length projects)) <=? 0)%Z
     then raise (ValueError "max_workers must be greater than 0")
     else ok (collect self t projects)) /\
  (forall cfg key v d,
     Config.get (Config.set cfg "scanning" key v) "scanning" key d = v) /\
  (forall base loaded section key v d,
     loaded !! "scanning" = Some section -> section !! key = Some v ->
     Config.get (Config.load_config base loaded) "scanning" key d = v) /\
  (forall base loaded key d,
     (forall section,
        loaded !! "scanning" = Some section -> section !! key = None) ->
     Config.get (Config.load_config base loaded) "scanning" key d
     = Config.get base "scanning" key d) /\
  Config.get {| Config.config := Config.DEFAULT_CONFIG |}
             "scanning" "concurrent_scans" (Config.CInt 5) = Config.CInt 5 /\
  Config.get {| Config.config := Config.DEFAULT_CONFIG |}
             "scanning" "timeout_seconds" (Config.CInt 30) = Config.CInt 30.
Proof.
  intros Hn Ht.
  assert (Hworkers : max_workers self projects
                     = ok (Z.min n (Z.of_nat (length projects)))).
  { unfold max_workers. now rewrite Hn. }
  split; [exact Hworkers|]. split; [exact Ht|]. split.
  { unfold scan_projects. rewrite Hworkers. unfold ok.
    fold (timeout_seconds self) in Ht. now rewrite Ht. }
  split; [intros; apply get_set_same|].
  split; [intros; eapply get_load_given; eassumption|].
  split; [intros; now apply get_load_absent|].
  split; vm_compute; reflexivity.
Qed.

Lemma pool_size_is_min_of_raw_setting_witness :
  let cfg :=
    Config.set {| Config.config := Config.DEFAULT_CONFIG |}
               "scanning" "concurrent_scans" (Config.CInt 50) in
  let self := ten_projects cfg 1 in
  max_workers self (handles 100) = ok 50%Z /\
  timeout_seconds self = Config.CInt 30.
Proof.
  intros cfg self.
  destruct (pool_size_is_min_of_raw_setting self 50 (Config.CInt 30) (handles 100))
    as (H1 & H2 & _).
  - vm_compute. reflexivity.
  - vm_compute. reflexivity.
  - split; [exact H1|exact H2].
Defined.

End ScannerFacts.

(** ** Python string primitives: basic facts *)

Module PyStrFacts.
Import PyStr.

Lemma append_cons a s t : String a s +:+ t = String a (s +:+ t).
Proof. reflexivity. Qed.

Lemma append_nil_l t : "" +:+ t = t.
Proof. reflexivity. Qed.

Lemma append_nil_r s : s +:+ "" = s.
Proof. induction s as [|a s IH]; [reflexivity|]. now rewrite append_cons, IH. Qed.

Lemma append_assoc s t u : (s +:+ t) +:+ u = s +:+ (t +:+ u).
Proof.
  induction s as [|a s IH]; [reflexivity|]. now rewrite !append_cons, IH.
Qed.

Lemma startswith_nil s : startswith s "" = true.
Proof. destruct s; reflexivity. Qed.

(** A string that starts with [p] is [p] followed by what [s[len(p):]]
    gives. *)
Lemma startswith_split s p :
  startswith s p = true -> s = p +:+ substr_from (String.length p) s.
Proof.
  revert s. induction p as [|a p IH]; intros s H.
  - reflexivity.
  - destruct s as [|b s]; [discriminate|]. simpl in H.
    destruct (Ascii.eqb_spec a b) as [->|]; [|discriminate].
    rewrite append_cons. simpl. f_equal. now apply IH.
Qed.

Lemma startswith_app p t : startswith (p +:+ t) p = true.
Proof.
  induction p as [|a p IH]; [apply startswith_nil|].
  rewrite append_cons. simpl. now rewrite Ascii.eqb_refl.
Qed.

Lemma contains_refl s : contains s s = true.
Proof.
  destruct s as [|a s]; [reflexivity|].
  cbn [contains].
  replace (String a s) with (String a s +:+ "") at 1 by apply append_nil_r.
  now rewrite startswith_app.
Qed.

End PyStrFacts.

(** ** Insertion-ordered dictionaries: basic facts *)

Module ODictFacts.
Section Facts.
Context {V : Type}.
Implicit Types (d : ODict.t V) (k : string) (v : V).

Lemma get_set_eq k v d : ODict.get k (ODict.set k v d) = Some v.
Proof.
  induction d as [|[k' v'] d IH]; simpl.
  - now rewrite String.eqb_refl.
  - destruct (String.eqb_spec k k') as [->|Hne]; simpl.
    + now rewrite String.eqb_refl.
    + destruct (String.eqb_spec k k'); [contradiction|exact IH].
Qed.

Lemma get_set_ne k k' v d : k <> k' -> ODict.get k' (ODict.set k v d) = ODict.get k' d.
Proof.
  intros Hne. induction d as [|[k0 v0] d IH]; simpl.
  - destruct (String.eqb_spec k' k); [congruence|reflexivity].
  - destruct (String.eqb_spec k k0) as [->|Hk]; simpl.
    + destruct (String.eqb_spec k' k0); [congruence|reflexivity].
    + destruct (String.eqb_spec k' k0); [reflexivity|exact IH].
Qed.

Lemma set_get_same k v d : ODict.get k d = Some v -> ODict.set k v d = d.
Proof.
  induction d as [|[k' v'] d IH]; simpl; [discriminate|].
  destruct (String.eqb_spec k k') as [->|Hne]; intros H.
  - congruence.
  - now rewrite IH.
Qed.

Lemma get_None_not_key k d item :
  ODict.get k d = None -> item ∈ ODict.items d -> fst item <> k.
Proof.
  unfold ODict.items.
  induction d as [|[k' v'] d IH]; simpl; intros Hget Hin.
  - inversion Hin.
  - destruct (String.eqb_spec k k') as [->|Hne]; [discriminate|].
    apply elem_of_cons in Hin as [->|Hin]; simpl; [congruence|auto].
Qed.

Lemma get_Some_item k v d : ODict.get k d = Some v -> (k, v) ∈ ODict.items d.
Proof.
  unfold ODict.items.
  induction d as [|[k' v'] d IH]; simpl; [discriminate|].
  destruct (String.eqb_spec k k') as [->|Hne]; intros H.
  - injection H as ->. apply elem_of_cons. now left.
  - apply elem_of_cons. right. auto.
Qed.

Lemma item_get_is_Some k v d : (k, v) ∈ ODict.items d -> is_Some (ODict.get k d).
Proof.
  unfold ODict.items.
  induction d as [|[k' v'] d IH]; simpl; intros Hin; [inversion Hin|].
  destruct (String.eqb_spec k k') as [->|Hne]; [eauto|].
  apply elem_of_cons in Hin as [Heq|Hin]; [congruence|auto].
Qed.
Lemma items_set k v d item :
  item ∈ ODict.items (ODict.set k v d) -> item = (k, v) \/ item ∈ ODict.items d.
Proof.
  unfold ODict.items. induction d as [|[k' v'] d IH]; simpl.
  - intros Hin. apply list_elem_of_singleton in Hin. now left.
  - destruct (String.eqb_spec k k') as [->|Hne]; intros Hin;
      apply elem_of_cons in Hin as [Hin|Hin].
    + now left.
    + right. apply elem_of_cons. now right.
    + right. apply elem_of_cons. now left.
    + destruct (IH Hin) as [H|H]; [now left|].
      right. apply elem_of_cons. now right.
Qed.

End Facts.
End ODictFacts.

(** ** Connection analyzer *)

Module ConnectionFacts.
Import PyStr PyStrFacts Connection.

(** *** The matching tiers *)

(** The third test holds for equal paths only. *)
Lemma same_api_suffix_eq e c : same_api_suffix e c = true -> e = c.
Proof.
  unfold same_api_suffix. intros H.
  apply andb_prop in H as [H Hs]. apply andb_prop in H as [He Hc].
  apply String.eqb_eq in Hs.
  rewrite (startswith_split _ _ He), (startswith_split _ _ Hc).
  simpl String.length. now rewrite Hs.
Qed.

Lemma partial_match_is_containment e c :
  e <> c -> partial_match e c = contained_with_prefix e c.
Proof.
  intros Hne. unfold partial_match, contained_with_prefix.
  destruct (endpoint_in_client e c); [reflexivity|].
  destruct (client_in_endpoint e c); [reflexivity|]. simpl.
  destruct (same_api_suffix e c) eqn:Hs; [|reflexivity].
  now apply same_api_suffix_eq in Hs.
Qed.

Lemma filter_partial_match (c : string) (l : list (string * list EndpointInfo)) :
  (forall item, item ∈ l -> fst item <> c) ->
  filter (fun item => partial_match (fst item) c) l
  = filter (fun item => contained_with_prefix (fst item) c) l.
Proof.
  induction l as [|x l IH]; intros Hl; [reflexivity|].
  rewrite !filter_cons, IH.
  - rewrite partial_match_is_containment; [reflexivity|].
    apply Hl. apply elem_of_cons. now left.
  - intros item Hin. apply Hl. apply elem_of_cons. now right.
Qed.

(** C5, as stated, fails: the endpoint [/users] is contained in the client
    path [/api/users] and one side begins with [/api], yet nothing matches,
    because the side that has to begin with [/api] is the contained one. *)
Lemma containment_needs_the_prefix_on_the_contained_side :
  let info := {| repo_id := 1; repo_name := "users"; file_path := "app.py";
                 matched_text := "@app.route('/users'" |} in
  let endpoints := [("/users", [info])] in
  contains "/users" (_normalize_path "/api/users") = true /\
  startswith (_normalize_path "/api/users") "/api" = true /\
  ODict.get (_normalize_path "/api/users") endpoints = None /\
  _find_matching_endpoints "/api/users" endpoints = [].
Proof. repeat split. Qed.

(** C5 (amended). The tiers are tried in order and the first that matches
    decides for the call site. (i) When the normalized client path is a key of
    the index, that entry alone is the result. (ii) Otherwise the result is
    every indexed endpoint whose path begins with [/api] and is contained in
    the client path, or that contains a client path beginning with [/api]: the
    prefix is required of the contained side. (iii) Equality of the suffixes
    after [/api/] holds for equal paths only, which tier (i) has taken, so it
    never adds a result. *)
Theorem find_matching_endpoints_tiers client_path endpoints :
  let c := _normalize_path client_path in
  _find_matching_endpoints client_path endpoints =
  match ODict.get c endpoints with
  | Some infos => [(c, infos)]
  | None =>
      filter (fun item => contained_with_prefix (fst item) c)
             (ODict.items endpoints)
  end.
Proof.
  intros c. unfold _find_matching_endpoints. fold c.
  destruct (ODict.get c endpoints) eqn:Hget; [reflexivity|].
  apply filter_partial_match. intros item Hin.
  now apply (ODictFacts.get_None_not_key c endpoints).
Qed.

End ConnectionFacts.

(** ** Summary builder *)

Module SummaryFacts.
Import Summary.

Lemma read_only_ret {A} (a : A) : read_only (ret a).
Proof. intros h. reflexivity. Qed.

Lemma read_only_lift {A} (r : Exc A) : read_only (lift r).
Proof. intros h. reflexivity. Qed.

Lemma read_only_load i : read_only (load i).
Proof. intros h. unfold load. destruct (h !! i); reflexivity. Qed.

Lemma read_only_bind {A B} (c : M A) (k : A -> M B) :
  read_only c -> (forall a, read_only (k a)) -> read_only (bind c k).
Proof.
  intros Hc Hk h. unfold bind. specialize (Hc h).
  destruct (c h) as [h' [e|a]]; simpl in *; subst h'; [reflexivity|apply Hk].
Qed.

Lemma read_only_for_each {A S} (xs : list A) (body : S -> A -> M S) s :
  (forall s x, read_only (body s x)) -> read_only (for_each xs body s).
Proof.
  intros Hbody. revert s.
  induction xs as [|x xs IH]; intros s; simpl.
  - apply read_only_ret.
  - apply read_only_bind; [apply Hbody|exact IH].
Qed.

Create HintDb summary.

#[local] Hint Resolve read_only_ret read_only_lift read_only_load : summary.

Lemma read_only_documentation n : read_only (_generate_documentation_summary n).
Proof.
  unfold _generate_documentation_summary.
  apply read_only_for_each. intros s i.
  apply read_only_bind; auto with summary.
Qed.

Lemma read_only_generate_summary_on n : read_only (generate_summary_on n).
Proof.
  destruct n as [|n]; [apply read_only_ret|].
  unfold generate_summary_on.
  apply read_only_bind.
  { apply read_only_for_each. intros s i.
    apply read_only_bind; auto with summary. }
  intros scanned_repos. apply read_only_bind.
  { apply read_only_for_each. intros acc i.
    apply read_only_bind; [auto with summary|].
    intros repo. destruct (negb (Repository.scanned repo)); auto with summary. }
  intros acc. apply read_only_bind; [apply read_only_documentation|].
  intros docs. apply read_only_ret.
Qed.

End SummaryFacts.

(** ** Repository record: the merge rule of [add_technology] *)

Module RepositoryFacts.
Import Repository.

Section Merge.

Variables (name : string) (confidence : Q) (version path : option string)
          (details : option (gmap string Val)).
Hypothesis Hplain : plain_details details.

Lemma has_name_name_of e :
  well_formed e -> has_name name e = true <-> name_of e = name.
Proof.
  intros [[n Hn] _]. unfold has_name, name_of. rewrite Hn. simpl.
  apply String.eqb_eq.
Qed.

(** What [existing.update(details)] does to a key. *)
Lemma update_details_other (e : gmap string Val) k :
  (forall d, details = Some d -> d !! k = None) ->
  match details with
  | Some d => if decide (d = ∅) then e else d ∪ e
  | None => e
  end !! k = e !! k.
Proof.
  intros Hk. destruct details as [d|]; [|reflexivity].
  destruct (decide (d = ∅)); [reflexivity|].
  apply lookup_union_r. now apply Hk.
Qed.

Lemma update_details_is_Some (e : gmap string Val) k :
  is_Some (e !! k) ->
  is_Some (match details with
           | Some d => if decide (d = ∅) then e else d ∪ e
           | None => e
           end !! k).
Proof.
  intros Hk. destruct details as [d|]; [|exact Hk].
  destruct (decide (d = ∅)); [exact Hk|].
  apply lookup_union_is_Some. now right.
Qed.

Lemma update_details_given (e : gmap string Val) d k v :
  details = Some d -> d !! k = Some v ->
  match details with
  | Some d => if decide (d = ∅) then e else d ∪ e
  | None => e
  end !! k = Some v.
Proof.
  intros -> Hk. destruct (decide (d = ∅)) as [->|].
  - now rewrite lookup_empty in Hk.
  - now apply lookup_union_Some_l.
Qed.

Lemma plain_name d : details = Some d -> d !! "name" = None.
Proof. intros ->. apply Hplain. Qed.

Lemma plain_confidence d : details = Some d -> d !! "confidence" = None.
Proof. intros ->. apply Hplain. Qed.

Lemma new_technology_well_formed :
  well_formed (new_technology name confidence version path details) /\
  name_of (new_technology name confidence version path details) = name.
Proof.
  unfold well_formed, name_of, new_technology.
  rewrite (update_details_other _ "name" plain_name).
  rewrite (update_details_other _ "confidence" plain_confidence).
  rewrite lookup_insert_eq.
  rewrite lookup_insert_ne, lookup_insert_eq by discriminate.
  repeat split; eauto.
  apply update_details_is_Some.
  rewrite !lookup_insert_ne, lookup_insert_eq by discriminate. eauto.
Qed.

(** The assignments under [if confidence > existing['confidence']]. *)
Lemma raise_confidence_spec existing :
  well_formed existing ->
  let e' := fst (raise_confidence confidence version path details existing) in
  snd (raise_confidence confidence version path details existing) = ok tt /\
  well_formed e' /\
  name_of e' = name_of existing /\
  e' !! "confidence" = Some (VNum confidence) /\
  (truthy_str version = true ->
   (forall d, details = Some d -> d !! "version" = None) ->
   e' !! "version" = Some (VStr (default "" version))) /\
  (truthy_str version = false ->
   (forall d, details = Some d -> d !! "version" = None) ->
   e' !! "version" = existing !! "version") /\
  (forall d k v, details = Some d -> d !! k = Some v -> e' !! k = Some v).
Proof.
  intros ([n Hn] & [c Hc] & [f Hf]). unfold raise_confidence.
  set (e1 := <["confidence" := VNum confidence]> existing).
  assert (Hdet : exists v,
    (if truthy_str path then ok (VStr (default "" path))
     else match e1 !! "detected_in" with
          | Some v => ok v
          | None => raise (KeyError "detected_in")
          end) = inr v).
  { destruct (truthy_str path); [eauto|].
    unfold e1. rewrite lookup_insert_ne, Hf by discriminate. eauto. }
  destruct Hdet as [v ->]. cbn [fst snd].
  set (e2 := <["detected_in" := v]> e1).
  set (e3 := if truthy_str version
             then <["version" := VStr (default "" version)]> e2 else e2).
  assert (Hname3 : e3 !! "name" = Some (VStr n)).
  { unfold e3, e2, e1. destruct (truthy_str version);
      rewrite ?lookup_insert_ne by discriminate; exact Hn. }
  assert (Hconf3 : e3 !! "confidence" = Some (VNum confidence)).
  { unfold e3, e2, e1. destruct (truthy_str version);
      rewrite ?(lookup_insert_ne _ "version"), ?(lookup_insert_ne _ "detected_in")
        by discriminate; apply lookup_insert_eq. }
  assert (Hdet3 : is_Some (e3 !! "detected_in")).
  { unfold e3, e2. destruct (truthy_str version);
      rewrite ?(lookup_insert_ne _ "version") by discriminate;
      rewrite lookup_insert_eq; eauto. }
  split; [reflexivity|].
  split; [|split; [|split; [|split; [|split]]]].
  - unfold well_formed.
    rewrite (update_details_other _ "name" plain_name).
    rewrite (update_details_other _ "confidence" plain_confidence).
    repeat split; eauto. now apply update_details_is_Some.
  - unfold name_of.
    now rewrite (update_details_other _ "name" plain_name), Hname3, Hn.
  - now rewrite (update_details_other _ "confidence" plain_confidence).
  - intros Hv Hd. rewrite (update_details_other _ "version" Hd).
    unfold e3. rewrite Hv. apply lookup_insert_eq.
  - intros Hv Hd. rewrite (update_details_other _ "version" Hd).
    unfold e3, e2, e1. rewrite Hv.
    now rewrite !lookup_insert_ne by discriminate.
  - intros d k v0 Hd Hk. now apply (update_details_given _ d).
Qed.

(** The loop finds nothing to merge with: it runs to its end. *)
Lemma merge_existing_absent l :
  Forall well_formed l ->
  List.filter (has_name name) l = [] ->
  merge_existing name confidence version path details l = (l, None).
Proof.
  induction 1 as [|e l He Hl IH]; intros Hfilter; [reflexivity|].
  simpl in Hfilter. destruct (has_name name e) eqn:Hhas; [discriminate|].
  simpl. unfold has_name in Hhas.
  destruct He as ([n Hn] & _). rewrite Hn in *. rewrite Hhas.
  now rewrite (IH Hfilter).
Qed.

(** The loop finds the observation of that name: the call returns from the
    loop, and the list changes only when the new confidence is higher. *)
Lemma merge_existing_found l existing :
  Forall well_formed l ->
  List.filter (has_name name) l = [existing] ->
  exists old,
    existing !! "confidence" = Some (VNum old) /\
    snd (merge_existing name confidence version path details l) = Some (ok tt) /\
    (Qgtb confidence old = false ->
     fst (merge_existing name confidence version path details l) = l) /\
    (Qgtb confidence old = true ->
     List.filter (has_name name)
       (fst (merge_existing name confidence version path details l))
     = [fst (raise_confidence confidence version path details existing)]).
Proof.
  induction 1 as [|e l He Hl IH]; intros Hfilter; [discriminate|].
  simpl in Hfilter. destruct (has_name name e) eqn:Hhas.
  - injection Hfilter as -> Hrest.
    pose proof (raise_confidence_spec existing He)
      as (Hres & Hwf' & Hname' & _).
    pose proof He as ([n Hn] & [c Hc] & _).
    exists c. split; [exact Hc|]. simpl.
    unfold has_name in Hhas. rewrite Hn in *. rewrite Hhas, Hc.
    destruct (Qgtb confidence c) eqn:Hgt.
    + destruct (raise_confidence confidence version path details existing)
        as [e' res] eqn:Hrc. cbn [fst snd] in *.
      split; [now rewrite Hres|]. split; [discriminate|]. intros _.
      simpl. rewrite Hrest.
      assert (Hh : has_name name e' = true).
      { apply (has_name_name_of e' Hwf'). rewrite Hname'.
        unfold name_of. rewrite Hn. now apply String.eqb_eq. }
      now rewrite Hh.
    + cbn [fst snd]. split; [reflexivity|]. split; [reflexivity|discriminate].
  - destruct (IH Hfilter) as (old & Hold & Hsnd & Hle & Hgt).
    exists old. split; [exact Hold|]. simpl.
    unfold has_name in Hhas. destruct He as ([n Hn] & _).
    rewrite Hn in *. rewrite Hhas.
    destruct (merge_existing name confidence version path details l)
      as [rest' res] eqn:Hm. cbn [fst snd] in *.
    split; [exact Hsnd|]. split.
    + intros H0. now rewrite (Hle H0).
    + intros H1. simpl. unfold has_name at 1. rewrite Hn, Hhas. now apply Hgt.
Qed.

(** Whatever the list, a call keeps the names of the list, in order, when it
    merges, and leaves the list alone when it does not. *)
Lemma merge_existing_names l :
  Forall well_formed l ->
  let res := merge_existing name confidence version path details l in
  (snd res = None /\ fst res = l /\ ~ In name (map name_of l)) \/
  (snd res = Some (ok tt) /\ Forall well_formed (fst res) /\
   map name_of (fst res) = map name_of l).
Proof.
  induction 1 as [|e l He Hl IH]; [left; repeat split; auto|].
  pose proof He as ([n Hn] & [c Hc] & _). simpl.
  rewrite Hn. cbn [is_str].
  destruct (String.eqb_spec n name) as [->|Hne].
  - right. rewrite Hc.
    destruct (Qgtb confidence c).
    + pose proof (raise_confidence_spec e He) as (Hres & Hwf' & Hname' & _).
      destruct (raise_confidence confidence version path details e)
        as [e' res]. cbn [fst snd] in *.
      repeat split; [now rewrite Hres|now constructor|].
      simpl. now rewrite Hname'.
    + cbn [fst snd]. repeat split; auto.
  - destruct (merge_existing name confidence version path details l)
      as [rest' res]. cbn [fst snd] in *.
    destruct IH as [(-> & -> & Hnotin)|(-> & Hwf & Hnames)].
    + left. repeat split; auto. simpl. intros [Heq|Hin]; [|auto].
      apply Hne. unfold name_of in Heq. now rewrite Hn in Heq.
    + right. repeat split; auto. simpl. now rewrite Hnames.
Qed.

End Merge.

Lemma with_technologies_same (r : t) : with_technologies r (technologies r) = r.
Proof. now destruct r. Qed.

Lemma technologies_with r x : technologies (with_technologies r x) = x.
Proof. reflexivity. Qed.

(** [self.technologies] once the category is known to be a key. *)
Lemma category_list category (techs : ODict.t (list (gmap string Val))) :
  let techs0 := if ODict.mem category techs then techs
                else ODict.set category [] techs in
  ODict.get category techs0 = Some (default [] (ODict.get category techs)) /\
  (forall c, c <> category -> ODict.get c techs0 = ODict.get c techs) /\
  (is_Some (ODict.get category techs) -> techs0 = techs).
Proof.
  unfold ODict.mem. destruct (ODict.get category techs) as [l|] eqn:Hget; simpl.
  - repeat split; auto.
  - split; [apply ODictFacts.get_set_eq|]. split.
    + intros c Hc. apply ODictFacts.get_set_ne. congruence.
    + intros [x Hx]. discriminate.
Qed.

Lemma init_invariant p : invariant (init p).
Proof.
  intros category l. unfold init, technologies. simpl.
  repeat (destruct (String.eqb category _);
          [intros [= <-]; split; constructor|]).
  discriminate.
Qed.

(** A call with plain details returns normally and keeps the invariant. *)
Lemma add_technology_invariant category name confidence version path details self :
  plain_details details ->
  invariant self ->
  snd (add_technology category name confidence version path details self) = ok tt /\
  invariant (fst (add_technology category name confidence version path details self)).
Proof.
  intros Hplain Hinv. unfold add_technology.
  destruct (category_list category (technologies self)) as (Hget0 & Hother & _).
  set (techs0 := if ODict.mem category (technologies self)
                 then technologies self
                 else ODict.set category [] (technologies self)) in *.
  rewrite Hget0.
  change (default [] (Some (default [] (ODict.get category (technologies self)))))
    with (default [] (ODict.get category (technologies self))).
  set (l := default [] (ODict.get category (technologies self))).
  assert (Hl : distinct_names l).
  { unfold l. destruct (ODict.get category (technologies self)) eqn:Hg; simpl.
    - now apply (Hinv category).
    - split; constructor. }
  destruct Hl as [Hwf Hnd].
  pose proof (merge_existing_names name confidence version path details
                Hplain l Hwf) as Hm.
  destruct (merge_existing name confidence version path details l)
    as [l' [res|]] eqn:Hme; cbn [fst snd] in Hm.
  - destruct Hm as [(Hres & _)|(Hres & Hwf' & Hnames)]; [discriminate|].
    injection Hres as ->. split; [reflexivity|].
    intros c lc. cbn [fst]. rewrite technologies_with.
    destruct (String.eqb_spec category c) as [<-|Hne].
    + rewrite ODictFacts.get_set_eq. intros [= <-].
      split; [exact Hwf'|now rewrite Hnames].
    + rewrite ODictFacts.get_set_ne, Hother by congruence. apply Hinv.
  - destruct Hm as [(_ & -> & Hnotin)|(Hres & _)]; [|discriminate].
    split; [reflexivity|].
    intros c lc. cbn [fst]. rewrite technologies_with.
    destruct (String.eqb_spec category c) as [<-|Hne].
    + rewrite ODictFacts.get_set_eq. intros [= <-].
      destruct (new_technology_well_formed name confidence version path
                  details Hplain) as [Hwfn Hnn].
      split.
      * apply Forall_app. split; [exact Hwf|]. now constructor.
      * rewrite map_app. simpl. rewrite Hnn.
        apply NoDup_app. split; [exact Hnd|]. split.
        -- intros x Hx Hx'. apply list_elem_of_In in Hx.
           apply list_elem_of_singleton in Hx'. subst x. contradiction.
        -- apply NoDup_singleton.
    + rewrite ODictFacts.get_set_ne, Hother by congruence. apply Hinv.
Qed.

Lemma calls_invariant cs self :
  Forall (fun c => plain_details (tc_details c)) cs ->
  invariant self -> invariant (calls cs self).
Proof.
  intros Hcs. revert self.
  induction Hcs as [|c cs Hc Hcs IH]; intros self Hinv; [exact Hinv|].
  unfold calls. simpl. apply IH. unfold call.
  now apply add_technology_invariant.
Qed.

(** Distinct names leave at most one entry for a name. *)
Lemma at_most_one_of_name name l :
  distinct_names l -> (length (List.filter (has_name name) l) <= 1)%nat.
Proof.
  intros [Hwf Hnd].
  induction Hwf as [|e l He Hl IH]; simpl; [lia|].
  simpl in Hnd. apply NoDup_cons in Hnd as [Hnotin Hnd].
  destruct (has_name name e) eqn:Hhas; [|auto].
  simpl. enough (List.filter (has_name name) l = []) as ->; [simpl; lia|].
  apply (has_name_name_of name e He) in Hhas.
  clear IH. induction Hl as [|e' l He' Hl IH]; [reflexivity|].
  simpl. destruct (has_name name e') eqn:Hhas'.
  - apply (has_name_name_of name e' He') in Hhas'.
    exfalso. apply Hnotin. simpl. rewrite Hhas, Hhas'. apply elem_of_cons. now left.
  - apply IH.
    + intros Hin. apply Hnotin. simpl. apply elem_of_cons. now right.
    + simpl in Hnd. now apply NoDup_cons in Hnd as [_ Hnd].
Qed.

(** C3, as stated, fails on equal confidence: Flask is recorded with
    confidence 0.8 and version 1.0, then reported again with the same
    confidence, version 2.0 and details. The confidence offered is not lower,
    yet the version stays 1.0 and the details are not taken. *)
Lemma equal_confidence_overwrites_nothing :
  let r := calls [Examples.flask_first; Examples.flask_equal]
                 (init Examples.shop) in
  Qle_bool (tc_confidence Examples.flask_first)
           (tc_confidence Examples.flask_equal) = true /\
  exists e,
    observations "backend" "Flask" r = [e] /\
    e !! "version" = Some (VStr "1.0") /\
    e !! "version" <> Some (VStr "2.0") /\
    e !! "matches" = None.
Proof.
  split; [reflexivity|].
  eexists. split; [vm_compute; reflexivity|].
  split; [vm_compute; reflexivity|].
  split; [vm_compute; discriminate|vm_compute; reflexivity].
Qed.

(** C3 (amended). After any sequence of [add_technology] calls on a fresh
    record (with details that do not carry the keys [name] and [confidence])
    there is at most one observation for a category and a name. A further
    call for a name already observed returns normally and merges into that
    observation: when the new confidence is strictly higher the observation
    takes it, takes the version when one is given and takes the details; when
    it is equal or lower the record stays exactly as it was. *)
Theorem add_technology_merge_rule p cs :
  Forall (fun c => plain_details (tc_details c)) cs ->
  let r := calls cs (init p) in
  (forall category name,
     (length (observations category name r) <= 1)%nat) /\
  (forall c existing,
     plain_details (tc_details c) ->
     observations (tc_category c) (tc_name c) r = [existing] ->
     exists old,
       existing !! "confidence" = Some (VNum old) /\
       snd (call c r) = ok tt /\
       (Qgtb (tc_confidence c) old = false -> fst (call c r) = r) /\
       (Qgtb (tc_confidence c) old = true ->
        exists merged,
          observations (tc_category c) (tc_name c) (fst (call c r)) = [merged] /\
          merged !! "confidence" = Some (VNum (tc_confidence c)) /\
          (truthy_str (tc_version c) = true ->
           (forall d, tc_details c = Some d -> d !! "version" = None) ->
           merged !! "version" = Some (VStr (default "" (tc_version c)))) /\
          (truthy_str (tc_version c) = false ->
           (forall d, tc_details c = Some d -> d !! "version" = None) ->
           merged !! "version" = existing !! "version") /\
          (forall d k v,
             tc_details c = Some d -> d !! k = Some v ->
             merged !! k = Some v))).
Proof.
  intros Hcs r.
  assert (Hinv : invariant r)
    by (apply calls_invariant; [exact Hcs|apply init_invariant]).
  split.
  - intros category name. unfold observations.
    destruct (ODict.get category (technologies r)) as [l|] eqn:Hget; simpl.
    + apply at_most_one_of_name. now apply (Hinv category).
    + lia.
  - intros [category name confidence version path details] existing Hplain Hobs.
    cbn [tc_category tc_name tc_confidence tc_version tc_path tc_details] in *.
    unfold observations in Hobs.
    destruct (ODict.get category (technologies r)) as [l|] eqn:Hget;
      [|discriminate].
    change (default [] (Some l)) with l in Hobs.
    destruct (Hinv category l Hget) as [Hwf _].
    destruct (merge_existing_found name confidence version path details
                Hplain l existing Hwf Hobs) as (old & Hold & Hsnd & Hle & Hgt).
    exists old. split; [exact Hold|].
    unfold call, add_technology.
    cbn [tc_category tc_name tc_confidence tc_version tc_path tc_details].
    destruct (category_list category (technologies r)) as (_ & _ & Hsame).
    rewrite Hsame by eauto. rewrite Hget.
    change (default [] (Some l)) with l.
    destruct (merge_existing name confidence version path details l)
      as [l' res] eqn:Hme. cbn [fst snd] in *. subst res.
    split; [reflexivity|]. split.
    + intros H0. rewrite (Hle H0).
      rewrite (ODictFacts.set_get_same _ _ _ Hget).
      apply with_technologies_same.
    + intros H1. eexists. split.
      * unfold observations. cbn [fst].
        rewrite technologies_with, ODictFacts.get_set_eq.
        cbn [default]. apply (Hgt H1).
      * pose proof (raise_confidence_spec confidence version path details
                      Hplain existing) as Hspec.
        assert (Hwfe : well_formed existing).
        { assert (Hin : In existing (List.filter (has_name name) l))
            by (rewrite Hobs; now left).
          apply filter_In in Hin as [Hin _].
          rewrite Forall_forall in Hwf. apply Hwf. now apply list_elem_of_In. }
        destruct (Hspec Hwfe) as (_ & _ & _ & Hc & Hv1 & Hv0 & Hd).
        repeat split; assumption.
Qed.

Lemma add_technology_merge_rule_witness :
  exists merged,
    observations "backend" "Flask"
      (calls [Examples.flask_first; Examples.flask_higher] (init Examples.shop))
      = [merged] /\
    merged !! "confidence" = Some (VNum (9 # 10)) /\
    merged !! "version" = Some (VStr "2.0").
Proof.
  assert (Hcs : Forall (fun c => plain_details (tc_details c))
                       [Examples.flask_first])
    by (constructor; [exact I|constructor]).
  destruct (add_technology_merge_rule Examples.shop [Examples.flask_first] Hcs)
    as [_ Hmerge].
  assert (Hplain : plain_details (tc_details Examples.flask_higher))
    by (split; reflexivity).
  destruct (Hmerge Examples.flask_higher _ Hplain eq_refl)
    as (old & Hold & _ & _ & Hgt).
  assert (Hq : Qgtb (tc_confidence Examples.flask_higher) old = true).
  { vm_compute in Hold. injection Hold as <-. reflexivity. }
  destruct (Hgt Hq) as (merged & Hobs & Hconf & Hver & _).
  exists merged. split; [exact Hobs|]. split; [exact Hconf|].
  apply Hver; [reflexivity|].
  intros d Hd. injection Hd as <-. reflexivity.
Defined.

End RepositoryFacts.

(** ** Loops as folds *)

Module FoldFacts.

Lemma fold_left_invariant {A S} (Inv : S -> Prop) (f : S -> A -> S) l s :
  (forall s a, a ∈ l -> Inv s -> Inv (f s a)) -> Inv s -> Inv (fold_left f l s).
Proof.
  revert s. induction l as [|a l IH]; intros s Hstep Hs; [exact Hs|].
  simpl. apply IH.
  - intros s' a' Hin. apply Hstep. apply elem_of_cons. now right.
  - apply Hstep; [apply elem_of_cons; now left|exact Hs].
Qed.

(** A loop that only adds to a list: what is in the list afterwards. *)
Lemma fold_left_elem_of {A X} (f : list X -> A -> list X) (P : A -> Prop) l acc b :
  (forall acc a, b ∈ f acc a <-> b ∈ acc \/ P a) ->
  b ∈ fold_left f l acc <-> b ∈ acc \/ exists a, a ∈ l /\ P a.
Proof.
  intros Hstep. revert acc. induction l as [|a l IH]; intros acc; simpl.
  - split; [auto|]. intros [H|(a & Ha & _)]; [exact H|inversion Ha].
  - rewrite IH, Hstep. split.
    + intros [[H|H]|(a' & Ha' & HP)]; [now left| |].
      * right. exists a. split; [apply elem_of_cons; now left|exact H].
      * right. exists a'. split; [apply elem_of_cons; now right|exact HP].
    + intros [H|(a' & Ha' & HP)]; [now left; left|].
      apply elem_of_cons in Ha' as [->|Ha']; [left; now right|].
      right. eauto.
Qed.

End FoldFacts.

(** ** Dependency analyzer *)

Module DependencyFacts.
Import PyStr Dependency FoldFacts.

Lemma str_in_spec x xs : Repository.str_in x xs = true <-> x ∈ xs.
Proof.
  unfold Repository.str_in. rewrite existsb_exists. split.
  - intros (y & Hin & Heq). apply String.eqb_eq in Heq. subst y.
    now apply list_elem_of_In.
  - intros Hin. exists x. split; [now apply list_elem_of_In|apply String.eqb_refl].
Qed.

(** *** The table [repo_packages] *)

Lemma get_set_all (v : string) ks key (d : ODict.t string) :
  ODict.get key (fold_left (fun d k => ODict.set k v d) ks d)
  = if Repository.str_in key ks then Some v else ODict.get key d.
Proof.
  revert d. induction ks as [|k ks IH]; intros d; [reflexivity|].
  simpl. rewrite IH.
  destruct (Repository.str_in key ks) eqn:Hin; [now rewrite orb_true_r|].
  rewrite orb_false_r.
  destruct (String.eqb_spec key k) as [->|Hne].
  - apply ODictFacts.get_set_eq.
  - apply ODictFacts.get_set_ne. congruence.
Qed.

Lemma get_add_packages d repo_name key :
  ODict.get key (add_packages d repo_name)
  = if Repository.str_in key (candidate_keys repo_name) then Some repo_name
    else ODict.get key d.
Proof. apply get_set_all. Qed.

Lemma get_packages_from (items : list (string * RepoInfo)) d key :
  ODict.get key (fold_left (fun d item => add_packages d (fst item)) items d)
  = match last_claimant key (map fst items) with
    | Some m => Some m
    | None => ODict.get key d
    end.
Proof.
  revert d. induction items as [|[n info] items IH]; intros d; [reflexivity|].
  cbn [fold_left map fst last_claimant]. rewrite IH.
  destruct (last_claimant key (map fst items)); [reflexivity|].
  rewrite get_add_packages.
  now destruct (Repository.str_in key (candidate_keys n)).
Qed.

(** Each key of the table belongs to the last repository that writes it. *)
Lemma get_repo_packages repos_data key :
  ODict.get key (build_repo_packages repos_data)
  = last_claimant key (ODict.keys repos_data).
Proof.
  unfold build_repo_packages, ODict.items, ODict.keys.
  rewrite get_packages_from.
  now destruct (last_claimant key (map fst repos_data)).
Qed.

Lemma last_claimant_Some key names b :
  last_claimant key names = Some b -> b ∈ names /\ key ∈ candidate_keys b.
Proof.
  induction names as [|n names IH]; cbn [last_claimant]; [discriminate|].
  destruct (last_claimant key names) as [m|].
  - intros [= ->]. destruct (IH eq_refl) as [Hin Hkey].
    split; [apply elem_of_cons; now right|exact Hkey].
  - destruct (Repository.str_in key (candidate_keys n)) eqn:Hin; [|discriminate].
    intros [= ->]. split; [apply elem_of_cons; now left|].
    now apply str_in_spec.
Qed.

Lemma last_claimant_alone key names b :
  b ∈ names -> key ∈ candidate_keys b ->
  (forall c, c ∈ names -> c <> b -> key ∉ candidate_keys c) ->
  last_claimant key names = Some b.
Proof.
  induction names as [|n names IH]; intros Hin Hkey Hothers; [inversion Hin|].
  cbn [last_claimant].
  destruct (last_claimant key names) as [m|] eqn:Hlast.
  - apply last_claimant_Some in Hlast as [Hm Hkm].
    destruct (String.eqb_spec m b) as [->|Hne]; [reflexivity|].
    exfalso. apply (Hothers m); [apply elem_of_cons; now right|exact Hne|exact Hkm].
  - destruct (String.eqb_spec n b) as [->|Hne].
    + apply str_in_spec in Hkey. now rewrite Hkey.
    + apply elem_of_cons in Hin as [->|Hin]; [congruence|].
      assert (Hb : None = Some b); [|discriminate].
      apply IH; [exact Hin|exact Hkey|].
      intros c Hc. apply Hothers. apply elem_of_cons. now right.
Qed.

(** A dictionary built by assignments has each key once. *)
Lemma keys_set_NoDup {V} k (v : V) (d : ODict.t V) :
  NoDup (ODict.keys d) -> NoDup (ODict.keys (ODict.set k v d)) /\
  (forall x, x ∈ ODict.keys (ODict.set k v d) -> x = k \/ x ∈ ODict.keys d).
Proof.
  unfold ODict.keys. induction d as [|[k' v'] d IH]; simpl; intros Hnd.
  - split; [apply NoDup_singleton|].
    intros x Hx. apply list_elem_of_singleton in Hx. now left.
  - apply NoDup_cons in Hnd as [Hnotin Hnd].
    destruct (String.eqb_spec k k') as [->|Hne]; simpl.
    + split; [apply NoDup_cons; auto|]. intros x Hx. now right.
    + destruct (IH Hnd) as [Hnd' Hsub]. split.
      * apply NoDup_cons. split; [|exact Hnd'].
        intros Hin. apply Hsub in Hin as [Heq|Hin]; [congruence|contradiction].
      * intros x Hx. apply elem_of_cons in Hx as [->|Hx].
        -- right. apply elem_of_cons. now left.
        -- apply Hsub in Hx as [->|Hx]; [now left|].
           right. apply elem_of_cons. now right.
Qed.

Lemma item_iff_get {V} k (v : V) (d : ODict.t V) :
  NoDup (ODict.keys d) -> (k, v) ∈ ODict.items d <-> ODict.get k d = Some v.
Proof.
  unfold ODict.keys, ODict.items.
  induction d as [|[k' v'] d IH]; simpl; intros Hnd.
  - split; [intros H; inversion H|discriminate].
  - apply NoDup_cons in Hnd as [Hnotin Hnd].
    destruct (String.eqb_spec k k') as [->|Hne].
    + split.
      * intros Hin. apply elem_of_cons in Hin as [[= ->]|Hin]; [reflexivity|].
        exfalso. apply Hnotin.
        apply list_elem_of_fmap. exists (k', v). split; [reflexivity|exact Hin].
      * intros [= ->]. apply elem_of_cons. now left.
    + rewrite <- (IH Hnd). split.
      * intros Hin. apply elem_of_cons in Hin as [[= -> ->]|Hin];
          [congruence|exact Hin].
      * intros Hin. apply elem_of_cons. now right.
Qed.

Lemma repo_packages_NoDup repos_data :
  NoDup (ODict.keys (build_repo_packages repos_data)).
Proof.
  unfold build_repo_packages.
  apply (fold_left_invariant (fun d : ODict.t string => NoDup (ODict.keys d))).
  - intros d item _ Hd. unfold add_packages.
    apply (fold_left_invariant (fun d : ODict.t string => NoDup (ODict.keys d)));
      [|exact Hd].
    intros d' key _ Hd'. now apply keys_set_NoDup.
  - apply NoDup_nil_2.
Qed.

(** *** The matching loops *)

(** The test of the innermost loop, for a table entry. *)
Lemma match_packages_elem_of (its : list (string * string)) repo_name deps dep b :
  b ∈ fold_left
        (fun dependencies item =>
           let '(package_name, related_repo) := item in
           if (contains (lower package_name) (lower (dep_name dep))
               && negb (String.eqb related_repo repo_name))%bool
           then if Repository.str_in related_repo dependencies
                then dependencies
                else dependencies ++ [related_repo]
           else dependencies) its deps
  <-> b ∈ deps \/
      exists item, item ∈ its /\
        (snd item = b /\
         contains (lower (fst item)) (lower (dep_name dep)) = true /\
         b <> repo_name).
Proof.
  apply fold_left_elem_of. intros acc [k related]. cbn [fst snd].
  destruct (contains (lower k) (lower (dep_name dep))) eqn:Hc; cbn [andb].
  - destruct (String.eqb_spec related repo_name) as [->|Hne]; cbn [negb].
    + split; [now left|]. intros [H|(<- & _ & Hb)]; [exact H|congruence].
    + destruct (Repository.str_in related acc) eqn:Hin.
      * apply str_in_spec in Hin. split; [now left|].
        intros [H|(<- & _)]; [exact H|exact Hin].
      * rewrite elem_of_app, list_elem_of_singleton. split.
        -- intros [H| ->]; [now left|right; auto].
        -- intros [H|(<- & _)]; auto.
  - split; [now left|]. intros [H|(_ & H & _)]; [exact H|discriminate].
Qed.

Lemma match_packages_NoDup pk repo_name deps dep :
  NoDup deps -> NoDup (match_packages pk repo_name deps dep).
Proof.
  unfold match_packages. apply fold_left_invariant.
  intros acc [k related] _ Hnd.
  destruct (_ && _)%bool; [|exact Hnd].
  destruct (Repository.str_in related acc) eqn:Hin; [exact Hnd|].
  apply NoDup_app. split; [exact Hnd|]. split; [|apply NoDup_singleton].
  intros x Hx Hx'. apply list_elem_of_singleton in Hx'. subst x.
  apply str_in_spec in Hx. congruence.
Qed.

(** What the loops over the dependency files of one repository collect. *)
Lemma repo_dependencies_elem_of pk repo_name repo_info b :
  b ∈ repo_dependencies pk repo_name repo_info <->
  exists dep_file dep item,
    dep_file ∈ dependency_files repo_info /\
    dep ∈ dependencies dep_file /\
    item ∈ ODict.items pk /\
    snd item = b /\
    contains (lower (fst item)) (lower (dep_name dep)) = true /\
    b <> repo_name.
Proof.
  unfold repo_dependencies.
  rewrite (fold_left_elem_of _
    (fun dep_file => exists dep item,
       dep ∈ dependencies dep_file /\ item ∈ ODict.items pk /\
       snd item = b /\
       contains (lower (fst item)) (lower (dep_name dep)) = true /\
       b <> repo_name)).
  - split.
    + intros [H|(dep_file & Hf & dep & item & H)]; [inversion H|].
      exists dep_file, dep, item. tauto.
    + intros (dep_file & dep & item & Hf & H). right.
      exists dep_file. split; [exact Hf|]. exists dep, item. exact H.
  - intros acc dep_file.
    rewrite (fold_left_elem_of _
      (fun dep => exists item,
         item ∈ ODict.items pk /\ snd item = b /\
         contains (lower (fst item)) (lower (dep_name dep)) = true /\
         b <> repo_name)).
    + split.
      * intros [H|(dep & Hd & item & H)]; [now left|].
        right. exists dep, item. tauto.
      * intros [H|(dep & item & Hd & H)]; [now left|].
        right. exists dep. split; [exact Hd|]. exists item. exact H.
    + intros acc' dep. unfold match_packages.
      rewrite match_packages_elem_of. split.
      * intros [H|(item & Hi & H)]; [now left|]. right. exists item. tauto.
      * intros [H|(item & Hi & H)]; [now left|]. right. exists item. tauto.
Qed.

Lemma repo_dependencies_NoDup pk repo_name repo_info :
  NoDup (repo_dependencies pk repo_name repo_info).
Proof.
  unfold repo_dependencies.
  apply (fold_left_invariant (fun l : list string => NoDup l));
    [|apply NoDup_nil_2].
  intros acc dep_file _ Hacc.
  apply (fold_left_invariant (fun l : list string => NoDup l)); [|exact Hacc].
  intros acc' dep _. apply match_packages_NoDup.
Qed.

(** *** The result dictionary *)

Lemma get_not_key {V} k (d : ODict.t V) :
  k ∉ ODict.keys d -> ODict.get k d = None.
Proof.
  unfold ODict.keys. induction d as [|[k' v] d IH]; simpl; [reflexivity|].
  intros Hnotin. destruct (String.eqb_spec k k') as [->|Hne].
  - exfalso. apply Hnotin. apply elem_of_cons. now left.
  - apply IH. intros Hin. apply Hnotin. apply elem_of_cons. now right.
Qed.

Lemma get_cross_from pk (its : list (string * RepoInfo)) out a :
  NoDup (map fst its) ->
  ODict.get a
    (fold_left
       (fun cross_repo_deps item =>
          let '(repo_name, repo_info) := item in
          match repo_dependencies pk repo_name repo_info with
          | [] => cross_repo_deps
          | dependencies => ODict.set repo_name dependencies cross_repo_deps
          end) its out)
  = match ODict.get a its with
    | Some info =>
        match repo_dependencies pk a info with
        | [] => ODict.get a out
        | l => Some l
        end
    | None => ODict.get a out
    end.
Proof.
  revert out. induction its as [|[k info] its IH]; intros out Hnd;
    [reflexivity|].
  cbn [map fst] in Hnd. apply NoDup_cons in Hnd as [Hnotin Hnd].
  cbn [fold_left ODict.get]. rewrite (IH _ Hnd).
  destruct (String.eqb_spec a k) as [->|Hne].
  - rewrite (get_not_key k its Hnotin).
    destruct (repo_dependencies pk k info) as [|x l]; [reflexivity|].
    apply ODictFacts.get_set_eq.
  - assert (Hout : ODict.get a
        match repo_dependencies pk k info with
        | [] => out
        | x :: l => ODict.set k (x :: l) out
        end = ODict.get a out).
    { destruct (repo_dependencies pk k info); [reflexivity|].
      apply ODictFacts.get_set_ne. congruence. }
    now rewrite Hout.
Qed.

Lemma edges_of_find repos_data a :
  NoDup (ODict.keys repos_data) ->
  edges_of a (find_cross_repo_dependencies repos_data)
  = match ODict.get a repos_data with
    | Some info => repo_dependencies (build_repo_packages repos_data) a info
    | None => []
    end.
Proof.
  intros Hnd. unfold edges_of, find_cross_repo_dependencies, ODict.items.
  rewrite (get_cross_from _ _ _ _ Hnd).
  destruct (ODict.get a repos_data) as [info|]; [|reflexivity].
  now destruct (repo_dependencies _ a info).
Qed.

(** C8, as stated, fails when candidate keys collide: [billing-api], the
    simple name of the repository of that name, is a substring of the
    dependency [billing-api] of [shop], and [shop] is another repository, yet
    no edge from [shop] to [billing-api] is recorded: the key was overwritten
    by the variant of [billing], which is the only target. *)
Lemma colliding_key_loses_its_edge :
  let result := find_cross_repo_dependencies Examples.colliding_repos in
  "billing-api" ∈ candidate_keys "billing-api" /\
  contains (lower "billing-api") (lower "billing-api") = true /\
  "shop" <> "billing-api" /\
  edges_of "shop" result = ["billing"] /\
  "billing-api" ∉ edges_of "shop" result.
Proof.
  split; [apply elem_of_cons; now left|].
  split; [reflexivity|]. split; [discriminate|].
  assert (H : edges_of "shop"
                (find_cross_repo_dependencies Examples.colliding_repos)
              = ["billing"]) by reflexivity.
  split; [exact H|]. rewrite H. intros Hin.
  apply list_elem_of_singleton in Hin. discriminate.
Qed.

(** C8 (amended). For repository names and dependency names written in
    ASCII, the cross-repository pass records an edge from repository
    A to repository B exactly when some key that the candidate table maps to
    B is, case-insensitively, a substring of one of A's dependency names and
    A differs from B; the edges of A hold each target once. Each key of the
    table belongs to the last repository, in the order of the input, that has
    it among its candidate keys (its simple name and the seven variants), so
    a key is a candidate key of its repository, and it is that of B whenever
    no other repository claims it. *)
Theorem cross_repo_edges repos_data a b :
  NoDup (ODict.keys repos_data) ->
  ascii_data repos_data = true ->
  let result := find_cross_repo_dependencies repos_data in
  (b ∈ edges_of a result <->
   exists info dep_file dep key,
     ODict.get a repos_data = Some info /\
     dep_file ∈ dependency_files info /\
     dep ∈ dependencies dep_file /\
     last_claimant key (ODict.keys repos_data) = Some b /\
     contains (lower key) (lower (dep_name dep)) = true /\
     b <> a) /\
  NoDup (edges_of a result) /\
  (forall key,
     last_claimant key (ODict.keys repos_data) = Some b ->
     b ∈ ODict.keys repos_data /\ key ∈ candidate_keys b) /\
  (forall key,
     b ∈ ODict.keys repos_data -> key ∈ candidate_keys b ->
     (forall c, c ∈ ODict.keys repos_data -> c <> b -> key ∉ candidate_keys c) ->
     last_claimant key (ODict.keys repos_data) = Some b).
Proof.
  intros Hnd _ result. subst result.
  rewrite (edges_of_find _ _ Hnd).
  split; [|split; [|split]].
  - destruct (ODict.get a repos_data) as [info|].
    + rewrite repo_dependencies_elem_of. split.
      * intros (dep_file & dep & [key related] & Hf & Hd & Hitem & Hb & Hc & Hne).
        cbn [fst snd] in *. subst related.
        exists info, dep_file, dep, key. repeat split; auto.
        rewrite <- get_repo_packages.
        apply item_iff_get; [apply repo_packages_NoDup|exact Hitem].
      * intros (info' & dep_file & dep & key & [= <-] & Hf & Hd & Hlast & Hc & Hne).
        exists dep_file, dep, (key, b). repeat split; auto.
        apply item_iff_get; [apply repo_packages_NoDup|].
        now rewrite get_repo_packages.
    + split; [intros H; inversion H|].
      intros (info & _ & _ & _ & H & _). discriminate.
  - destruct (ODict.get a repos_data) as [info|];
      [apply repo_dependencies_NoDup|apply NoDup_nil_2].
  - intros key. apply last_claimant_Some.
  - intros key. apply last_claimant_alone.
Qed.

(** The scenario of the specification: [billing-service] depends on
    [acme-billing-client] and gains an edge to [billing], whose variant
    [billing-client] is a key of the table. *)
Lemma cross_repo_edges_witness :
  NoDup (ODict.keys Examples.billing_repos) /\
  ascii_data Examples.billing_repos = true /\
  "billing" ∈ edges_of "billing-service"
                (find_cross_repo_dependencies Examples.billing_repos).
Proof.
  assert (Hnd : NoDup (ODict.keys Examples.billing_repos)).
  { apply NoDup_cons. split.
    - intros Hin. apply list_elem_of_singleton in Hin. discriminate.
    - apply NoDup_singleton. }
  split; [exact Hnd|]. split; [reflexivity|].
  apply (cross_repo_edges Examples.billing_repos "billing-service" "billing" Hnd
           eq_refl).
  exists (Examples.depends_on ["acme-billing-client"]).
  eexists. eexists. exists "billing-client".
  split; [reflexivity|].
  split; [apply elem_of_cons; left; reflexivity|].
  split; [apply elem_of_cons; left; reflexivity|].
  split; [reflexivity|]. split; [reflexivity|discriminate].
Defined.

End DependencyFacts.

(** ** Connection analyzer: self-edges *)

Module SelfEdgeFacts.
Import PyStr Connection FoldFacts.

(** *** [add_dependency] *)

Lemma add_dependency_identity dep_type n r :
  Repository.id (Repository.add_dependency dep_type n r) = Repository.id r /\
  Repository.name (Repository.add_dependency dep_type n r) = Repository.name r.
Proof.
  unfold Repository.add_dependency.
  destruct (Repository.str_in n _); split; reflexivity.
Qed.

Lemma add_dependency_elem_of dep_type n r kind x :
  x ∈ Repository.dependencies_of kind (Repository.add_dependency dep_type n r) ->
  x ∈ Repository.dependencies_of kind r \/ x = n.
Proof.
  unfold Repository.add_dependency, Repository.dependencies_of.
  set (deps0 := if ODict.mem dep_type (Repository.dependencies r)
                then Repository.dependencies r
                else ODict.set dep_type [] (Repository.dependencies r)).
  assert (H0 : forall k, default [] (ODict.get k deps0)
                 = default [] (ODict.get k (Repository.dependencies r))).
  { intros k. unfold deps0, ODict.mem.
    destruct (ODict.get dep_type (Repository.dependencies r)) eqn:Hg;
      [reflexivity|].
    destruct (String.eqb_spec dep_type k) as [<-|Hne].
    - now rewrite ODictFacts.get_set_eq, Hg.
    - now rewrite ODictFacts.get_set_ne. }
  destruct (Repository.str_in n (default [] (ODict.get dep_type deps0)));
    cbn [Repository.dependencies Repository.with_dependencies].
  - rewrite H0. now left.
  - destruct (String.eqb_spec dep_type kind) as [<-|Hne].
    + rewrite ODictFacts.get_set_eq.
      change (default [] (Some ?l)) with l.
      rewrite elem_of_app, list_elem_of_singleton, H0. tauto.
    + rewrite ODictFacts.get_set_ne, H0 by exact Hne. now left.
Qed.

Section Passes.

Variable finditer : Pattern -> string -> list Match.
Variable ids : list (Z * string).

(** Adding the name of another record keeps [only_others]. *)
Lemma only_others_add own name base dep_type i x r :
  (i, x) ∈ ids -> i <> own ->
  only_others ids own name base r ->
  only_others ids own name base (Repository.add_dependency dep_type x r).
Proof.
  intros Hin Hne (Hid & Hname & Hdeps).
  destruct (add_dependency_identity dep_type x r) as [Hid' Hname'].
  split; [congruence|]. split; [congruence|].
  intros kind y Hy. apply add_dependency_elem_of in Hy as [Hy| ->].
  - now apply Hdeps.
  - right. exists i. auto.
Qed.

(** *** The indexing pass *)

Lemma index_match_spec file_path endpoints repo m :
  (Repository.id repo, Repository.name repo) ∈ ids ->
  sourced ids endpoints ->
  let st := index_match file_path (endpoints, repo) m in
  sourced ids (fst st) /\
  Repository.id (snd st) = Repository.id repo /\
  Repository.name (snd st) = Repository.name repo /\
  Repository.dependencies (snd st) = Repository.dependencies repo.
Proof.
  intros Hrepo Hsrc. unfold index_match.
  destruct (truthy_str (match_path m)); [|cbn [fst snd]; auto].
  cbn [fst snd]. split; [|auto].
  set (path := _normalize_path (default "" (match_path m))).
  intros item info Hitem Hinfo.
  destruct (ODict.get path endpoints) as [infos|] eqn:Hget;
    apply ODictFacts.items_set in Hitem as [->|Hitem];
    try (now apply (Hsrc item info)); cbn [snd] in Hinfo.
  - apply elem_of_app in Hinfo as [Hinfo|Hinfo].
    + apply (Hsrc (path, infos) info); [|exact Hinfo].
      now apply ODictFacts.get_Some_item.
    + apply list_elem_of_singleton in Hinfo. now subst info.
  - apply list_elem_of_singleton in Hinfo. now subst info.
Qed.

Lemma index_repo_spec endpoints repo :
  (Repository.id repo, Repository.name repo) ∈ ids ->
  sourced ids endpoints ->
  indexing ids repo (index_repo finditer endpoints repo).
Proof.
  intros Hrepo Hsrc. unfold index_repo.
  destruct (Repository.scanned repo); [|repeat split; auto].
  apply (fold_left_invariant (indexing ids repo)); [|repeat split; auto].
  intros st file _ Hst. unfold index_file.
  destruct (is_code_file file); [|exact Hst].
  destruct (fetch (snd st) file); [|exact Hst].
  apply (fold_left_invariant (indexing ids repo)); [|exact Hst].
  intros st1 pattern _ Hst1.
  apply (fold_left_invariant (indexing ids repo)); [|exact Hst1].
  intros [eps r] m _ (Hs & Hi & Hn & Hd). cbn [fst snd] in *.
  destruct (index_match_spec file eps r m) as (Hs' & Hi' & Hn' & Hd');
    [rewrite Hi, Hn; exact Hrepo|exact Hs|].
  split; [exact Hs'|]. split; [congruence|]. split; congruence.
Qed.

Lemma extract_from_spec repositories endpoints :
  (forall r, r ∈ repositories -> (Repository.id r, Repository.name r) ∈ ids) ->
  sourced ids endpoints ->
  sourced ids (fst (extract_from finditer endpoints repositories)) /\
  Forall2 (fun r r' =>
             Repository.id r' = Repository.id r /\
             Repository.name r' = Repository.name r /\
             Repository.dependencies r' = Repository.dependencies r)
          repositories (snd (extract_from finditer endpoints repositories)).
Proof.
  revert endpoints.
  induction repositories as [|repo rest IH]; intros endpoints Hids Hsrc.
  - split; [exact Hsrc|constructor].
  - cbn [extract_from].
    destruct (index_repo_spec endpoints repo) as (Hs & Hi & Hn & Hd);
      [apply Hids; apply elem_of_cons; now left|exact Hsrc|].
    destruct (index_repo finditer endpoints repo) as [eps1 repo1].
    cbn [fst snd] in *.
    destruct (IH eps1) as [Hs2 Hall];
      [intros r Hr; apply Hids; apply elem_of_cons; now right|exact Hs|].
    destruct (extract_from finditer eps1 rest) as [eps2 rest'].
    cbn [fst snd] in *. split; [exact Hs2|].
    constructor; [auto|exact Hall].
Qed.

(** *** The API pass *)

Lemma find_matching_subset client_path endpoints item :
  item ∈ _find_matching_endpoints client_path endpoints ->
  item ∈ ODict.items endpoints.
Proof.
  unfold _find_matching_endpoints.
  destruct (ODict.get (_normalize_path client_path) endpoints) eqn:Hget.
  - intros Hin. apply list_elem_of_singleton in Hin. subst item.
    now apply ODictFacts.get_Some_item.
  - intros Hin. now apply list_elem_of_filter in Hin as [_ Hin].
Qed.

Lemma connect_repo_spec api_endpoints own name base repo :
  sourced ids api_endpoints ->
  only_others ids own name base repo ->
  only_others ids own name base (connect_repo finditer api_endpoints repo).
Proof.
  intros Hsrc Hrepo. unfold connect_repo.
  destruct (Repository.scanned repo); [|exact Hrepo].
  apply (fold_left_invariant (only_others ids own name base)); [|exact Hrepo].
  intros r file _ Hr. unfold connect_file.
  destruct (is_code_file file); [|exact Hr].
  destruct (fetch r file); [|exact Hr].
  apply (fold_left_invariant (only_others ids own name base)); [|exact Hr].
  intros r1 pattern _ Hr1.
  apply (fold_left_invariant (only_others ids own name base)); [|exact Hr1].
  intros r2 m _ Hr2. unfold connect_match.
  destruct (truthy_str (match_path m)); [|exact Hr2].
  apply (fold_left_invariant (only_others ids own name base)); [|exact Hr2].
  intros r3 item Hitem Hr3. apply find_matching_subset in Hitem.
  unfold connect_infos.
  apply (fold_left_invariant (only_others ids own name base)); [|exact Hr3].
  intros r4 info Hinfo Hr4.
  destruct (Z.eqb_spec (repo_id info) (Repository.id r4)) as [Heq|Hne];
    [exact Hr4|]. cbn [negb].
  apply (only_others_add own name base _ (repo_id info)); [| |exact Hr4].
  - now apply (Hsrc item info).
  - destruct Hr4 as [Hid _]. congruence.
Qed.

(** *** The service pass *)

Lemma link_targets_spec wanted repositories own name base repo :
  (forall t, t ∈ repositories -> (Repository.id t, Repository.name t) ∈ ids) ->
  only_others ids own name base repo ->
  only_others ids own name base (link_targets wanted repositories repo).
Proof.
  intros Hids Hrepo. unfold link_targets.
  apply (fold_left_invariant (only_others ids own name base)); [|exact Hrepo].
  intros r target Htarget Hr.
  destruct (wanted target); [|exact Hr]. cbn [andb].
  destruct (Z.eqb_spec (Repository.id target) (Repository.id r)) as [Heq|Hne];
    [exact Hr|]. cbn [negb].
  apply (only_others_add own name base _ (Repository.id target)); [| |exact Hr].
  - now apply Hids.
  - destruct Hr as [Hid _]. congruence.
Qed.

Lemma service_repo_spec repositories repo_names own name base repo :
  (forall t, t ∈ repositories -> (Repository.id t, Repository.name t) ∈ ids) ->
  only_others ids own name base repo ->
  only_others ids own name base
    (service_repo finditer repositories repo_names repo).
Proof.
  intros Hids Hrepo. unfold service_repo.
  destruct (Repository.scanned repo); [|exact Hrepo].
  apply (fold_left_invariant (only_others ids own name base)); [|exact Hrepo].
  intros r file _ Hr. unfold service_file.
  destruct (_ && _)%bool; [exact Hr|].
  destruct (fetch r file); [|exact Hr].
  apply (fold_left_invariant (only_others ids own name base)).
  - intros r1 repo_name _ Hr1. unfold url_token.
    destruct (5 <? String.length repo_name)%nat; [|exact Hr1].
    apply (fold_left_invariant (only_others ids own name base)); [|exact Hr1].
    intros r2 m _ Hr2. now apply link_targets_spec.
  - apply (fold_left_invariant (only_others ids own name base)); [|exact Hr].
    intros r1 pattern _ Hr1.
    apply (fold_left_invariant (only_others ids own name base)); [|exact Hr1].
    intros r2 m _ Hr2. unfold service_match.
    destruct (truthy_str (group1 m)); [|exact Hr2].
    apply (fold_left_invariant (only_others ids own name base)); [|exact Hr2].
    intros r3 repo_name _ Hr3. unfold link_token.
    destruct (_ || _)%bool; [|exact Hr3].
    now apply link_targets_spec.
Qed.

End Passes.

(** *** The analyzer *)

Section Analyze.

Variable finditer : Pattern -> string -> list Match.

Lemma identities_elem_of repositories r :
  r ∈ repositories ->
  (Repository.id r, Repository.name r) ∈ identities repositories.
Proof.
  intros Hin. unfold identities.
  apply (list_elem_of_fmap_2 (fun r => (Repository.id r, Repository.name r))).
  exact Hin.
Qed.

Lemma analyze_only_others repositories r' :
  r' ∈ analyze finditer repositories ->
  exists r,
    r ∈ repositories /\
    only_others (identities repositories) (Repository.id r) (Repository.name r)
      (fun kind => Repository.dependencies_of kind r) r'.
Proof.
  unfold analyze. destruct repositories as [|r0 rest];
    [intros H; inversion H|].
  set (repositories := r0 :: rest). clearbody repositories.
  set (ids := identities repositories).
  unfold _extract_api_endpoints.
  destruct (extract_from_spec finditer ids repositories ODict.empty)
    as [Hsrc Hall].
  { intros r. apply identities_elem_of. }
  { intros item info Hitem. inversion Hitem. }
  destruct (extract_from finditer ODict.empty repositories)
    as [api_endpoints reps1]. cbn [fst snd] in *.
  unfold _find_service_connections, _find_api_connections.
  set (reps2 := map (connect_repo finditer api_endpoints) reps1).
  intros Hin.
  apply (list_elem_of_fmap (service_repo finditer reps2 _)) in Hin
    as (r2 & -> & Hr2).
  apply (list_elem_of_fmap (connect_repo finditer api_endpoints)) in Hr2
    as (r1 & -> & Hr1).
  apply list_elem_of_lookup in Hr1 as [i Hi].
  destruct (Forall2_lookup_r _ _ _ _ _ Hall Hi) as (r & Hr & Hid & Hname & Hdeps).
  exists r. split; [apply list_elem_of_lookup; eauto|].
  apply service_repo_spec.
  - intros t Ht.
    apply (list_elem_of_fmap (connect_repo finditer api_endpoints)) in Ht
      as (t1 & -> & Ht1).
    apply list_elem_of_lookup in Ht1 as [j Hj].
    destruct (Forall2_lookup_r _ _ _ _ _ Hall Hj) as (t0 & Ht0 & Hid0 & Hname0 & _).
    assert (Hbase : only_others ids (Repository.id t0) (Repository.name t0)
                      (fun kind => Repository.dependencies_of kind t1) t1).
    { split; [exact Hid0|]. split; [exact Hname0|]. intros; now left. }
    destruct (connect_repo_spec finditer ids api_endpoints _ _ _ t1 Hsrc Hbase)
      as (-> & -> & _).
    apply identities_elem_of. apply list_elem_of_lookup. eauto.
  - apply connect_repo_spec; [exact Hsrc|].
    split; [exact Hid|]. split; [exact Hname|].
    intros kind x Hx. left. unfold Repository.dependencies_of in *.
    now rewrite <- Hdeps.
Qed.

End Analyze.

(** C7, as stated, fails when two repositories share a name: the two
    [backend] repositories have different identifiers, the second calls the
    endpoint the first declares, and after the analysis the second holds its
    own name among its repository dependencies. *)
Lemma same_name_gives_self_edge :
  exists r1 r2,
    analyze Examples.demo_finditer Examples.two_backends = [r1; r2] /\
    Repository.id r1 <> Repository.id r2 /\
    Repository.name r2 = "backend" /\
    Repository.dependencies_of "repositories" r2 = ["backend"] /\
    Repository.name r2 ∈ Repository.dependencies_of "repositories" r2.
Proof.
  eexists. eexists. split; [vm_compute; reflexivity|].
  split; [vm_compute; discriminate|].
  split; [vm_compute; reflexivity|]. split; [vm_compute; reflexivity|].
  apply list_elem_of_singleton. vm_compute. reflexivity.
Qed.

(** C7 (amended). The analyzer excludes self-references by identifier: after
    it has run, a record keeps its identifier and its name, and each of its
    dependencies, of either kind, was there before or is the name of a record
    of the list with another identifier. Hence, when no record with another
    identifier bears the name of R and R did not hold its own name before,
    R's name is in neither of its dependency lists afterwards. *)
Theorem no_self_edge_by_identifier finditer repositories r' :
  r' ∈ analyze finditer repositories ->
  exists r,
    r ∈ repositories /\
    Repository.id r' = Repository.id r /\
    Repository.name r' = Repository.name r /\
    (forall kind x,
       x ∈ Repository.dependencies_of kind r' ->
       x ∈ Repository.dependencies_of kind r \/
       names_another (identities repositories) (Repository.id r) x) /\
    ((forall t, t ∈ repositories ->
        Repository.id t <> Repository.id r ->
        Repository.name t <> Repository.name r) ->
     forall kind,
       Repository.name r ∉ Repository.dependencies_of kind r ->
       Repository.name r' ∉ Repository.dependencies_of kind r').
Proof.
  intros Hin.
  destruct (analyze_only_others finditer repositories r' Hin)
    as (r & Hr & Hid & Hname & Hdeps).
  exists r. repeat split; auto.
  intros Hunique kind Hbefore Hafter. rewrite Hname in Hafter.
  apply Hdeps in Hafter as [H|(i & Hi & Hne)]; [contradiction|].
  unfold identities in Hi.
  apply (list_elem_of_fmap (fun r => (Repository.id r, Repository.name r))) in Hi
    as (t & [= -> Ht] & Hin').
  now apply (Hunique t).
Qed.

Lemma no_self_edge_by_identifier_witness :
  exists r',
    r' ∈ analyze Examples.demo_finditer Examples.orders_and_checkout /\
    Repository.name r' = "checkout-service" /\
    Repository.dependencies_of "repositories" r' = ["orders-api"] /\
    Repository.name r' ∉ Repository.dependencies_of "repositories" r'.
Proof.
  set (rs := analyze Examples.demo_finditer Examples.orders_and_checkout).
  set (r' := nth 1 rs (Repository.init Examples.shop)).
  assert (Hin : r' ∈ rs).
  { apply list_elem_of_In. apply nth_In. vm_compute. lia. }
  assert (Hid2 : Repository.id r' = 2%Z) by (vm_compute; reflexivity).
  assert (Hn2 : Repository.name r' = "checkout-service")
    by (vm_compute; reflexivity).
  assert (Hd2 : Repository.dependencies_of "repositories" r' = ["orders-api"])
    by (vm_compute; reflexivity).
  exists r'. split; [exact Hin|]. split; [exact Hn2|]. split; [exact Hd2|].
  destruct (no_self_edge_by_identifier Examples.demo_finditer
              Examples.orders_and_checkout r' Hin)
    as (r & Hr & Hid & Hname & _ & Hno).
  apply Hno.
  - intros t Ht Hne. rewrite <- Hid, Hid2 in Hne. rewrite <- Hname, Hn2.
    unfold Examples.orders_and_checkout in Ht.
    apply elem_of_cons in Ht as [->|Ht].
    + intros H. vm_compute in H. discriminate H.
    + apply list_elem_of_singleton in Ht. subst t.
      exfalso. apply Hne. vm_compute. reflexivity.
  - unfold Examples.orders_and_checkout in Hr.
    apply elem_of_cons in Hr as [->|Hr].
    + intros H. vm_compute in H. inversion H.
    + apply list_elem_of_singleton in Hr. subst r.
      intros H. vm_compute in H. inversion H.
Defined.

End SelfEdgeFacts.

(** ** Connection analyzer: path normalization *)

Module NormalizeFacts.
Import PyStr PyStrFacts Connection.

(** *** Characters a string avoids *)

Lemma all_chars_app p s t :
  all_chars p (s +:+ t) = (all_chars p s && all_chars p t)%bool.
Proof.
  induction s as [|a s IH]; [reflexivity|].
  rewrite append_cons. simpl. now rewrite IH, andb_assoc.
Qed.

Lemma all_chars_weaken (p q : ascii -> bool) s :
  (forall c, p c = true -> q c = true) ->
  all_chars p s = true -> all_chars q s = true.
Proof.
  intros Hpq. induction s as [|a s IH]; [reflexivity|]. simpl.
  intros H. apply andb_prop in H as [Ha Hs].
  now rewrite (Hpq _ Ha), IH.
Qed.

Lemma plain_avoids x s :
  special x = true -> plain_name s = true -> avoids x s = true.
Proof.
  intros Hx Hs. unfold avoids. destruct s as [|a s]; [discriminate|].
  apply (all_chars_weaken (fun c => negb (special c))); [|exact Hs].
  intros c Hc. destruct (Ascii.eqb_spec c x) as [->|]; [|reflexivity].
  now rewrite Hx in Hc.
Qed.

Lemma plain_nonempty s : plain_name s = true -> exists a r, s = String a r.
Proof. destruct s as [|a r]; [discriminate|eauto]. Qed.

(** *** [rstrip] *)

Lemma rstrip_avoids c s : avoids c s = true -> rstrip c s = s.
Proof.
  induction s as [|a s IH]; [reflexivity|]. simpl. intros H.
  apply andb_prop in H as [Ha Hs]. rewrite (IH Hs).
  destruct s; [|reflexivity].
  destruct (Ascii.eqb a c); [discriminate|reflexivity].
Qed.

Lemma rstrip_app_nonempty c s t :
  rstrip c t <> "" -> rstrip c (s +:+ t) = s +:+ rstrip c t.
Proof.
  intros Ht. induction s as [|a s IH]; [reflexivity|].
  rewrite !append_cons. simpl. rewrite IH.
  destruct (s +:+ rstrip c t) eqn:Happ; [|reflexivity].
  destruct s; [|discriminate]. now rewrite append_nil_l in Happ.
Qed.

Lemma rstrip_slashes s k : rstrip "/" (s +:+ slashes k) = rstrip "/" s.
Proof.
  induction s as [|a s IH].
  - rewrite append_nil_l. induction k as [|k IHk]; [reflexivity|].
    simpl. now rewrite IHk.
  - rewrite append_cons. simpl. now rewrite IH.
Qed.

(** *** Segments and their text *)

Lemma avoids_app x s t : avoids x (s +:+ t) = (avoids x s && avoids x t)%bool.
Proof. apply all_chars_app. Qed.

Lemma text_avoids_slash seg :
  plain_name (segment_name seg) = true -> avoids "/" (segment_text seg) = true.
Proof.
  intros Hn. pose proof (plain_avoids "/" _ eq_refl Hn) as Ha.
  destruct seg; cbn [segment_text segment_name] in *;
    rewrite ?avoids_app, ?Ha; reflexivity.
Qed.

Lemma text_nonempty seg :
  plain_name (segment_name seg) = true ->
  exists a r, segment_text seg = String a r.
Proof.
  intros Hn. destruct seg; cbn [segment_text segment_name] in *;
    [now apply plain_nonempty|eexists; eexists; reflexivity..].
Qed.

Lemma render_shape segs : render segs = "" \/ exists r, render segs = String "/" r.
Proof. destruct segs; [now left|right; eexists; reflexivity]. Qed.

Lemma route_replace_if which segs :
  route segs -> route (map (replace_if which) segs).
Proof.
  unfold route. intros H. apply Forall_map.
  eapply Forall_impl; [exact H|]. intros seg Hseg. unfold replace_if.
  now destruct (which seg).
Qed.

Lemma rstrip_render segs : route segs -> rstrip "/" (render segs) = render segs.
Proof.
  induction 1 as [|seg rest Hseg Hrest IH]; [reflexivity|].
  cbn [render].
  destruct (text_nonempty seg Hseg) as (a & r & Htext).
  assert (Hinner : rstrip "/" (segment_text seg +:+ render rest)
                   = segment_text seg +:+ render rest).
  { destruct (render rest) as [|b rr] eqn:Hr.
    - rewrite append_nil_r. apply rstrip_avoids. now apply text_avoids_slash.
    - rewrite rstrip_app_nonempty; rewrite IH; [reflexivity|discriminate]. }
  rewrite rstrip_app_nonempty; rewrite Hinner; [reflexivity|].
  rewrite Htext. discriminate.
Qed.

(** *** No scheme in a route path *)

Lemma contains_scheme_skip t rest :
  avoids ":" t = true -> contains "://" (t +:+ rest) = contains "://" rest.
Proof.
  induction t as [|a t IH]; [reflexivity|].
  intros H. simpl in H. apply andb_prop in H as [Ha Ht].
  rewrite append_cons. cbn [contains startswith].
  rewrite Ascii.eqb_sym. apply negb_true_iff in Ha. rewrite Ha. now apply IH.
Qed.

Lemma contains_scheme_render segs :
  route segs -> contains "://" (render segs) = false.
Proof.
  induction 1 as [|seg rest Hseg Hrest IH]; [reflexivity|].
  cbn [render]. rewrite (contains_scheme_skip "/") by reflexivity.
  pose proof (plain_avoids ":" _ eq_refl Hseg) as Hc.
  destruct seg as [s|n|n|n]; cbn [segment_text segment_name] in *.
  - now rewrite contains_scheme_skip.
  - destruct (plain_nonempty n Hseg) as (d & n' & ->).
    pose proof (plain_avoids "/" _ eq_refl Hseg) as Hs.
    simpl in Hs. apply andb_prop in Hs as [Hd _].
    apply negb_true_iff in Hd.
    rewrite !append_cons, append_nil_l.
    cbn [contains startswith]. rewrite Ascii.eqb_refl, append_cons.
    cbn [startswith]. rewrite (Ascii.eqb_sym "/" d), Hd.
    rewrite <- append_cons. now rewrite contains_scheme_skip.
  - rewrite contains_scheme_skip; [exact IH|].
    now rewrite !avoids_app, Hc.
  - rewrite contains_scheme_skip; [exact IH|].
    now rewrite !avoids_app, Hc.
Qed.

(** *** The pass for [:name] *)

Lemma sub_colon_skip_text t rest :
  avoids ":" t = true ->
  sub_colon false (t +:+ rest) = t +:+ sub_colon false rest.
Proof.
  induction t as [|a t IH]; [reflexivity|].
  intros H. simpl in H. apply andb_prop in H as [Ha Ht].
  apply negb_true_iff in Ha.
  rewrite !append_cons. cbn [sub_colon]. rewrite Ha. now rewrite IH.
Qed.

Lemma sub_colon_inside n rest :
  avoids "/" n = true ->
  (rest = "" \/ exists r, rest = String "/" r) ->
  sub_colon true (n +:+ rest) = sub_colon false rest.
Proof.
  intros Hn Hrest. induction n as [|a n IH].
  - rewrite append_nil_l. destruct Hrest as [->|[r ->]]; reflexivity.
  - simpl in Hn. apply andb_prop in Hn as [Ha Hn].
    apply negb_true_iff in Ha.
    rewrite append_cons. cbn [sub_colon]. rewrite Ha. now apply IH.
Qed.

Lemma sub_colon_at_colon d r :
  Ascii.eqb d "/" = false ->
  sub_colon false (String ":" (String d r)) = ":param" +:+ sub_colon true (String d r).
Proof. intros H. simpl. rewrite H. reflexivity. Qed.

Lemma sub_colon_param n rest :
  plain_name n = true ->
  (rest = "" \/ exists r, rest = String "/" r) ->
  sub_colon false ((":" +:+ n) +:+ rest) = ":param" +:+ sub_colon false rest.
Proof.
  intros Hn Hrest. pose proof (plain_avoids "/" _ eq_refl Hn) as Hs.
  destruct (plain_nonempty n Hn) as (d & n' & ->).
  rewrite <- (sub_colon_inside (String d n') rest Hs Hrest).
  simpl in Hs. apply andb_prop in Hs as [Hd _]. apply negb_true_iff in Hd.
  change ((":" +:+ String d n') +:+ rest) with (String ":" (String d (n' +:+ rest))).
  now rewrite (sub_colon_at_colon d _ Hd).
Qed.

Lemma sub_colon_render segs :
  route segs ->
  sub_colon false (render segs) = render (map (replace_if is_colon) segs).
Proof.
  induction 1 as [|seg rest Hseg Hrest IH]; [reflexivity|].
  cbn [render map]. rewrite (sub_colon_skip_text "/") by reflexivity.
  f_equal.
  pose proof (plain_avoids ":" _ eq_refl Hseg) as Hc.
  destruct seg as [s|n|n|n]; cbn [segment_text segment_name replace_if is_colon] in *.
  - now rewrite sub_colon_skip_text, IH.
  - rewrite sub_colon_param, IH; [reflexivity|exact Hseg|apply render_shape].
  - rewrite sub_colon_skip_text, IH; [reflexivity|].
    now rewrite !avoids_app, Hc.
  - rewrite sub_colon_skip_text, IH; [reflexivity|].
    now rewrite !avoids_app, Hc.
Qed.

(** *** The passes for [<name>] and [{name}] *)

Section Group.

Variables (opening close : ascii) (which : Segment -> bool).

Hypothesis opening_not_slash : Ascii.eqb "/" opening = false.
Hypothesis close_special : special close = true.
Hypothesis others_avoid : forall seg,
  plain_name (segment_name seg) = true -> which seg = false ->
  avoids opening (segment_text seg) = true.
Hypothesis text_of_group : forall seg,
  which seg = true ->
  segment_text seg = String opening (segment_name seg +:+ String close "").

Lemma sub_group_skip_text t rest :
  avoids opening t = true ->
  sub_group opening close false (t +:+ rest)
  = t +:+ sub_group opening close false rest.
Proof.
  induction t as [|a t IH]; [reflexivity|].
  intros H. simpl in H. apply andb_prop in H as [Ha Ht].
  apply negb_true_iff in Ha.
  rewrite !append_cons. cbn [sub_group]. rewrite Ha. cbn [andb].
  now rewrite IH.
Qed.

Lemma closes_after_name seen n rest :
  avoids close n = true ->
  closes_after close seen (n +:+ String close rest)
  = match n with "" => seen | _ => true end.
Proof.
  revert seen. induction n as [|a n IH]; intros seen H.
  - rewrite append_nil_l. cbn [closes_after]. now rewrite Ascii.eqb_refl.
  - simpl in H. apply andb_prop in H as [Ha Hn]. apply negb_true_iff in Ha.
    rewrite append_cons. cbn [closes_after]. rewrite Ha, (IH true Hn).
    now destruct n.
Qed.

Lemma sub_group_inside n rest :
  avoids close n = true ->
  sub_group opening close true (n +:+ String close rest)
  = sub_group opening close false rest.
Proof.
  induction n as [|a n IH]; intros H.
  - rewrite append_nil_l. cbn [sub_group]. now rewrite Ascii.eqb_refl.
  - simpl in H. apply andb_prop in H as [Ha Hn]. apply negb_true_iff in Ha.
    rewrite append_cons. cbn [sub_group]. rewrite Ha. now apply IH.
Qed.

Lemma sub_group_param n rest :
  plain_name n = true ->
  sub_group opening close false (String opening (n +:+ String close rest))
  = ":param" +:+ sub_group opening close false rest.
Proof.
  intros Hn. pose proof (plain_avoids close _ close_special Hn) as Hc.
  cbn [sub_group]. rewrite Ascii.eqb_refl, (closes_after_name _ _ _ Hc).
  destruct (plain_nonempty n Hn) as (d & n' & ->). cbn [andb].
  now rewrite (sub_group_inside _ _ Hc).
Qed.

Lemma sub_group_render segs :
  route segs ->
  sub_group opening close false (render segs)
  = render (map (replace_if which) segs).
Proof.
  induction 1 as [|seg rest Hseg Hrest IH]; [reflexivity|].
  cbn [render map].
  rewrite (sub_group_skip_text "/")
    by (unfold avoids; cbn [all_chars]; now rewrite opening_not_slash).
  f_equal. unfold replace_if at 1.
  destruct (which seg) eqn:Hw.
  - rewrite (text_of_group seg Hw), append_cons, append_assoc.
    change (String close "" +:+ render rest) with (String close (render rest)).
    rewrite (sub_group_param _ _ Hseg), IH. reflexivity.
  - now rewrite (sub_group_skip_text _ _ (others_avoid seg Hseg Hw)), IH.
Qed.

End Group.

Lemma sub_angle_render segs :
  route segs ->
  sub_group "<" ">" false (render segs) = render (map (replace_if is_angle) segs).
Proof.
  apply sub_group_render; [reflexivity|reflexivity| |].
  - intros seg Hseg Hw. pose proof (plain_avoids "<" _ eq_refl Hseg) as Ha.
    destruct seg; try discriminate; cbn [segment_text segment_name] in *;
      rewrite ?avoids_app, ?Ha; reflexivity.
  - intros [s|n|n|n] Hw; try discriminate. reflexivity.
Qed.

Lemma sub_brace_render segs :
  route segs ->
  sub_group "{" "}" false (render segs) = render (map (replace_if is_brace) segs).
Proof.
  apply sub_group_render; [reflexivity|reflexivity| |].
  - intros seg Hseg Hw. pose proof (plain_avoids "{" _ eq_refl Hseg) as Ha.
    destruct seg; try discriminate; cbn [segment_text segment_name] in *;
      rewrite ?avoids_app, ?Ha; reflexivity.
  - intros [s|n|n|n] Hw; try discriminate. reflexivity.
Qed.

(** *** Normalization of a route path *)

Lemma placeholder_passes seg :
  replace_if is_brace (replace_if is_angle (replace_if is_colon seg))
  = placeholder seg.
Proof. now destruct seg. Qed.

Lemma placeholder_twice seg : placeholder (placeholder seg) = placeholder seg.
Proof. now destruct seg. Qed.

Lemma route_placeholder segs : route segs -> route (map placeholder segs).
Proof.
  unfold route. intros H. apply Forall_map.
  eapply Forall_impl; [exact H|]. intros seg Hseg. now destruct seg.
Qed.

(** The three passes on a text that holds a route path. *)
Lemma passes_render segs :
  route segs ->
  sub_group "{" "}" false
    (sub_group "<" ">" false (sub_colon false (render segs)))
  = render (map placeholder segs).
Proof.
  intros H.
  rewrite (sub_colon_render _ H).
  rewrite (sub_angle_render _ (route_replace_if is_colon _ H)).
  rewrite (sub_brace_render _
             (route_replace_if is_angle _ (route_replace_if is_colon _ H))).
  rewrite !map_map. f_equal. apply map_ext. intros seg.
  apply placeholder_passes.
Qed.

Lemma normalize_render segs k :
  route segs ->
  _normalize_path (render segs +:+ slashes k) = render (map placeholder segs).
Proof.
  intros H. unfold _normalize_path.
  rewrite rstrip_slashes, (rstrip_render _ H), (contains_scheme_render _ H).
  now apply passes_render.
Qed.

(** *** Scheme and host *)

Lemma contains_after sub a b : contains sub (a +:+ sub +:+ b) = true.
Proof.
  induction a as [|c a IH].
  - rewrite append_nil_l. destruct (sub +:+ b) eqn:H; cbn [contains];
      rewrite <- H, startswith_app; reflexivity.
  - rewrite append_cons. cbn [contains].
    rewrite IH. now destruct (startswith _ sub).
Qed.

Lemma split_not_nil c s : split c s <> [].
Proof.
  destruct s as [|a s]; [discriminate|]. simpl.
  destruct (Ascii.eqb a c); [discriminate|]. now destruct (split c s).
Qed.

Lemma split_field t rest :
  avoids "/" t = true ->
  split "/" (t +:+ String "/" rest) = t :: split "/" rest.
Proof.
  induction t as [|a t IH]; [reflexivity|].
  intros H. simpl in H. apply andb_prop in H as [Ha Ht].
  apply negb_true_iff in Ha.
  rewrite append_cons. cbn [split]. now rewrite Ha, (IH Ht).
Qed.

(** Joining what [split] gave with the separator gives the text back. *)
Lemma join_split s : join "/" (split "/" s) = s.
Proof.
  induction s as [|a s IH]; [reflexivity|]. cbn [split].
  pose proof (split_not_nil "/" s) as Hne.
  destruct (Ascii.eqb_spec a "/") as [->|Hne'].
  - destruct (split "/" s) as [|h tl] eqn:Hs; [contradiction|].
    cbn [join]. cbn [join] in IH. now rewrite IH.
  - destruct (split "/" s) as [|h tl] eqn:Hs; [contradiction|].
    destruct tl as [|h' tl']; cbn [join] in *.
    + now rewrite IH.
    + now rewrite append_cons, IH.
Qed.

Lemma normalize_with_host scheme host segs k :
  avoids "/" scheme = true ->
  avoids "/" host = true ->
  route segs ->
  segs <> [] ->
  _normalize_path (scheme +:+ "://" +:+ host +:+ render segs +:+ slashes k)
  = render (map placeholder segs).
Proof.
  intros Hscheme Hhost Hroute Hne.
  destruct segs as [|seg rest]; [contradiction|]. clear Hne.
  set (segs := seg :: rest) in *.
  assert (Hr : rstrip "/" (render segs +:+ slashes k) = render segs)
    by now rewrite rstrip_slashes, rstrip_render.
  unfold _normalize_path.
  replace (scheme +:+ "://" +:+ host +:+ render segs +:+ slashes k)
    with ((scheme +:+ "://" +:+ host) +:+ (render segs +:+ slashes k))
    by now rewrite !append_assoc.
  rewrite rstrip_app_nonempty by (rewrite Hr; discriminate).
  rewrite Hr, !append_assoc, contains_after.
  replace (scheme +:+ "://" +:+ host +:+ render segs)
    with ((scheme +:+ ":") +:+ String "/" ("" +:+ String "/"
            (host +:+ String "/" (segment_text seg +:+ render rest))))
    by now rewrite !append_assoc.
  rewrite split_field by (rewrite avoids_app, Hscheme; reflexivity).
  rewrite split_field by reflexivity.
  rewrite (split_field host) by exact Hhost.
  unfold slice_from. cbn [drop]. rewrite drop_0, join_split.
  change ("/" +:+ segment_text seg +:+ render rest) with (render segs).
  now apply passes_render.
Qed.

(** C6, as stated, fails: normalization is not idempotent for every string.
    A bracket group followed by more text becomes a placeholder with a
    tail, which the colon pattern swallows the second time; and an address
    that is only scheme and host becomes a single slash, which the second
    call strips. *)
Lemma normalize_path_not_idempotent :
  _normalize_path "/<a>b" = "/:paramb" /\
  _normalize_path (_normalize_path "/<a>b") = "/:param" /\
  _normalize_path "http://x/" = "/" /\
  _normalize_path (_normalize_path "http://x/") = "".
Proof. repeat split. Qed.

(** A parameter whose name holds a colon, as in [<int:id>] or [{id:int}],
    is cut at the colon by the first substitution and keeps its opening
    bracket: the names of a route are free of the special characters too. *)
Lemma parameter_name_with_colon :
  _normalize_path "/users/<int:id>" = "/users/<int:param" /\
  _normalize_path "/users/{id:int}" = "/users/{id:param".
Proof. split; reflexivity. Qed.

(** C6 (amended). On a route path, that is slash-separated non-empty
    segments, each a literal or one parameter written [:name], [<name>] or
    [{name}], the literal and the name being non-empty and free of the
    characters [/ : < > { }], followed by any number of trailing slashes,
    normalization strips the trailing slashes and turns every parameter into
    the placeholder; it is idempotent there; a scheme and host in front of a
    non-empty route path are dropped; and the three parameter syntaxes
    normalize equal. *)
Theorem normalize_path_on_routes segs k :
  route segs ->
  let p := render segs +:+ slashes k in
  _normalize_path p = render (map placeholder segs) /\
  _normalize_path (_normalize_path p) = _normalize_path p /\
  (forall scheme host,
     avoids "/" scheme = true -> avoids "/" host = true -> segs <> [] ->
     _normalize_path (scheme +:+ "://" +:+ host +:+ p) = _normalize_path p) /\
  _normalize_path "/users/:id" = _normalize_path "/users/{id}" /\
  _normalize_path "/users/{id}" = _normalize_path "/users/<id>".
Proof.
  intros Hroute p. subst p.
  pose proof (normalize_render segs k Hroute) as Hn.
  split; [exact Hn|]. split; [|split; [|split; reflexivity]].
  - rewrite Hn.
    rewrite <- (append_nil_r (render (map placeholder segs))) at 1.
    change "" with (slashes 0).
    rewrite (normalize_render _ 0 (route_placeholder _ Hroute)), map_map.
    f_equal. apply map_ext. intros seg. apply placeholder_twice.
  - intros scheme host Hs Hh Hne. rewrite Hn.
    now apply normalize_with_host.
Qed.

Lemma normalize_path_on_routes_witness :
  _normalize_path "/users/{id}/" = "/users/:param" /\
  _normalize_path (_normalize_path "/users/{id}/") = _normalize_path "/users/{id}/" /\
  _normalize_path "https://x/users/{id}/" = _normalize_path "/users/{id}/".
Proof.
  assert (Hroute : route [Literal "users"; BraceParam "id"])
    by (repeat constructor).
  destruct (normalize_path_on_routes [Literal "users"; BraceParam "id"] 1 Hroute)
    as (H1 & H2 & H3 & _).
  split; [exact H1|]. split; [exact H2|].
  apply (H3 "https" "x"); [reflexivity|reflexivity|discriminate].
Defined.

End NormalizeFacts.

(** ** The HTTP method of an endpoint observation *)

Module MethodFacts.
Import PyStr PyStrFacts Connection FoldFacts.

(** *** Case folding, character by character *)

Lemma lower_ascii_same_letter c : same_letter c (lower_ascii c) = true.
Proof.
  destruct c as [[] [] [] [] [] [] [] []]; vm_compute; reflexivity.
Qed.

Lemma same_letter_lower_ascii c k :
  upper_case (nat_of_ascii k) = false ->
  same_letter c k = true -> lower_ascii c = k.
Proof.
  intros Hk. unfold same_letter, lower_ascii. rewrite Hk.
  cbn [andb]. rewrite orb_false_r.
  fold (upper_case (nat_of_ascii c)).
  destruct (upper_case (nat_of_ascii c)) eqn:Hc; cbn [andb orb].
  - intros H. apply orb_prop in H as [H|H]; apply Nat.eqb_eq in H.
    + rewrite <- H in Hk. congruence.
    + rewrite <- H. apply ascii_nat_embedding.
  - rewrite orb_false_r. intros H. apply Nat.eqb_eq in H.
    rewrite <- (ascii_nat_embedding c), H. apply ascii_nat_embedding.
Qed.

Lemma lower_same_text w : same_text w (lower w) = true.
Proof.
  induction w as [|c w IH]; [reflexivity|].
  cbn [lower same_text]. now rewrite lower_ascii_same_letter, IH.
Qed.

Lemma same_text_lower w kw :
  lower_cased kw = true -> same_text w kw = true -> lower w = kw.
Proof.
  revert kw. induction w as [|c w IH]; intros [|k kw]; cbn [same_text lower];
    try discriminate; [reflexivity|].
  unfold lower_cased. cbn [all_chars]. intros Hk H.
  apply andb_prop in Hk as [Hk Hkw]. apply andb_prop in H as [Hc Hw].
  apply negb_true_iff in Hk.
  now rewrite (same_letter_lower_ascii c k Hk Hc), (IH kw Hkw Hw).
Qed.

(** *** Occurrence *)

Lemma contains_spec sub s :
  contains sub s = true <-> exists before after, s = before +:+ sub +:+ after.
Proof.
  split.
  - induction s as [|c s IH]; cbn [contains].
    + destruct (startswith "" sub) eqn:H; [|discriminate]. intros _.
      apply startswith_split in H. exists "", (substr_from (String.length sub) "").
      now rewrite append_nil_l.
    + destruct (startswith (String c s) sub) eqn:H.
      * intros _. apply startswith_split in H.
        exists "", (substr_from (String.length sub) (String c s)).
        now rewrite append_nil_l.
      * intros Hc. destruct (IH Hc) as (before & after & ->).
        exists (String c before), after. now rewrite append_cons.
  - intros (before & after & ->). induction before as [|c before IH].
    + rewrite append_nil_l. destruct (sub +:+ after) eqn:E; cbn [contains];
        rewrite <- E, startswith_app; reflexivity.
    + rewrite append_cons. cbn [contains]. rewrite IH.
      now destruct (startswith _ sub).
Qed.

(** A lower-cased text cut in two is the lower-casing of a cut of the
    text. *)
Lemma lower_cut t x y :
  lower t = x +:+ y -> exists t1 t2, t = t1 +:+ t2 /\ lower t1 = x /\ lower t2 = y.
Proof.
  revert t. induction x as [|a x IH]; intros t.
  - rewrite append_nil_l. intros H. exists "", t. now rewrite append_nil_l.
  - destruct t as [|c t]; cbn [lower]; rewrite append_cons; [discriminate|].
    intros [= Ha H]. destruct (IH t H) as (t1 & t2 & -> & H1 & H2).
    exists (String c t1), t2. rewrite append_cons. cbn [lower].
    now rewrite Ha, H1.
Qed.

Lemma lower_over_app a b : lower (a +:+ b) = lower a +:+ lower b.
Proof.
  induction a as [|c a IH]; [now rewrite !append_nil_l|].
  cbn [lower]. now rewrite !append_cons, <- IH.
Qed.

(** The test of the code, [keyword in text.lower()], is the occurrence of
    the keyword in some casing. *)
Lemma contains_lower_mentions keyword text :
  lower_cased keyword = true ->
  contains keyword (lower text) = true <-> mentions keyword text.
Proof.
  intros Hkw. rewrite contains_spec. unfold mentions. split.
  - intros (x & y & H).
    apply lower_cut in H as (before & rest & -> & _ & H).
    apply lower_cut in H as (word & after & -> & Hw & _).
    exists before, word, after. split; [reflexivity|].
    rewrite <- Hw. apply lower_same_text.
  - intros (before & word & after & -> & Hw).
    exists (lower before), (lower after).
    now rewrite !lower_over_app, (same_text_lower word keyword Hkw Hw).
Qed.

(** *** The client pass records no endpoint *)

Lemma add_dependency_keeps_apis dep_type n x :
  Repository.apis (Repository.add_dependency dep_type n x) = Repository.apis x.
Proof.
  unfold Repository.add_dependency.
  destruct (Repository.str_in n _); reflexivity.
Qed.

Lemma connect_match_keeps_apis api_endpoints repo m :
  Repository.apis (connect_match api_endpoints repo m) = Repository.apis repo.
Proof.
  unfold connect_match. destruct (truthy_str (match_path m)); [|reflexivity].
  apply (fold_left_invariant
           (fun x => Repository.apis x = Repository.apis repo)); [|reflexivity].
  intros x item _ Hx. unfold connect_infos.
  apply (fold_left_invariant
           (fun x => Repository.apis x = Repository.apis repo)); [|exact Hx].
  intros y info _ Hy. destruct (negb _); [|exact Hy].
  now rewrite add_dependency_keeps_apis.
Qed.

(** C10. For a match of an endpoint pattern, on ASCII text, the observation
    appended to the record carries a method chosen from the whole matched
    text by tests in the order POST, PUT, DELETE, PATCH, each asking whether
    the keyword occurs in some casing, with GET when none does; an earlier
    keyword wins over a later one, so a delete route whose text holds
    [OutPut] is recorded as PUT. A match of a client pattern records no
    observation and no method: the client pass leaves the endpoints of the
    record as they are. *)
Theorem http_method_precedence file_path endpoints api_endpoints repo m :
  is_ascii (group0 m) = true ->
  truthy_str (match_path m) = true ->
  let text := group0 m in
  (exists e,
     Repository.apis (snd (index_match file_path (endpoints, repo) m))
     = Repository.apis repo ++ [e] /\
     (mentions "post" text -> Repository.ep_method e = "POST") /\
     (~ mentions "post" text -> mentions "put" text ->
      Repository.ep_method e = "PUT") /\
     (~ mentions "post" text -> ~ mentions "put" text ->
      mentions "delete" text -> Repository.ep_method e = "DELETE") /\
     (~ mentions "post" text -> ~ mentions "put" text ->
      ~ mentions "delete" text -> mentions "patch" text ->
      Repository.ep_method e = "PATCH") /\
     (~ mentions "post" text -> ~ mentions "put" text ->
      ~ mentions "delete" text -> ~ mentions "patch" text ->
      Repository.ep_method e = "GET")) /\
  Repository.apis (connect_match api_endpoints repo m) = Repository.apis repo.
Proof.
  intros _ Hpath text. split; [|apply connect_match_keeps_apis].
  unfold index_match. rewrite Hpath.
  cbn [snd Repository.add_api_endpoint Repository.with_apis Repository.apis].
  eexists. split; [reflexivity|].
  cbn [Repository.ep_method]. unfold http_method. fold text.
  pose proof (contains_lower_mentions "post" text eq_refl) as Hpost.
  pose proof (contains_lower_mentions "put" text eq_refl) as Hput.
  pose proof (contains_lower_mentions "delete" text eq_refl) as Hdelete.
  pose proof (contains_lower_mentions "patch" text eq_refl) as Hpatch.
  destruct (contains "post" (lower text));
    [repeat split; intros; try reflexivity; exfalso; intuition|].
  destruct (contains "put" (lower text));
    [repeat split; intros; try reflexivity; exfalso; intuition; discriminate|].
  destruct (contains "delete" (lower text));
    [repeat split; intros; try reflexivity; exfalso; intuition; discriminate|].
  destruct (contains "patch" (lower text));
    repeat split; intros; try reflexivity; exfalso; intuition; discriminate.
Qed.

Lemma http_method_precedence_witness :
  let m := {| group0 := "APP.DELETE('/Api/OutPut'";
              groups := [Some "DELETE"; Some "/Api/OutPut"] |} in
  let repo := Repository.init (Examples.demo_project 1 "orders" (ok []) Examples.no_files) in
  exists e,
    Repository.apis (snd (index_match "app.js" ([], repo) m)) = [e] /\
    Repository.ep_method e = "PUT".
Proof.
  intros m repo.
  destruct (http_method_precedence "app.js" [] [] repo m eq_refl eq_refl)
    as [(e & He & Hpost & Hput & _) _].
  exists e. split; [exact He|]. apply Hput.
  - intros (before & word & after & Htext & Hword).
    assert (Hc : contains "post" (lower (group0 m)) = true).
    { apply (contains_lower_mentions "post" (group0 m) eq_refl).
      now exists before, word, after. }
    vm_compute in Hc. discriminate Hc.
  - exists "APP.DELETE('/Api/Out", "Put", "'". split; reflexivity.
Defined.

(** The delete route on [/api/output], as a match of the Express pattern. *)
Lemma delete_output_is_recorded_as_put :
  http_method "app.delete('/api/output'" = "PUT" /\
  http_method "APP.DELETE('/Api/OutPut'" = "PUT" /\
  http_method "@DeleteMapping('/items'" = "DELETE".
Proof. repeat split. Qed.

End MethodFacts.

(** ** The report builder writes to its own objects only *)

Module PurityFacts.
Import Objects.

Section Frame.

Variable g : list Obj.

Lemma wp_ret {A} (a : A) (Q : A -> list Obj -> Prop) l :
  Q a l -> wp g (ret a) Q l.
Proof. intros H. split; [reflexivity|exact H]. Qed.

Lemma wp_throw {A} e (Q : A -> list Obj -> Prop) l : wp g (throw e) Q l.
Proof. split; [reflexivity|exact I]. Qed.

Lemma wp_lift {A} (r : Exc A) (Q : A -> list Obj -> Prop) l :
  (forall a, r = inr a -> Q a l) -> wp g (lift r) Q l.
Proof.
  intros H. split; [reflexivity|]. unfold lift. cbn.
  destruct r; [exact I|]. now apply H.
Qed.

Lemma wp_bind {A B} (c : M A) (k : A -> M B) (Q : B -> list Obj -> Prop) l :
  wp g c (fun a l' => wp g (k a) Q l') l -> wp g (bind c k) Q l.
Proof.
  unfold wp, bind.
  destruct (c {| globals := g; locals := l |}) as [[g' l'] [e|a]]; cbn.
  - intros [-> _]. split; [reflexivity|exact I].
  - intros [-> H]. exact H.
Qed.

Lemma wp_mono {A} (c : M A) (Q Q' : A -> list Obj -> Prop) l :
  (forall a l', Q a l' -> Q' a l') -> wp g c Q l -> wp g c Q' l.
Proof.
  unfold wp. intros HQ [Hg H]. split; [exact Hg|].
  destruct (snd _); [exact I|]. now apply HQ.
Qed.

Lemma wp_reads {A} (c : M A) (Q : A -> list Obj -> Prop) l :
  reads c -> (forall a, Q a l) -> wp g c Q l.
Proof.
  unfold wp. intros Hc HQ.
  rewrite (Hc {| globals := g; locals := l |}). cbn.
  split; [reflexivity|]. destruct (snd _); [exact I|apply HQ].
Qed.

Lemma wp_safe {A} (c : M A) (Q : A -> list Obj -> Prop) l :
  safe g c -> (forall a l', Q a l') -> wp g c Q l.
Proof.
  intros Hc HQ. apply (wp_mono c (fun _ _ => True)); [|apply Hc].
  intros a l' _. apply HQ.
Qed.

Lemma wp_deref loc (Q : Obj -> list Obj -> Prop) l :
  (forall o,
     match loc with G n => g !! n = Some o | L n => l !! n = Some o end ->
     Q o l) ->
  wp g (deref loc) Q l.
Proof.
  intros H. unfold wp, deref. cbn.
  destruct loc as [n|n]; cbn.
  - destruct (g !! n) eqn:E; cbn; (split; [reflexivity|]); [now apply H|exact I].
  - destruct (l !! n) eqn:E; cbn; (split; [reflexivity|]); [now apply H|exact I].
Qed.

Lemma wp_new o (Q : PV -> list Obj -> Prop) l :
  Q (PRef (L (length l))) (l ++ [o]) -> wp g (new o) Q l.
Proof. intros H. split; [reflexivity|exact H]. Qed.

Lemma wp_assign n o (Q : unit -> list Obj -> Prop) l :
  Q tt (<[n := o]> l) -> wp g (assign (L n) o) Q l.
Proof. intros H. split; [reflexivity|exact H]. Qed.

Lemma wp_for_each {A} (Inv : list Obj -> Prop) (xs : list A) body
    (Q : unit -> list Obj -> Prop) l :
  Inv l ->
  (forall x l0, x ∈ xs -> Inv l0 -> wp g (body x) (fun _ l' => Inv l') l0) ->
  (forall l', Inv l' -> Q tt l') ->
  wp g (for_each xs body) Q l.
Proof.
  intros HI Hbody HQ. revert l HI.
  induction xs as [|x rest IH]; intros l HI; cbn [for_each].
  - apply wp_ret. now apply HQ.
  - apply wp_bind. eapply wp_mono; [|apply (Hbody x l); [left|exact HI]].
    intros [] l' HI'. apply IH; [|exact HI'].
    intros y l0 Hy. apply Hbody. now right.
Qed.

(** *** Computations that only read *)

Lemma reads_ret {A} (a : A) : reads (ret a).
Proof. intros s. reflexivity. Qed.

Lemma reads_throw {A} e : reads (@throw A e).
Proof. intros s. reflexivity. Qed.

Lemma reads_lift {A} (r : Exc A) : reads (lift r).
Proof. intros s. reflexivity. Qed.

Lemma reads_bind {A B} (c : M A) (k : A -> M B) :
  reads c -> (forall a, reads (k a)) -> reads (bind c k).
Proof.
  intros Hc Hk s. unfold bind. specialize (Hc s).
  destruct (c s) as [s' [e|a]]; cbn in *; subst s'; [reflexivity|apply Hk].
Qed.

Lemma reads_deref loc : reads (deref loc).
Proof. intros s. unfold deref. now destruct (match loc with G _ => _ | L _ => _ end). Qed.

Lemma reads_no_method {A} o name : reads (@no_method A o name).
Proof.
  unfold no_method. destruct o; try apply reads_throw.
  destruct (assoc _ _); apply reads_throw.
Qed.

Ltac reads_step :=
  first [ apply reads_ret | apply reads_throw | apply reads_lift
        | apply reads_deref | apply reads_no_method
        | apply reads_bind; [|intros ?] ].

Lemma reads_hash_key k : reads (hash_key k).
Proof.
  unfold hash_key. destruct k; try apply reads_ret.
  apply reads_bind; [apply reads_deref|]. intros [ | | ]; reads_step.
Qed.

Lemma reads_attribute v name : reads (attribute v name).
Proof.
  unfold attribute. destruct v; try apply reads_throw.
  apply reads_bind; [apply reads_deref|]. intros [ | | attrs]; try reads_step.
  destruct (assoc _ _); reads_step.
Qed.

Lemma reads_truth v : reads (truth v).
Proof.
  unfold truth. destruct v; try apply reads_ret.
  apply reads_bind; [apply reads_deref|]. intros [ | | ]; reads_step.
Qed.

Lemma reads_len v : reads (len v).
Proof.
  unfold len. destruct v; try reads_step.
  apply reads_deref. destruct a; reads_step.
Qed.

Lemma reads_iterate v : reads (iterate v).
Proof.
  unfold iterate. destruct v; try reads_step.
  apply reads_deref. destruct a; reads_step.
Qed.

Lemma reads_items v : reads (items v).
Proof.
  unfold items. destruct v; try reads_step.
  apply reads_deref. destruct a; reads_step.
Qed.

Lemma reads_contains v x : reads (contains v x).
Proof.
  unfold contains. destruct v; try reads_step.
  - destruct x; reads_step.
  - apply reads_deref.
  - destruct a; try reads_step. apply reads_hash_key. reads_step.
Qed.

Lemma reads_dict_get v k d : reads d -> reads (dict_get v k d).
Proof.
  intros Hd. unfold dict_get. destruct v; try reads_step.
  apply reads_deref. destruct a; try reads_step.
  exact Hd. reads_step. apply reads_hash_key. reads_step.
Qed.

Lemma reads_sort_key v : reads (sort_key v).
Proof. unfold sort_key. destruct (number v); reads_step. Qed.

Lemma reads_for_all {A B} (xs : list A) (f : A -> M B) :
  (forall x, reads (f x)) -> reads (for_all xs f).
Proof.
  intros Hf. induction xs as [|x rest IH]; cbn [for_all]; [apply reads_ret|].
  apply reads_bind; [apply Hf|]. intros y.
  apply reads_bind; [exact IH|]. intros ys. apply reads_ret.
Qed.

Lemma reads_most_common n v : reads (most_common n v).
Proof.
  unfold most_common. destruct v; try reads_step.
  apply reads_deref. destruct a as [ |[ | | ] entries| ]; try reads_step.
  destruct entries as [|e1 [|e2 rest]]; try reads_step.
  apply reads_for_all. intros x. apply reads_sort_key. reads_step.
Qed.

Lemma reads_count_scanned repos total : reads (count_scanned repos total).
Proof.
  revert total. induction repos as [|repo rest IH]; intros total;
    cbn [count_scanned]; [apply reads_ret|].
  apply reads_bind; [apply reads_attribute|]. intros s.
  apply reads_bind; [apply reads_truth|]. intros b. apply IH.
Qed.

(** *** The operations that write *)

Hypothesis Hg : no_defaultdict g = true.

Lemma global_not_defaultdict n entries :
  g !! n = Some (PyDict defaultdict entries) -> False.
Proof.
  intros Hn. unfold no_defaultdict in Hg.
  rewrite forallb_forall in Hg.
  specialize (Hg (PyDict defaultdict entries)).
  assert (Hin : In (PyDict defaultdict entries) g).
  { apply list_elem_of_In. eapply list_elem_of_lookup_2. exact Hn. }
  specialize (Hg Hin). discriminate.
Qed.

(** [v[k]] either reads, or, on a [defaultdict] of the frame that lacks
    [k], creates a list and stores it under [k]. *)
Lemma wp_subscript v k (Q : PV -> list Obj -> Prop) l :
  (forall x,
     (forall n kind entries,
        v = PRef (L n) -> l !! n = Some (PyDict kind entries) ->
        kind <> Counter -> lookup_key k entries = Some x) ->
     Q x l) ->
  (forall n entries,
     v = PRef (L n) -> l !! n = Some (PyDict defaultdict entries) ->
     lookup_key k entries = None ->
     Q (PRef (L (length l)))
       (<[n := PyDict defaultdict (entries ++ [(k, PRef (L (length l)))])]>
          (l ++ [PyList []]))) ->
  wp g (subscript v k) Q l.
Proof.
  intros Hread Hmiss. unfold subscript.
  destruct v as [ | | | |s|loc]; try apply wp_throw.
  - apply wp_bind, wp_lift. intros i _.
    destruct (_ !! i); [|apply wp_throw].
    apply wp_ret, Hread. intros; discriminate.
  - apply wp_bind, wp_deref. intros o Ho.
    destruct o as [items|kind entries|attrs]; [| |apply wp_throw].
    + apply wp_bind, wp_lift. intros i _.
      destruct (items !! i); [|apply wp_throw].
      apply wp_ret, Hread. intros n kind entries [= ->] Hn. congruence.
    + apply wp_bind, wp_reads; [apply reads_hash_key|]. intros _.
      destruct (lookup_key k entries) eqn:Hk.
      * apply wp_ret, Hread. intros n kind' entries' [= ->] Hn _.
        rewrite Hn in Ho. now inversion Ho; subst.
      * destruct kind; [apply wp_throw| |].
        -- destruct loc as [n|n].
           ++ exfalso. eapply global_not_defaultdict. exact Ho.
           ++ apply wp_bind, wp_new. cbv beta.
              apply wp_bind, wp_assign. cbv beta. apply wp_ret.
              now apply Hmiss.
        -- apply wp_ret, Hread. intros n kind' entries' [= ->] Hn Hc.
           rewrite Hn in Ho. inversion Ho; subst. congruence.
Qed.

Lemma wp_no_method {A} o name (Q : A -> list Obj -> Prop) l :
  wp g (no_method o name) Q l.
Proof.
  unfold no_method. destruct o; try apply wp_throw.
  destruct (assoc _ _); apply wp_throw.
Qed.

(** [v.append(x)] on anything but a global. *)
Lemma wp_append v x (Q : unit -> list Obj -> Prop) l :
  (forall n, v <> PRef (G n)) ->
  (forall n items,
     v = PRef (L n) -> l !! n = Some (PyList items) ->
     Q tt (<[n := PyList (items ++ [x])]> l)) ->
  wp g (append v x) Q l.
Proof.
  intros Hv HQ. unfold append.
  destruct v as [ | | | | |[n|n]]; try apply wp_throw.
  - now destruct (Hv n).
  - apply wp_bind, wp_deref. intros o Ho.
    destruct o as [items|kind entries|attrs];
      try apply wp_no_method.
    apply wp_assign. now apply HQ.
Qed.

(** [v[k] = x] on anything but a global. *)
Lemma wp_set_item v k x (Q : unit -> list Obj -> Prop) l :
  (forall n, v <> PRef (G n)) ->
  (forall n kind entries,
     v = PRef (L n) -> l !! n = Some (PyDict kind entries) ->
     Q tt (<[n := PyDict kind (store_key k x entries)]> l)) ->
  (forall n items i,
     v = PRef (L n) -> l !! n = Some (PyList items) ->
     Q tt (<[n := PyList (<[i := x]> items)]> l)) ->
  wp g (set_item v k x) Q l.
Proof.
  intros Hv Hdict Hlist. unfold set_item.
  destruct v as [ | | | | |[n|n]]; try apply wp_throw.
  - now destruct (Hv n).
  - apply wp_bind, wp_deref. intros o Ho.
    destruct o as [items|kind entries|attrs]; [| |apply wp_throw].
    + apply wp_bind, wp_lift. intros i _. apply wp_assign. now apply Hlist.
    + apply wp_bind, wp_reads; [apply reads_hash_key|]. intros _.
      apply wp_assign. now apply Hdict.
Qed.

(** [v.get(k, d)] writes what evaluating [d] writes. *)
Lemma wp_dict_get v k d (Q : PV -> list Obj -> Prop) l :
  wp g d (fun _ l' => forall x, Q x l') l ->
  wp g (dict_get v k d) Q l.
Proof.
  intros Hd. unfold dict_get.
  destruct v as [ | | | | |loc]; try apply wp_throw.
  apply wp_bind, wp_deref. intros o Ho.
  destruct o as [items|kind entries|attrs];
    try apply wp_no_method.
  apply wp_bind. eapply wp_mono; [|exact Hd]. cbv beta. intros x l' HQ.
  apply wp_bind, wp_reads; [apply reads_hash_key|]. intros _.
  apply wp_ret, HQ.
Qed.

(** *** Computations that write to locals only *)

Lemma safe_reads {A} (c : M A) : reads c -> safe g c.
Proof. intros Hc l. now apply wp_reads. Qed.

Lemma safe_bind {A B} (c : M A) (k : A -> M B) :
  safe g c -> (forall a, safe g (k a)) -> safe g (bind c k).
Proof.
  intros Hc Hk l. apply wp_bind. apply wp_safe; [exact Hc|].
  intros a l'. apply Hk.
Qed.

Lemma safe_new o : safe g (new o).
Proof. intros l. now apply wp_new. Qed.

Lemma safe_for_each {A} (xs : list A) body :
  (forall x, safe g (body x)) -> safe g (for_each xs body).
Proof.
  intros Hbody l. apply (wp_for_each (fun _ => True)); auto.
  intros x l0 _ _. apply Hbody.
Qed.

Lemma safe_subscript v k : safe g (subscript v k).
Proof. intros l. now apply wp_subscript. Qed.

Lemma safe_set_item n k x : safe g (set_item (PRef (L n)) k x).
Proof. intros l. now apply wp_set_item. Qed.

Lemma safe_append n x : safe g (append (PRef (L n)) x).
Proof. intros l. now apply wp_append. Qed.

Lemma safe_sorted_by_count v : safe g (sorted_by_count v).
Proof.
  unfold sorted_by_count.
  apply safe_bind; [apply safe_reads, reads_iterate|]. intros xs.
  apply safe_bind.
  { apply safe_reads, reads_for_all. intros x.
    apply reads_dict_get, reads_ret. }
  intros keys. destruct xs as [|x1 [|x2 rest]]; try apply safe_new.
  apply safe_bind.
  { apply safe_reads, reads_for_all. intros x. apply reads_sort_key. }
  intros qs. apply safe_new.
Qed.

Lemma safe_empty_report : safe g empty_report.
Proof.
  unfold empty_report.
  repeat (apply safe_bind; [apply safe_new|intros ?]). apply safe_new.
Qed.

Lemma wp_seq {A B} (Inv : list Obj -> Prop) (c : M A) (k : A -> M B)
    (Q : B -> list Obj -> Prop) l :
  wp g c (fun _ l' => Inv l') l ->
  (forall a l', Inv l' -> wp g (k a) Q l') ->
  wp g (bind c k) Q l.
Proof.
  intros Hc Hk. apply wp_bind. eapply wp_mono; [|exact Hc].
  intros a l' HI. now apply Hk.
Qed.

Ltac reader :=
  first [ apply reads_attribute | apply reads_truth | apply reads_len
        | apply reads_iterate | apply reads_items | apply reads_contains
        | apply reads_dict_get, reads_ret | apply reads_hash_key
        | apply reads_count_scanned | apply reads_most_common ].

Ltac rd := apply wp_bind, wp_reads; [reader|intros ?].

Tactic Notation "rd" "as" ident(x) :=
  apply wp_bind, wp_reads; [reader|intros x].

(** *** [_generate_documentation_summary] *)

Lemma equal_str a s : equal a (PStr s) = true -> a = PStr s.
Proof.
  unfold equal. destruct a; cbn; try discriminate.
  intros H. apply String.eqb_eq in H. now subst.
Qed.

Lemma lookup_store_key_other s s' x entries :
  s <> s' ->
  lookup_key (PStr s) (store_key (PStr s') x entries)
  = lookup_key (PStr s) entries.
Proof.
  intros Hne. induction entries as [|[k v] rest IH]; cbn.
  - destruct (String.eqb_spec s' s); [congruence|reflexivity].
  - destruct (equal k (PStr s')) eqn:E'; cbn.
    + apply equal_str in E'. subst k. cbn.
      destruct (String.eqb_spec s' s); [congruence|reflexivity].
    + now rewrite IH.
Qed.

Lemma documenting_app ds l l2 : documenting ds l -> documenting ds (l ++ l2).
Proof.
  intros (entries & l1 & l2' & Hds & H1 & H2).
  exists entries, l1, l2'. split; [|now split].
  now apply lookup_app_l_Some.
Qed.

Lemma documenting_insert_other ds l n o o' :
  documenting ds l -> l !! n = Some o -> shape o <> dict_shape dict ->
  documenting ds (<[n := o']> l).
Proof.
  intros (entries & l1 & l2 & Hds & H1 & H2) Hn Hshape.
  exists entries, l1, l2. split; [|now split].
  rewrite list_lookup_insert_ne; [exact Hds|].
  intros ->. rewrite Hds in Hn. inversion Hn; subst. now apply Hshape.
Qed.

Lemma doc_subscript ds v k (Q : PV -> list Obj -> Prop) l :
  documenting ds l ->
  (forall x l',
     documenting ds l' ->
     (v = PRef (L ds) ->
      k = PStr "setup_instructions" \/ k = PStr "architecture_overview" ->
      exists n, x = PRef (L n)) ->
     Q x l') ->
  wp g (subscript v k) Q l.
Proof.
  intros Hd HQ. apply wp_subscript.
  - intros x Hx. apply HQ; [exact Hd|]. intros -> Hk.
    destruct Hd as (entries & l1 & l2 & Hds & H1 & H2).
    specialize (Hx ds dict entries eq_refl Hds ltac:(discriminate)).
    destruct Hk as [-> | ->]; [rewrite H1 in Hx|rewrite H2 in Hx];
      inversion Hx; eauto.
  - intros n entries -> Hn Hk. apply HQ.
    + eapply documenting_insert_other.
      * apply documenting_app. exact Hd.
      * apply lookup_app_l_Some. exact Hn.
      * discriminate.
    + intros [= <-] _. destruct Hd as (entries' & l1 & l2 & Hds & _).
      congruence.
Qed.

Lemma doc_increment ds s l :
  documenting ds l ->
  s <> "setup_instructions" -> s <> "architecture_overview" ->
  wp g (increment (PRef (L ds)) (PStr s)) (fun _ l' => documenting ds l') l.
Proof.
  intros Hd Hs1 Hs2. unfold increment.
  apply wp_bind, (doc_subscript ds); [exact Hd|]. clear l Hd.
  intros c l Hd _. apply wp_bind, wp_lift. intros c' _.
  destruct Hd as (entries & l1 & l2 & Hds & H1 & H2).
  apply wp_set_item; [discriminate| |].
  - intros n kind entries' [= <-] Hn. rewrite Hds in Hn.
    inversion Hn; subst kind entries'.
    exists (store_key (PStr s) c' entries), l1, l2. split; [|split].
    + apply list_lookup_insert_eq. eapply lookup_lt_Some. exact Hds.
    + rewrite lookup_store_key_other; [exact H1|congruence].
    + rewrite lookup_store_key_other; [exact H2|congruence].
  - intros n items i [= <-] Hn. congruence.
Qed.

Lemma doc_note_document ds key repo doc l :
  documenting ds l ->
  key = "setup_instructions" \/ key = "architecture_overview" ->
  wp g (note_document (PRef (L ds)) key repo doc)
    (fun _ l' => documenting ds l') l.
Proof.
  intros Hd Hkey. unfold note_document.
  apply wp_bind, (doc_subscript ds); [exact Hd|]. clear l Hd.
  intros target l Hd Ht.
  destruct (Ht eq_refl) as [n ->]; [destruct Hkey as [-> | ->]; auto|].
  rd. rd. rd. apply wp_bind, wp_new. cbv beta.
  apply wp_append; [discriminate|].
  intros n' items [= <-] Hn.
  eapply documenting_insert_other;
    [apply documenting_app; exact Hd|exact Hn|discriminate].
Qed.

Lemma doc_repository ds repo l :
  documenting ds l ->
  wp g (document_repository (PRef (L ds)) repo)
    (fun _ l' => documenting ds l') l.
Proof.
  intros Hd. unfold document_repository.
  rd. rd. destruct (negb _); [now apply wp_ret|].
  rd. apply wp_bind, (doc_subscript ds); [exact Hd|]. clear l Hd.
  intros readme l Hd _.
  apply (wp_seq (documenting ds)).
  { destruct readme; try (apply doc_increment; [exact Hd|discriminate..]).
    now apply wp_ret. }
  clear l Hd. intros _ l Hd.
  rd. apply wp_bind, (doc_subscript ds); [exact Hd|]. clear l Hd.
  intros api_docs l Hd _. rd as has_api.
  apply (wp_seq (documenting ds)).
  { destruct has_api; [apply doc_increment; [exact Hd|discriminate..]|].
    now apply wp_ret. }
  clear l Hd. intros _ l Hd.
  rd. apply wp_bind, (doc_subscript ds); [exact Hd|]. clear l Hd.
  intros setup l Hd _. rd as has_setup.
  apply (wp_seq (documenting ds)).
  { destruct has_setup; [|now apply wp_ret].
    apply (wp_seq (documenting ds));
      [apply doc_increment; [exact Hd|discriminate..]|].
    clear l Hd. intros _ l Hd.
    rd. apply wp_bind, (doc_subscript ds); [exact Hd|]. clear l Hd.
    intros setups l Hd _. rd.
    apply (wp_for_each (documenting ds)); [exact Hd| |auto].
    intros x l0 _ Hd0. apply doc_note_document; auto. }
  clear l Hd. intros _ l Hd.
  rd. apply wp_bind, (doc_subscript ds); [exact Hd|]. clear l Hd.
  intros architecture l Hd _. rd as has_arch.
  destruct has_arch; [|now apply wp_ret].
  apply (wp_seq (documenting ds));
    [apply doc_increment; [exact Hd|discriminate..]|].
  clear l Hd. intros _ l Hd.
  rd. apply wp_bind, (doc_subscript ds); [exact Hd|]. clear l Hd.
  intros archs l Hd _. rd.
  apply (wp_for_each (documenting ds)); [exact Hd| |auto].
  intros x l0 _ Hd0. apply doc_note_document; auto.
Qed.

Lemma safe_documentation_summary repositories :
  safe g (_generate_documentation_summary repositories).
Proof.
  intros l. unfold _generate_documentation_summary.
  rd. apply wp_bind, wp_new. cbv beta. apply wp_bind, wp_new. cbv beta.
  apply wp_bind, wp_new. cbv beta. rd.
  apply (wp_seq (fun _ => True)); [|intros; now apply wp_ret].
  apply (wp_for_each (documenting (length ((l ++ [PyList []]) ++ [PyList []])))).
  - eexists _, _, _. split; [|split].
    + apply list_lookup_middle. reflexivity.
    + reflexivity.
    + reflexivity.
  - intros x l0 _ Hd0. now apply doc_repository.
  - auto.
Qed.

(** *** The objects of the frame keep their class *)

Lemma extends_refl l : extends l l.
Proof. intros n o Hn. now exists o. Qed.

Lemma extends_app l l2 : extends l (l ++ l2).
Proof. intros n o Hn. exists o. split; [now apply lookup_app_l_Some|reflexivity]. Qed.

Lemma extends_insert l n o o' :
  l !! n = Some o -> shape o' = shape o -> extends l (<[n := o']> l).
Proof.
  intros Hn Hs m o1 Hm. destruct (decide (n = m)) as [->|Hne].
  - exists o'. split; [|congruence].
    apply list_lookup_insert_eq. eapply lookup_lt_Some. exact Hm.
  - exists o1. split; [|reflexivity]. now rewrite list_lookup_insert_ne.
Qed.

Lemma extends_trans l1 l2 l3 : extends l1 l2 -> extends l2 l3 -> extends l1 l3.
Proof.
  intros H12 H23 n o Hn. destruct (H12 n o Hn) as (o2 & H2 & Hs2).
  destruct (H23 n o2 H2) as (o3 & H3 & Hs3). exists o3. split; congruence.
Qed.

Lemma kind_at_lookup l n k :
  kind_at l n k <-> exists entries, l !! n = Some (PyDict k entries).
Proof.
  unfold kind_at. split.
  - destruct (l !! n) as [[ | | ]|]; cbn; intros [=]; subst; eauto.
  - intros [entries ->]. reflexivity.
Qed.

Lemma kind_at_extends l l' n k : kind_at l n k -> extends l l' -> kind_at l' n k.
Proof.
  intros Hk Hext. apply kind_at_lookup in Hk as [entries Hn].
  destruct (Hext n _ Hn) as (o' & Hn' & Hs). unfold kind_at.
  rewrite Hn'. cbn. now rewrite Hs.
Qed.

Lemma plain_dict_ref_extends l l' v :
  plain_dict_ref l v -> extends l l' -> plain_dict_ref l' v.
Proof.
  intros (n & -> & Hk) Hext. exists n. split; [reflexivity|].
  eapply kind_at_extends; eauto.
Qed.

Lemma entry_list_app l o v : entry_list l v -> entry_list (l ++ [o]) v.
Proof.
  intros (f & items & -> & Hf & Hall). exists f, items.
  split; [reflexivity|]. split; [now apply lookup_app_l_Some|].
  eapply Forall_impl; [exact Hall|]. intros x Hx.
  eapply plain_dict_ref_extends; [exact Hx|apply extends_app].
Qed.

(** Updating a dictionary leaves the lists as they are. *)
Lemma entry_list_insert_dict l n kind entries o' v :
  entry_list l v -> l !! n = Some (PyDict kind entries) ->
  shape o' = dict_shape kind ->
  entry_list (<[n := o']> l) v.
Proof.
  intros (f & items & -> & Hf & Hall) Hn Hs. exists f, items.
  split; [reflexivity|]. split.
  - rewrite list_lookup_insert_ne; [exact Hf|]. intros ->. congruence.
  - eapply Forall_impl; [exact Hall|]. intros x Hx.
    eapply plain_dict_ref_extends; [exact Hx|].
    eapply extends_insert; [exact Hn|exact Hs].
Qed.

Lemma category_lists_app l o :
  category_lists l -> is_defaultdict o = false -> category_lists (l ++ [o]).
Proof.
  intros Hc Ho n entries Hn. apply lookup_snoc_Some in Hn as [[_ Hn]|[_ ->]].
  - eapply Forall_impl; [apply (Hc n entries Hn)|].
    intros kv. apply entry_list_app.
  - discriminate.
Qed.

Lemma category_lists_insert_dict l n kind entries entries' :
  category_lists l -> l !! n = Some (PyDict kind entries) ->
  (kind = defaultdict ->
   Forall (fun kv => entry_list (<[n := PyDict kind entries']> l) (snd kv))
          entries') ->
  category_lists (<[n := PyDict kind entries']> l).
Proof.
  intros Hc Hn Hnew m entries_m Hm.
  destruct (decide (n = m)) as [<-|Hne].
  - rewrite list_lookup_insert_eq in Hm by (eapply lookup_lt_Some; exact Hn).
    inversion Hm; subst. now apply Hnew.
  - rewrite list_lookup_insert_ne in Hm by exact Hne.
    eapply Forall_impl; [apply (Hc m entries_m Hm)|].
    intros kv Hkv. eapply entry_list_insert_dict; eauto.
Qed.

(** Appending to a list: either what is appended is a plain dictionary of
    the frame, or the list is none of those a [defaultdict] holds. *)
Lemma category_lists_insert_list l n items items' :
  category_lists l -> l !! n = Some (PyList items) ->
  (Forall (plain_dict_ref l) items -> Forall (plain_dict_ref l) items') \/
  (forall m entries, l !! m = Some (PyDict defaultdict entries) ->
     Forall (fun kv => snd kv <> PRef (L n)) entries) ->
  category_lists (<[n := PyList items']> l).
Proof.
  intros Hc Hn Hcase m entries_m Hm.
  assert (Hext : extends l (<[n := PyList items']> l))
    by (eapply extends_insert; [exact Hn|reflexivity]).
  destruct (decide (n = m)) as [<-|Hne].
  { rewrite list_lookup_insert_eq in Hm by (eapply lookup_lt_Some; exact Hn).
    discriminate. }
  rewrite list_lookup_insert_ne in Hm by exact Hne.
  pose proof (Hc m entries_m Hm) as Hall.
  apply Forall_forall. intros kv Hkv.
  rewrite Forall_forall in Hall. destruct (Hall kv Hkv) as (f & its & Hv & Hf & Hp).
  destruct (decide (f = n)) as [->|Hfn].
  - rewrite Hn in Hf. inversion Hf; subst its.
    destruct Hcase as [Hplain|Hapart].
    + exists n, items'. split; [exact Hv|]. split.
      * apply list_lookup_insert_eq. eapply lookup_lt_Some. exact Hn.
      * eapply Forall_impl; [apply Hplain, Hp|]. intros x Hx.
        eapply plain_dict_ref_extends; eauto.
    + specialize (Hapart m entries_m Hm). rewrite Forall_forall in Hapart.
      now destruct (Hapart kv Hkv).
  - exists f, its. split; [exact Hv|]. split.
    + now rewrite list_lookup_insert_ne.
    + eapply Forall_impl; [exact Hp|]. intros x Hx.
      eapply plain_dict_ref_extends; eauto.
Qed.

Lemma apart_app r l o :
  apart r l -> is_defaultdict o = false -> apart r (l ++ [o]).
Proof.
  intros [Hr Ha] Ho. split; [rewrite length_app; cbn; lia|].
  intros n entries Hn. apply lookup_snoc_Some in Hn as [[_ Hn]|[_ ->]].
  - now apply (Ha n entries).
  - discriminate.
Qed.

Lemma apart_insert r l n o o' :
  apart r l -> l !! n = Some o -> shape o' = shape o ->
  (forall entries', o' = PyDict defaultdict entries' ->
     Forall (fun kv => snd kv <> PRef (L r)) entries') ->
  apart r (<[n := o']> l).
Proof.
  intros [Hr Ha] Hn Hs Hnew. split; [now rewrite length_insert|].
  intros m entries Hm. destruct (decide (n = m)) as [<-|Hne].
  - rewrite list_lookup_insert_eq in Hm by (eapply lookup_lt_Some; exact Hn).
    inversion Hm; subst. now apply Hnew.
  - rewrite list_lookup_insert_ne in Hm by exact Hne. now apply (Ha m).
Qed.

(** A list created now is apart from every list a [defaultdict] holds. *)
Lemma apart_fresh l :
  category_lists l -> apart (length l) (l ++ [PyList []]).
Proof.
  intros Hc. split; [rewrite length_app; cbn; lia|].
  intros n entries Hn. apply lookup_snoc_Some in Hn as [[_ Hn]|[_ [=]]].
  eapply Forall_impl; [apply (Hc n entries Hn)|].
  intros kv (f & items & -> & Hf & _) [= ->].
  apply lookup_lt_Some in Hf. lia.
Qed.

Lemma lookup_key_elem k entries x :
  lookup_key k entries = Some x -> exists k', (k', x) ∈ entries.
Proof.
  induction entries as [|[k1 v1] rest IH]; cbn; [discriminate|].
  destruct (equal k1 k).
  - intros [= ->]. exists k1. left.
  - intros H. destruct (IH H) as [k' Hk']. exists k'. now right.
Qed.

(** *** The invariant of the loop over the records *)

Section Tracking.

Variables (a b : nat) (r : option nat).

Lemma tracking_app l o :
  tracking a b r l -> is_defaultdict o = false -> tracking a b r (l ++ [o]).
Proof.
  intros (Ha & Hb & Hc & Hr) Ho. split; [|split; [|split]].
  - eapply kind_at_extends; [exact Ha|apply extends_app].
  - eapply kind_at_extends; [exact Hb|apply extends_app].
  - now apply category_lists_app.
  - destruct r; [now apply apart_app|exact I].
Qed.

Lemma tracking_insert_dict l n kind entries entries' :
  tracking a b r l -> l !! n = Some (PyDict kind entries) ->
  kind <> defaultdict ->
  tracking a b r (<[n := PyDict kind entries']> l).
Proof.
  intros (Ha & Hb & Hc & Hr) Hn Hk.
  assert (Hext : extends l (<[n := PyDict kind entries']> l))
    by (eapply extends_insert; [exact Hn|reflexivity]).
  split; [|split; [|split]].
  - eapply kind_at_extends; eauto.
  - eapply kind_at_extends; eauto.
  - eapply category_lists_insert_dict; [exact Hc|exact Hn|]. now intros.
  - destruct r as [r'|]; [|exact I].
    eapply apart_insert; [exact Hr|exact Hn|reflexivity|].
    intros e [=]. congruence.
Qed.

Lemma tracking_append_entry l n items x :
  tracking a b r l -> l !! n = Some (PyList items) -> plain_dict_ref l x ->
  tracking a b r (<[n := PyList (items ++ [x])]> l).
Proof.
  intros (Ha & Hb & Hc & Hr) Hn Hx.
  assert (Hext : extends l (<[n := PyList (items ++ [x])]> l))
    by (eapply extends_insert; [exact Hn|reflexivity]).
  split; [|split; [|split]].
  - eapply kind_at_extends; eauto.
  - eapply kind_at_extends; eauto.
  - eapply category_lists_insert_list; [exact Hc|exact Hn|]. left.
    intros Hall. apply Forall_app. split; [exact Hall|]. now constructor.
  - destruct r as [r'|]; [|exact I].
    eapply apart_insert; [exact Hr|exact Hn|reflexivity|]. intros e [=].
Qed.

Lemma tracking_handler l n entries k :
  tracking a b r l -> l !! n = Some (PyDict defaultdict entries) ->
  tracking a b r
    (<[n := PyDict defaultdict (entries ++ [(k, PRef (L (length l)))])]>
       (l ++ [PyList []])).
Proof.
  intros Ht Hn.
  pose proof (tracking_app l (PyList []) Ht eq_refl) as (Ha & Hb & Hc & Hr).
  assert (Hn1 : (l ++ [PyList []]) !! n = Some (PyDict defaultdict entries))
    by now apply lookup_app_l_Some.
  assert (Hext : extends (l ++ [PyList []])
                   (<[n := PyDict defaultdict
                             (entries ++ [(k, PRef (L (length l)))])]>
                      (l ++ [PyList []])))
    by (eapply extends_insert; [exact Hn1|reflexivity]).
  split; [|split; [|split]].
  - eapply kind_at_extends; eauto.
  - eapply kind_at_extends; eauto.
  - eapply category_lists_insert_dict; [exact Hc|exact Hn1|]. intros _.
    apply Forall_app. split.
    + eapply Forall_impl; [apply (Hc n entries Hn1)|]. intros kv Hkv.
      eapply entry_list_insert_dict; [exact Hkv|exact Hn1|reflexivity].
    + constructor; [|constructor]. cbn [snd].
      exists (length l), []. split; [reflexivity|]. split; [|constructor].
      rewrite list_lookup_insert_ne.
      * now apply list_lookup_middle.
      * apply lookup_lt_Some in Hn. lia.
  - destruct r as [r'|]; [|exact I].
    eapply apart_insert; [exact Hr|exact Hn1|reflexivity|].
    intros e [= <-]. destruct Ht as (_ & _ & _ & [Hlt Hap]).
    apply Forall_app. split; [now apply (Hap n)|].
    constructor; [|constructor]. cbn [snd]. intros [= Heq]. lia.
Qed.

Lemma trk_subscript v k (Q : PV -> list Obj -> Prop) l :
  tracking a b r l ->
  (forall x l',
     tracking a b r l' -> extends l l' ->
     (v = PRef (L a) ->
      entry_list l' x /\ forall r', r = Some r' -> x <> PRef (L r')) ->
     Q x l') ->
  wp g (subscript v k) Q l.
Proof.
  intros Ht HQ. apply wp_subscript.
  - intros x Hx. apply HQ; [exact Ht|apply extends_refl|]. intros ->.
    destruct Ht as (Ha & Hb & Hc & Hr).
    apply kind_at_lookup in Ha as [entries Ha].
    specialize (Hx a defaultdict entries eq_refl Ha ltac:(discriminate)).
    apply lookup_key_elem in Hx as [k' Hin].
    pose proof (Hc a entries Ha) as Hall. rewrite Forall_forall in Hall.
    split; [apply (Hall _ Hin)|].
    intros r' ->. destruct Hr as [_ Hap].
    specialize (Hap a entries Ha). rewrite Forall_forall in Hap.
    apply (Hap _ Hin).
  - intros n entries -> Hn Hk.
    pose proof (tracking_handler l n entries k Ht Hn) as Ht'.
    apply HQ; [exact Ht'| |].
    + eapply extends_trans; [apply (extends_app l [PyList []])|].
      eapply extends_insert; [apply lookup_app_l_Some; exact Hn|reflexivity].
    + intros [= <-]. destruct Ht' as (_ & _ & Hc' & _). split.
      * assert (Hl : (<[n := PyDict defaultdict
                                (entries ++ [(k, PRef (L (length l)))])]>
                        (l ++ [PyList []])) !! n
                     = Some (PyDict defaultdict
                               (entries ++ [(k, PRef (L (length l)))]))).
        { apply list_lookup_insert_eq. rewrite length_app.
          apply lookup_lt_Some in Hn. lia. }
        specialize (Hc' n _ Hl). rewrite Forall_app in Hc'.
        destruct Hc' as [_ Hlast]. now inversion Hlast; subst.
      * intros r' ->. destruct Ht as (_ & _ & _ & [Hlt _]).
        intros [= Heq]. lia.
Qed.

Lemma trk_item v k (Q : PV -> list Obj -> Prop) l :
  tracking a b r l ->
  (forall x l',
     tracking a b r l' ->
     (v = PRef (L a) ->
      entry_list l' x /\ forall r', r = Some r' -> x <> PRef (L r')) ->
     Q x l') ->
  wp g (subscript v k) Q l.
Proof.
  intros Ht HQ. apply trk_subscript; [exact Ht|].
  intros x l' Ht' _. now apply HQ.
Qed.

Lemma trk_set_item n kind k x l :
  tracking a b r l -> kind_at l n kind -> kind <> defaultdict ->
  wp g (set_item (PRef (L n)) k x) (fun _ l' => tracking a b r l') l.
Proof.
  intros Ht Hkind Hk. apply wp_set_item; [discriminate| |].
  - intros n' kind' entries [= <-] Hn.
    apply kind_at_lookup in Hkind as [entries' Hn'].
    rewrite Hn in Hn'. inversion Hn'; subst.
    eapply tracking_insert_dict; eauto.
  - intros n' items i [= <-] Hn.
    apply kind_at_lookup in Hkind as [entries' Hn']. congruence.
Qed.

Lemma trk_append_entry v x l :
  tracking a b r l -> (forall n, v <> PRef (G n)) -> plain_dict_ref l x ->
  wp g (append v x) (fun _ l' => tracking a b r l') l.
Proof.
  intros Ht Hv Hx. apply wp_append; [exact Hv|].
  intros n items -> Hn. now apply tracking_append_entry.
Qed.

Lemma trk_increment k l :
  tracking a b r l ->
  wp g (increment (PRef (L b)) k) (fun _ l' => tracking a b r l') l.
Proof.
  intros Ht. unfold increment.
  apply wp_bind, trk_item; [exact Ht|]. clear l Ht.
  intros c l Ht _. apply wp_bind, wp_lift. intros c' _.
  eapply trk_set_item; [exact Ht|exact (proj1 (proj2 Ht))|discriminate].
Qed.

Lemma trk_dict_get_new v k l :
  tracking a b r l ->
  wp g (dict_get v k (new (PyList []))) (fun _ l' => tracking a b r l') l.
Proof.
  intros Ht. apply wp_dict_get, wp_new. intros _.
  now apply tracking_app.
Qed.

Lemma trk_increment_named tech_name ts l :
  tracking a b r l -> Forall (plain_dict_ref l) ts ->
  wp g (increment_named tech_name ts) (fun _ l' => tracking a b r l') l.
Proof.
  revert l. induction ts as [|t rest IH]; intros l Ht Hts;
    cbn [increment_named]; [now apply wp_ret|].
  apply wp_bind, trk_subscript; [exact Ht|].
  intros name l' Ht' Hext _.
  assert (Hts' : Forall (plain_dict_ref l') (t :: rest)).
  { eapply Forall_impl; [exact Hts|]. intros x Hx.
    eapply plain_dict_ref_extends; eauto. }
  inversion Hts' as [|t0 rest0 (n & -> & Hn) Hrest]; subst.
  destruct (equal name tech_name).
  - rd as c. apply wp_bind, wp_lift. intros c' _.
    eapply trk_set_item; [exact Ht'|exact Hn|discriminate].
  - now apply IH.
Qed.

Lemma trk_summarize_repo_documentation repo l :
  tracking a b r l ->
  wp g (_summarize_repo_documentation repo)
    (fun _ l' => tracking a b r l') l.
Proof.
  intros Ht. unfold _summarize_repo_documentation.
  rd. apply wp_bind, trk_item; [exact Ht|]. clear l Ht.
  intros readme l Ht _.
  rd. apply wp_bind, trk_item; [exact Ht|]. clear l Ht.
  intros api_docs l Ht _. rd.
  rd. apply wp_bind, trk_item; [exact Ht|]. clear l Ht.
  intros setup l Ht _. rd.
  rd. apply wp_bind, trk_item; [exact Ht|]. clear l Ht.
  intros architecture l Ht _. rd.
  apply wp_new. now apply tracking_app.
Qed.

Lemma plain_dict_ref_new l entries :
  plain_dict_ref (l ++ [PyDict dict entries]) (PRef (L (length l))).
Proof.
  exists (length l). split; [reflexivity|]. unfold kind_at.
  now rewrite list_lookup_middle.
Qed.

Lemma trk_note_links c repo key type l :
  tracking a b r l ->
  wp g (note_links (PRef (L c)) repo key type)
    (fun _ l' => tracking a b r l') l.
Proof.
  intros Ht. unfold note_links.
  rd. apply (wp_seq (tracking a b r)); [now apply trk_dict_get_new|].
  clear l Ht. intros linked l Ht. rd as any.
  destruct any; [|now apply wp_ret].
  rd. apply wp_bind, trk_item; [exact Ht|]. clear l Ht.
  intros targets l Ht _. rd as xs.
  apply (wp_for_each (tracking a b r)); [exact Ht| |auto].
  clear l Ht. intros target l _ Ht. rd as name.
  apply wp_bind, wp_new. cbv beta.
  apply trk_append_entry; [now apply tracking_app|discriminate|].
  apply plain_dict_ref_new.
Qed.

End Tracking.

Lemma tracking_append_own a b r l items x :
  tracking a b (Some r) l -> l !! r = Some (PyList items) ->
  tracking a b (Some r) (<[r := PyList (items ++ [x])]> l).
Proof.
  intros (Ha & Hb & Hc & Hr) Hn.
  assert (Hext : extends l (<[r := PyList (items ++ [x])]> l))
    by (eapply extends_insert; [exact Hn|reflexivity]).
  split; [|split; [|split]].
  - eapply kind_at_extends; eauto.
  - eapply kind_at_extends; eauto.
  - eapply category_lists_insert_list; [exact Hc|exact Hn|]. right.
    apply Hr.
  - eapply apart_insert; [exact Hr|exact Hn|reflexivity|]. intros e [=].
Qed.

Lemma trk_note_technology a b r category tech l :
  tracking a b (Some r) l ->
  wp g (note_technology (PRef (L a)) (PRef (L b)) (PRef (L r)) category tech)
    (fun _ l' => tracking a b (Some r) l') l.
Proof.
  intros Ht. unfold note_technology.
  apply wp_bind, (trk_item a b (Some r)); [exact Ht|]. clear l Ht.
  intros tech_name l Ht _.
  apply (wp_seq (tracking a b (Some r))); [now apply trk_increment|].
  clear l Ht. intros _ l Ht.
  apply wp_bind, (trk_item a b (Some r)); [exact Ht|]. clear l Ht.
  intros listed l Ht _. rd as present.
  apply (wp_seq (tracking a b (Some r))).
  { destruct (negb present).
    - apply wp_bind, (trk_item a b (Some r)); [exact Ht|]. clear l Ht.
      intros target l Ht Htarget.
      destruct (Htarget eq_refl) as [(f & items & -> & Hf & Hall) _].
      apply wp_bind, wp_new. cbv beta.
      apply trk_append_entry; [now apply tracking_app|discriminate|].
      apply plain_dict_ref_new.
    - apply wp_bind, (trk_item a b (Some r)); [exact Ht|]. clear l Ht.
      intros target l Ht Htarget.
      destruct (Htarget eq_refl) as [(f & items & -> & Hf & Hall) _].
      apply wp_bind. unfold iterate. apply wp_bind, wp_deref.
      intros o Ho. rewrite Hf in Ho. inversion Ho; subst o.
      apply wp_ret. now apply trk_increment_named. }
  clear l Ht. intros _ l Ht.
  apply wp_append; [discriminate|].
  intros n items [= <-] Hn. now apply tracking_append_own.
Qed.

Lemma trk_summarize_repository a b c d e repo l :
  tracking a b None l ->
  wp g (summarize_repository (PRef (L a)) (PRef (L b)) (PRef (L c))
          (PRef (L d)) (PRef (L e)) repo)
    (fun _ l' => tracking a b None l') l.
Proof.
  intros Ht. unfold summarize_repository.
  rd. rd as scanned. destruct (negb scanned); [now apply wp_ret|].
  apply wp_bind, wp_new. cbv beta.
  assert (Ht1 : tracking a b (Some (length l)) (l ++ [PyList []])).
  { pose proof (tracking_app a b None l (PyList []) Ht eq_refl)
      as (Ha & Hb & Hc & _).
    repeat split; try assumption; apply apart_fresh; apply Ht. }
  generalize dependent (l ++ [PyList []]). generalize (length l) as r.
  clear l Ht. intros r l Ht.
  rd. rd as categories.
  apply (wp_seq (tracking a b (Some r))).
  { apply (wp_for_each (tracking a b (Some r))); [exact Ht| |auto].
    clear l Ht. intros item l _ Ht. rd as techs.
    apply (wp_for_each (tracking a b (Some r))); [exact Ht| |auto].
    intros tech l0 _ Ht0. now apply trk_note_technology. }
  clear l Ht. intros _ l Ht.
  apply (wp_seq (tracking a b (Some r))); [now apply trk_note_links|].
  clear l Ht. intros _ l Ht.
  apply (wp_seq (tracking a b (Some r))); [now apply trk_note_links|].
  clear l Ht. intros _ l Ht.
  rd. rd. rd. rd. rd. rd.
  apply (wp_seq (tracking a b (Some r)));
    [now apply trk_summarize_repo_documentation|].
  clear l Ht. intros documentation l Ht.
  rd. apply (wp_seq (tracking a b (Some r))); [now apply trk_dict_get_new|].
  clear l Ht. intros dependencies l Ht.
  rd. apply (wp_seq (tracking a b (Some r))); [now apply trk_dict_get_new|].
  clear l Ht. intros services l Ht.
  apply wp_bind, wp_new. cbv beta.
  apply wp_bind, wp_new. cbv beta.
  eapply wp_mono;
    [|apply (trk_append_entry a b (Some r));
      [do 2 (apply tracking_app; [|reflexivity]); exact Ht
      |discriminate|apply plain_dict_ref_new]].
  intros _ l' (Ha & Hb & Hc & _). now repeat split.
Qed.

(** *** The whole call *)

Lemma safe_build_report repositories total_repos scanned_repos
    all_technologies technology_counts api_connections service_dependencies
    repos_summary :
  safe g (build_report repositories total_repos scanned_repos
            all_technologies technology_counts api_connections
            service_dependencies repos_summary).
Proof.
  intros l. unfold build_report.
  apply wp_bind, wp_new. cbv beta. rd as categories.
  apply wp_bind, wp_safe.
  { apply safe_for_each. intros item.
    apply safe_bind; [apply safe_sorted_by_count|]. intros sorted.
    apply safe_set_item. }
  intros _ l1. rd as top_techs.
  apply wp_bind, wp_new. cbv beta. rd as n_techs.
  apply wp_bind, wp_new. cbv beta. apply wp_bind, wp_new. cbv beta.
  apply wp_bind, wp_safe; [apply safe_documentation_summary|].
  intros documentation l2. now apply wp_new.
Qed.

Lemma tracking_start :
  tracking 0 1 None
    [PyDict defaultdict []; PyDict Counter []; PyList []; PyList [];
     PyList []].
Proof.
  split; [reflexivity|]. split; [reflexivity|]. split; [|exact I].
  intros n entries Hn.
  destruct n as [|[|[|[|[|n]]]]]; cbn in Hn; try discriminate.
  inversion Hn; subst. constructor.
Qed.

Lemma generate_summary_frame repositories :
  wp g (generate_summary repositories) (fun _ _ => True) [].
Proof.
  unfold generate_summary. rd as any.
  destruct (negb any); [apply safe_empty_report|].
  rd as total_repos. rd as repos. rd as scanned_repos.
  do 5 (apply wp_bind, wp_new; cbv beta). cbn [length app].
  rd as repos'.
  apply (wp_seq (tracking 0 1 None)).
  - apply (wp_for_each (tracking 0 1 None)); [apply tracking_start| |auto].
    intros repo l _ Ht. now apply trk_summarize_repository.
  - intros _ l _. apply safe_build_report.
Qed.

End Frame.

(** C9. On records whose dictionaries are plain dictionaries, as
    [Repository.__init__] builds them, a call of [generate_summary] changes
    no object that existed before it, whether it returns a report or raises:
    every write it makes, to [all_technologies], [technology_counts], the
    lists and the entries they hold, goes to an object the call has created
    itself. A second call on the same list then finds the objects as the
    first found them and gives the same answer, the same report made of the
    same objects or the same exception. *)
Theorem generate_summary_pure g repositories :
  no_defaultdict g = true ->
  let first := generate_summary repositories (call g) in
  let second := generate_summary repositories (call (globals (fst first))) in
  globals (fst first) = g /\
  globals (fst second) = g /\
  snd second = snd first /\
  locals (fst second) = locals (fst first).
Proof.
  intros Hg first second.
  assert (H1 : globals (fst first) = g)
    by apply (generate_summary_frame g Hg repositories).
  subst second. rewrite H1. fold first. auto.
Qed.

Lemma generate_summary_pure_witness :
  no_defaultdict shop_objects = true /\
  globals (fst (generate_summary (PRef (G 0)) (call shop_objects)))
  = shop_objects.
Proof.
  split; [reflexivity|].
  exact (proj1 (generate_summary_pure shop_objects (PRef (G 0)) eq_refl)).
Defined.

(** The report of the [shop] record: the call returns a dictionary it has
    created, whose entry for the records is a list it has created, and the
    technology entry of Flask is one object, held by [all_technologies] and
    by the sorted list of the report. *)
Lemma shop_report :
  let out := generate_summary (PRef (G 0)) (call shop_objects) in
  snd out = ok (PRef (L 25)) /\
  locals (fst out) !! 25%nat
  = Some (PyDict dict
            [(PStr "summary", PRef (L 19)); (PStr "repositories", PRef (L 4));
             (PStr "technologies", PRef (L 16));
             (PStr "connections", PRef (L 20));
             (PStr "documentation", PRef (L 23))]) /\
  locals (fst out) !! 0%nat
  = Some (PyDict defaultdict [(PStr "backend", PRef (L 6))]) /\
  locals (fst out) !! 6%nat = Some (PyList [PRef (L 7)]) /\
  locals (fst out) !! 17%nat = Some (PyList [PRef (L 7)]) /\
  locals (fst out) !! 7%nat
  = Some (PyDict dict [(PStr "name", PStr "Flask"); (PStr "count", PInt 1)]).
Proof. vm_compute. repeat split. Qed.

(** What the hypothesis is for: were the [documentation] of a record a
    [defaultdict] without the key [readme], the look-up of line 154 would
    store a list in it, and the record would not be what it was. *)
Lemma defaultdict_record_is_written :
  let out := generate_summary (PRef (G 0)) (call shop_objects_defaultdict) in
  no_defaultdict shop_objects_defaultdict = false /\
  shop_objects_defaultdict !! 11%nat
  = Some (PyDict defaultdict
            [(PStr "api_docs", PRef (G 12));
             (PStr "setup_instructions", PRef (G 13));
             (PStr "architecture", PRef (G 15))]) /\
  globals (fst out) !! 11%nat
  = Some (PyDict defaultdict
            [(PStr "api_docs", PRef (G 12));
             (PStr "setup_instructions", PRef (G 13));
             (PStr "architecture", PRef (G 15));
             (PStr "readme", PRef (L 11))]).
Proof. vm_compute. repeat split. Qed.

End PurityFacts.

(** * Further properties *)

(** ** Repository record: dependencies, repeated detections, documentation *)

Module RecordFacts.
Import Repository RepositoryFacts.

Lemma with_dependencies_same (r : t) : with_dependencies r (dependencies r) = r.
Proof. now destruct r. Qed.

(** [self.dependencies] once the kind is known to be a key. *)
Lemma kind_list dep_type (deps : ODict.t (list string)) :
  let deps0 := if ODict.mem dep_type deps then deps
               else ODict.set dep_type [] deps in
  ODict.get dep_type deps0 = Some (default [] (ODict.get dep_type deps)) /\
  (forall k, k <> dep_type -> ODict.get k deps0 = ODict.get k deps) /\
  (is_Some (ODict.get dep_type deps) -> deps0 = deps).
Proof.
  unfold ODict.mem. destruct (ODict.get dep_type deps) as [l|] eqn:Hget; simpl.
  - repeat split; auto.
  - split; [apply ODictFacts.get_set_eq|]. split.
    + intros k Hk. apply ODictFacts.get_set_ne. congruence.
    + intros [x Hx]. discriminate.
Qed.

Lemma add_dependency_deduplicated dep_type n r :
  deduplicated r -> deduplicated (add_dependency dep_type n r).
Proof.
  intros Hr kind l. unfold add_dependency.
  destruct (kind_list dep_type (dependencies r)) as (Hget0 & Hother & _).
  set (deps0 := if ODict.mem dep_type (dependencies r) then dependencies r
                else ODict.set dep_type [] (dependencies r)) in *.
  rewrite Hget0.
  change (default [] (Some (default [] (ODict.get dep_type (dependencies r)))))
    with (default [] (ODict.get dep_type (dependencies r))).
  set (l0 := default [] (ODict.get dep_type (dependencies r))).
  assert (Hl0 : NoDup l0).
  { unfold l0. destruct (ODict.get dep_type (dependencies r)) eqn:Hg; simpl.
    - now apply (Hr dep_type).
    - apply NoDup_nil_2. }
  destruct (str_in n l0) eqn:Hin;
    cbn [dependencies with_dependencies].
  - destruct (String.eqb_spec dep_type kind) as [<-|Hne].
    + rewrite Hget0. intros [= <-]. exact Hl0.
    + rewrite Hother by congruence. apply Hr.
  - destruct (String.eqb_spec dep_type kind) as [<-|Hne].
    + rewrite ODictFacts.get_set_eq. intros [= <-].
      apply NoDup_app. split; [exact Hl0|]. split; [|apply NoDup_singleton].
      intros x Hx Hx'. apply list_elem_of_singleton in Hx'. subst x.
      apply DependencyFacts.str_in_spec in Hx. congruence.
    + rewrite ODictFacts.get_set_ne, Hother by congruence. apply Hr.
Qed.

Lemma add_dependency_present dep_type n r :
  exists l,
    ODict.get dep_type (dependencies (add_dependency dep_type n r)) = Some l /\
    n ∈ l.
Proof.
  unfold add_dependency.
  destruct (kind_list dep_type (dependencies r)) as (Hget0 & _ & _).
  set (deps0 := if ODict.mem dep_type (dependencies r) then dependencies r
                else ODict.set dep_type [] (dependencies r)) in *.
  rewrite Hget0.
  change (default [] (Some (default [] (ODict.get dep_type (dependencies r)))))
    with (default [] (ODict.get dep_type (dependencies r))).
  destruct (str_in n (default [] (ODict.get dep_type (dependencies r)))) eqn:Hin;
    cbn [dependencies with_dependencies].
  - eexists. split; [exact Hget0|]. now apply DependencyFacts.str_in_spec.
  - rewrite ODictFacts.get_set_eq. eexists. split; [reflexivity|].
    apply elem_of_app. right. apply list_elem_of_singleton. reflexivity.
Qed.

(** Recording a dependency that is already there changes nothing. *)
Lemma add_dependency_again dep_type n r l :
  ODict.get dep_type (dependencies r) = Some l -> n ∈ l ->
  add_dependency dep_type n r = r.
Proof.
  intros Hget Hin. unfold add_dependency.
  destruct (kind_list dep_type (dependencies r)) as (_ & _ & Hsame).
  rewrite Hsame by eauto. rewrite Hget. cbn [default].
  apply DependencyFacts.str_in_spec in Hin.
  change (Datatypes.id l) with l. rewrite Hin.
  apply with_dependencies_same.
Qed.

(** X1. Dependencies are deduplicated: after any sequence of
    [add_dependency] calls on a fresh record no list of the dictionary, of a
    kind the record started with or of a new one, holds a name twice; and a
    call repeated at once changes nothing. *)
Theorem add_dependency_deduplicates p ops dep_type n :
  let r := add_dependencies ops (init p) in
  (forall kind, NoDup (dependencies_of kind r)) /\
  add_dependency dep_type n (add_dependency dep_type n r)
  = add_dependency dep_type n r.
Proof.
  intros r. split.
  - assert (Hr : deduplicated r).
    { unfold r, add_dependencies.
      apply (FoldFacts.fold_left_invariant deduplicated).
      - intros r0 op _. apply add_dependency_deduplicated.
      - intros kind l. unfold init, dependencies. simpl.
        repeat (destruct (String.eqb kind _);
                [intros [= <-]; apply NoDup_nil_2|]).
        discriminate. }
    intros kind. unfold dependencies_of.
    destruct (ODict.get kind (dependencies r)) eqn:Hg; simpl.
    + now apply (Hr kind).
    + apply NoDup_nil_2.
  - destruct (add_dependency_present dep_type n r) as (l & Hl & Hin).
    now apply (add_dependency_again dep_type n _ l).
Qed.

(** *** A detection repeated *)

Lemma Qgtb_irrefl q : Qgtb q q = false.
Proof.
  unfold Qgtb. apply negb_false_iff. apply Qle_bool_iff. apply Qle_refl.
Qed.

Lemma new_technology_confidence name confidence version path details :
  plain_details details ->
  new_technology name confidence version path details !! "confidence"
  = Some (VNum confidence).
Proof.
  intros Hplain. unfold new_technology.
  assert (H : forall m : gmap string Val,
            m !! "confidence" = Some (VNum confidence) ->
            match details with
            | Some d => if decide (d = ∅) then m else d ∪ m
            | None => m
            end !! "confidence" = Some (VNum confidence)).
  { intros m Hm. destruct details as [d|]; [|exact Hm].
    destruct (decide (d = ∅)); [exact Hm|].
    rewrite lookup_union_r; [exact Hm|apply Hplain]. }
  apply H. rewrite lookup_insert_ne by discriminate. apply lookup_insert_eq.
Qed.

(** A call for a name whose observation is at least as confident leaves the
    record as it is. *)
Lemma add_technology_settled category name confidence version path details
      r l existing old :
  ODict.get category (technologies r) = Some l ->
  Forall well_formed l ->
  plain_details details ->
  List.filter (has_name name) l = [existing] ->
  existing !! "confidence" = Some (VNum old) ->
  Qgtb confidence old = false ->
  add_technology category name confidence version path details r = (r, ok tt).
Proof.
  intros Hget Hwf Hplain Hobs Hold Hle.
  destruct (merge_existing_found name confidence version path details
              Hplain l existing Hwf Hobs) as (old' & Hold' & Hsnd & Hsame & _).
  assert (old' = old) by congruence. subst old'.
  unfold add_technology.
  destruct (category_list category (technologies r)) as (_ & _ & Hkeep).
  rewrite Hkeep by eauto. rewrite Hget.
  change (default [] (Some l)) with l.
  destruct (merge_existing name confidence version path details l)
    as [l' res]. cbn [fst snd] in *. subst res. rewrite (Hsame Hle).
  rewrite (ODictFacts.set_get_same _ _ _ Hget).
  now rewrite with_technologies_same.
Qed.

(** After a call the name is observed once, with a confidence that the one
    offered does not exceed. *)
Lemma add_technology_observed category name confidence version path details r :
  invariant r ->
  plain_details details ->
  let r1 := fst (add_technology category name confidence version path details r) in
  exists l1 e q,
    ODict.get category (technologies r1) = Some l1 /\
    Forall well_formed l1 /\
    List.filter (has_name name) l1 = [e] /\
    e !! "confidence" = Some (VNum q) /\
    Qgtb confidence q = false.
Proof.
  intros Hinv Hplain. unfold add_technology.
  destruct (category_list category (technologies r)) as (Hget0 & _ & _).
  set (techs0 := if ODict.mem category (technologies r) then technologies r
                 else ODict.set category [] (technologies r)) in *.
  rewrite Hget0.
  change (default [] (Some (default [] (ODict.get category (technologies r)))))
    with (default [] (ODict.get category (technologies r))).
  set (l := default [] (ODict.get category (technologies r))).
  assert (Hl : distinct_names l).
  { unfold l. destruct (ODict.get category (technologies r)) eqn:Hg; simpl.
    - now apply (Hinv category).
    - split; constructor. }
  pose proof (at_most_one_of_name name l Hl) as Hone.
  destruct Hl as [Hwf Hnd].
  destruct (new_technology_well_formed name confidence version path details
              Hplain) as [Hwfn Hnn].
  destruct (List.filter (has_name name) l) as [|existing [|x rest]] eqn:Hf;
    [| |simpl in Hone; lia].
  - rewrite (merge_existing_absent name confidence version path details l Hwf Hf).
    cbn [fst]. rewrite technologies_with, ODictFacts.get_set_eq.
    exists (l ++ [new_technology name confidence version path details]),
           (new_technology name confidence version path details), confidence.
    split; [reflexivity|]. split; [apply Forall_app; split; auto|].
    split; [|split; [now apply new_technology_confidence|apply Qgtb_irrefl]].
    rewrite List.filter_app, Hf. simpl.
    assert (Hh : has_name name
                   (new_technology name confidence version path details) = true)
      by now apply has_name_name_of.
    now rewrite Hh.
  - destruct (merge_existing_found name confidence version path details
                Hplain l existing Hwf Hf) as (old & Hold & Hsnd & Hsame & Hup).
    pose proof (merge_existing_names name confidence version path details
                  Hplain l Hwf) as Hnames.
    destruct (merge_existing name confidence version path details l)
      as [l' res]. cbn [fst snd] in *. subst res.
    destruct Hnames as [(Hres & _)|(_ & Hwf' & _)]; [discriminate|].
    cbn [fst]. rewrite technologies_with, ODictFacts.get_set_eq.
    exists l'. destruct (Qgtb confidence old) eqn:Hgt.
    + eexists. exists confidence.
      split; [reflexivity|]. split; [exact Hwf'|]. split; [now apply Hup|].
      assert (Hwfe : well_formed existing).
      { assert (Hin : In existing (List.filter (has_name name) l))
          by (rewrite Hf; now left).
        apply filter_In in Hin as [Hin _].
        rewrite Forall_forall in Hwf. apply Hwf. now apply list_elem_of_In. }
      destruct (raise_confidence_spec confidence version path details Hplain
                  existing Hwfe) as (_ & _ & _ & Hc & _).
      split; [exact Hc|apply Qgtb_irrefl].
    + exists existing, old. rewrite (Hsame eq_refl).
      repeat split; auto.
Qed.

(** X2. A detection reported twice is recorded once: on a record reached by
    [add_technology] calls, a call repeated with the same arguments returns
    normally and changes nothing, so feeding the same observation again neither
    adds an entry nor alters the confidence. *)
Theorem add_technology_idempotent p cs c :
  Forall (fun c => plain_details (tc_details c)) cs ->
  plain_details (tc_details c) ->
  let r1 := fst (call c (calls cs (init p))) in
  call c r1 = (r1, ok tt).
Proof.
  intros Hcs Hc r1.
  assert (Hinv : invariant (calls cs (init p)))
    by (apply calls_invariant; [exact Hcs|apply init_invariant]).
  destruct c as [category name confidence version path details].
  unfold call in *.
  cbn [tc_category tc_name tc_confidence tc_version tc_path tc_details] in *.
  destruct (add_technology_observed category name confidence version path
              details _ Hinv Hc) as (l1 & e & q & Hget & Hwf & Hf & Hq & Hle).
  now apply (add_technology_settled _ _ _ _ _ _ _ l1 e q).
Qed.

Lemma add_technology_idempotent_witness :
  let r1 := fst (call Examples.flask_higher
                   (calls [Examples.flask_first] (init Examples.shop))) in
  call Examples.flask_higher r1 = (r1, ok tt).
Proof.
  apply (add_technology_idempotent Examples.shop [Examples.flask_first]
           Examples.flask_higher).
  - constructor; [exact I|constructor].
  - split; reflexivity.
Defined.

(** *** Observations of other names *)

Lemma merge_existing_other name confidence version path details name' l :
  plain_details details ->
  name' <> name ->
  Forall well_formed l ->
  List.filter (has_name name')
    (fst (merge_existing name confidence version path details l))
  = List.filter (has_name name') l.
Proof.
  intros Hplain Hne. induction 1 as [|e l He Hl IH]; [reflexivity|].
  pose proof He as ([n Hn] & [c Hc] & _).
  cbn [merge_existing]. rewrite Hn. cbn [is_str].
  destruct (String.eqb_spec n name) as [->|Hn'].
  - rewrite Hc. destruct (Qgtb confidence c); [|reflexivity].
    destruct (raise_confidence_spec confidence version path details Hplain e He)
      as (_ & Hwf' & Hname' & _).
    destruct (raise_confidence confidence version path details e) as [e' res].
    cbn [fst] in *. cbn [List.filter].
    assert (H1 : has_name name' e' = false).
    { destruct (has_name name' e') eqn:Hh; [|reflexivity].
      apply (has_name_name_of name' e' Hwf') in Hh.
      rewrite Hname' in Hh. unfold name_of in Hh. rewrite Hn in Hh. congruence. }
    assert (H2 : has_name name' e = false).
    { unfold has_name. rewrite Hn. cbn [is_str].
      destruct (String.eqb_spec name name'); congruence. }
    now rewrite H1, H2.
  - destruct (merge_existing name confidence version path details l)
      as [rest' res]. cbn [fst] in *. cbn [List.filter]. now rewrite IH.
Qed.

(** X3. A call touches the observation of its own category and name only:
    the observations of every other category or name are the same before and
    after. *)
Theorem add_technology_leaves_others p cs c category name :
  Forall (fun c => plain_details (tc_details c)) cs ->
  plain_details (tc_details c) ->
  (category, name) <> (tc_category c, tc_name c) ->
  observations category name (fst (call c (calls cs (init p))))
  = observations category name (calls cs (init p)).
Proof.
  intros Hcs Hc Hother.
  assert (Hinv : invariant (calls cs (init p)))
    by (apply calls_invariant; [exact Hcs|apply init_invariant]).
  set (r := calls cs (init p)) in *.
  destruct c as [category0 name0 confidence version path details].
  unfold call, observations, add_technology.
  cbn [tc_category tc_name tc_confidence tc_version tc_path tc_details] in *.
  destruct (category_list category0 (technologies r)) as (Hget0 & Hrest & _).
  set (techs0 := if ODict.mem category0 (technologies r) then technologies r
                 else ODict.set category0 [] (technologies r)) in *.
  rewrite Hget0.
  change (default [] (Some (default [] (ODict.get category0 (technologies r)))))
    with (default [] (ODict.get category0 (technologies r))).
  set (l := default [] (ODict.get category0 (technologies r))).
  assert (Hwf : Forall well_formed l).
  { unfold l. destruct (ODict.get category0 (technologies r)) eqn:Hg; simpl.
    - now apply (Hinv category0).
    - constructor. }
  pose proof (merge_existing_names name0 confidence version path details
                Hc l Hwf) as Hnames.
  destruct (String.eqb_spec category0 category) as [<-|Hcat].
  - assert (Hname : name <> name0) by congruence.
    pose proof (merge_existing_other name0 confidence version path details
                  name l Hc Hname Hwf) as Hkeep.
    destruct (merge_existing name0 confidence version path details l)
      as [l' [res|]]; cbn [fst snd] in *;
      rewrite technologies_with, ODictFacts.get_set_eq.
    + exact Hkeep.
    + destruct Hnames as [(_ & -> & _)|(H & _)]; [|discriminate].
      change (default [] (Some ?x)) with x.
      rewrite List.filter_app. cbn [List.filter].
      assert (Hn : has_name name
                     (new_technology name0 confidence version path details)
                   = false).
      { destruct (new_technology_well_formed name0 confidence version path
                    details Hc) as [Hwfn Hnn].
        destruct (has_name name _) eqn:Hh; [|reflexivity].
        apply (has_name_name_of name _ Hwfn) in Hh. congruence. }
      now rewrite Hn, app_nil_r.
  - destruct (merge_existing name0 confidence version path details l)
      as [l' [res|]]; cbn [fst];
      now rewrite technologies_with, ODictFacts.get_set_ne, Hrest by congruence.
Qed.

Lemma add_technology_leaves_others_witness :
  observations "frontend" "Flask"
    (fst (call Examples.flask_higher
            (calls [Examples.flask_first] (init Examples.shop))))
  = observations "frontend" "Flask"
      (calls [Examples.flask_first] (init Examples.shop)).
Proof.
  apply (add_technology_leaves_others Examples.shop [Examples.flask_first]
           Examples.flask_higher).
  - constructor; [exact I|constructor].
  - split; reflexivity.
  - discriminate.
Defined.

(** *** Documentation and its flags in the report *)

Lemma has_entries_app {A} (l : list A) x : (0 <? length (l ++ [x]))%nat = true.
Proof. rewrite length_app. simpl. apply Nat.ltb_lt. lia. Qed.

Ltac red_doc :=
  cbn [Summary.has_readme Summary.has_api_docs Summary.has_setup_instructions
       Summary.has_architecture_info documentation with_documentation
       readme api_docs setup_instructions architecture].

(** X4. What [add_documentation] stores is what the report shows: after a
    call, a documentation flag of the repository summary is set exactly when
    it was set before or the call was of its type; a call with any other type
    leaves the record as it is. *)
Theorem add_documentation_flags doc_type content path r :
  let before := Summary._summarize_repo_documentation r in
  let after :=
    Summary._summarize_repo_documentation
      (add_documentation doc_type content path r) in
  Summary.has_readme after
    = (Summary.has_readme before || String.eqb doc_type "readme")%bool /\
  Summary.has_api_docs after
    = (Summary.has_api_docs before || String.eqb doc_type "api_docs")%bool /\
  Summary.has_setup_instructions after
    = (Summary.has_setup_instructions before
       || String.eqb doc_type "setup_instructions")%bool /\
  Summary.has_architecture_info after
    = (Summary.has_architecture_info before
       || String.eqb doc_type "architecture")%bool /\
  (~ In doc_type ["readme"; "api_docs"; "setup_instructions"; "architecture"] ->
   add_documentation doc_type content path r = r).
Proof.
  intros before after. subst before after.
  unfold add_documentation, Summary._summarize_repo_documentation.
  destruct (String.eqb_spec doc_type "readme") as [->|H1].
  { red_doc. rewrite !orb_false_r, orb_true_r. repeat split; auto.
    intros H. exfalso. apply H. now left. }
  destruct (String.eqb_spec doc_type "api_docs") as [->|H2].
  { red_doc. rewrite has_entries_app, !orb_false_r, orb_true_r. repeat split; auto.
    intros H. exfalso. apply H. right. now left. }
  destruct (String.eqb_spec doc_type "setup_instructions") as [->|H3].
  { red_doc. rewrite has_entries_app, !orb_false_r, orb_true_r. repeat split; auto.
    intros H. exfalso. apply H. right. right. now left. }
  destruct (String.eqb_spec doc_type "architecture") as [->|H4].
  { red_doc. rewrite has_entries_app, !orb_false_r, orb_true_r. repeat split; auto.
    intros H. exfalso. apply H. right. right. right. now left. }
  rewrite !orb_false_r. repeat split; auto.
Qed.

End RecordFacts.

(** ** Configuration: reading, setting and loading *)

Module ConfigFacts.
Import Config.

(** X5. A value that was set is the value read: [get] after [set] returns the
    value whatever the default, and reading any other option gives what it
    gave before. *)
Theorem get_after_set self section key value section' key' dflt :
  get (set self section key value) section key dflt = value /\
  ((section', key') <> (section, key) ->
   get (set self section key value) section' key' dflt
   = get self section' key' dflt).
Proof.
  unfold get, set. cbn [config]. split.
  - rewrite lookup_insert_eq. cbn [default]. unfold default, from_option, id.
    now rewrite lookup_insert_eq.
  - intros Hne. destruct (decide (section = section')) as [<-|Hs].
    + rewrite lookup_insert_eq.
      assert (Hk : key <> key') by congruence.
      change (default ∅ (Some ?m)) with m.
      now rewrite lookup_insert_ne.
    + now rewrite lookup_insert_ne.
Qed.

(** X6. Loading a file merges option by option: an option the file gives is
    read from the file, every option the file does not give keeps the value
    it had, also inside a section the file mentions. *)
Theorem load_config_merges self loaded section key dflt :
  let loaded_value := default ∅ (loaded !! section) !! key in
  get (load_config self loaded) section key dflt
  = match loaded_value with
    | Some v => v
    | None => get self section key dflt
    end.
Proof.
  unfold get, load_config, _merge_config. cbn [config].
  rewrite lookup_union_with.
  destruct (config self !! section) as [b|], (loaded !! section) as [u|];
    cbn; try rewrite lookup_union;
    try (destruct (u !! key), (b !! key); reflexivity);
    try (destruct (u !! key); reflexivity);
    try reflexivity.
Qed.

End ConfigFacts.

(** ** Scan orchestrator: files, empty groups, loaded analyzers *)

Module ScanFacts.
Import Scanner.

(** *** The files of one repository *)

Lemma process_file_well_behaved ds repo file_path content :
  Forall well_behaved ds ->
  snd (_process_file ds repo file_path content) = ok tt /\
  Repository.analyzed_files (fst (_process_file ds repo file_path content))
    = Repository.analyzed_files repo /\
  Repository.stats (fst (_process_file ds repo file_path content))
    = Repository.stats repo /\
  Repository.project (fst (_process_file ds repo file_path content))
    = Repository.project repo /\
  Repository.default_branch (fst (_process_file ds repo file_path content))
    = Repository.default_branch repo.
Proof.
  intros Hds. revert repo.
  induction Hds as [|d ds Hd Hds IH]; intros repo; [repeat split|].
  cbn [_process_file].
  destruct (Hd repo content file_path) as (Hok & Hf & Hs & Hp & Hb).
  destruct (d repo content file_path) as [repo' [e|[]]]; cbn [fst snd] in *;
    [discriminate|].
  destruct (IH repo') as (Hok' & Hf' & Hs' & Hp' & Hb').
  repeat split; congruence.
Qed.

Lemma scan_item_step self exts repo files n r path :
  Forall well_behaved (detectors self) ->
  scanning repo files n r ->
  scanning repo
    (files ++ if kept exts repo path then [path] else [])
    (n + if kept exts repo path then 1 else 0)
    (scan_item self exts r path).
Proof.
  intros Hds (Hf & Hn & Ht & Hp & Hb). unfold scan_item, kept.
  destruct (existsb (PyStr.endswith path) exts); cbn [negb andb].
  2:{ rewrite app_nil_r, Z.add_0_r. repeat split; assumption. }
  rewrite Hp, Hb.
  destruct (files_get (Repository.project repo) path
                      (Repository.default_branch repo)) as [e|content];
    cbn [raised negb].
  { rewrite app_nil_r, Z.add_0_r. repeat split; assumption. }
  destruct (process_file_well_behaved (detectors self) r path content Hds)
    as (Hok & Hf' & Hs' & Hp' & Hb').
  destruct (_process_file (detectors self) r path content) as [r' [e|[]]];
    cbn [fst snd] in *; [discriminate|].
  unfold scanning.
  cbn [Repository.analyzed_files Repository.stats Repository.with_files
       Repository.stats_analyzed_files Repository.total_files
       Repository.project Repository.default_branch].
  rewrite Hf', Hs', Hf, Hn, Ht, Hp', Hb', Hp, Hb.
  repeat split; try reflexivity; [now rewrite app_assoc|lia].
Qed.

Lemma scan_items_spec self exts repo tree files n r :
  Forall well_behaved (detectors self) ->
  scanning repo files n r ->
  scanning repo
    (files ++ List.filter (kept exts repo) tree)
    (n + Z.of_nat (length (List.filter (kept exts repo) tree)))
    (fold_left (scan_item self exts) tree r).
Proof.
  intros Hds. revert files n r.
  induction tree as [|path tree IH]; intros files n r Hr.
  - cbn. now rewrite app_nil_r, Z.add_0_r.
  - cbn [fold_left List.filter].
    pose proof (scan_item_step self exts repo files n r path Hds Hr) as Hstep.
    apply IH in Hstep.
    destruct (kept exts repo path).
    + cbn [length]. rewrite <- app_assoc in Hstep. cbn [app] in Hstep.
      replace (n + Z.of_nat (S (length (List.filter (kept exts repo) tree))))%Z
        with (n + 1 + Z.of_nat (length (List.filter (kept exts repo) tree)))%Z
        by lia.
      exact Hstep.
    + now rewrite app_nil_r, Z.add_0_r in Hstep.
Qed.

(** X7. With detectors that keep to their contract, the files a scan lists
    as analysed are, in the order of the tree, exactly the tree entries that
    end with a configured extension and whose content could be fetched; the
    counter of analysed files grows by their number and the total is the size
    of the tree. *)
Theorem scan_repository_files_analyzed self repo tree exts :
  Forall well_behaved (detectors self) ->
  repository_tree (Repository.project repo) (Repository.default_branch repo)
    = inr tree ->
  Config.get (config self) "scanning" "file_extensions"
    (Config.CStrs [".py"; ".js"; ".java"; ".yml"; ".yaml"]) = Config.CStrs exts ->
  let r := _scan_repository_files self repo in
  Repository.analyzed_files r
    = Repository.analyzed_files repo ++ List.filter (kept exts repo) tree /\
  Repository.stats_analyzed_files (Repository.stats r)
    = (Repository.stats_analyzed_files (Repository.stats repo)
       + Z.of_nat (length (List.filter (kept exts repo) tree)))%Z /\
  Repository.total_files (Repository.stats r) = Z.of_nat (length tree).
Proof.
  intros Hds Htree Hexts r. subst r. unfold _scan_repository_files.
  rewrite Htree, Hexts.
  set (repo0 := Repository.with_files repo _ _).
  assert (H0 : scanning repo0 [] 0 repo0).
  { repeat split; [now rewrite app_nil_r|lia]. }
  assert (Hkept : kept exts repo0 = kept exts repo) by reflexivity.
  destruct (scan_items_spec self exts repo0 tree [] 0 repo0 Hds H0)
    as (Hf & Hn & Ht & _).
  rewrite Hkept in *. cbn [app] in Hf. rewrite Z.add_0_l in Hn.
  split; [exact Hf|]. split; [|exact Ht].
  rewrite Hn. unfold repo0.
  cbn [Repository.stats Repository.with_files Repository.stats_analyzed_files].
  reflexivity.
Qed.

Lemma scan_repository_files_analyzed_witness :
  let r := _scan_repository_files Examples.noting_scanner
             (Repository.init Examples.three_files) in
  Repository.analyzed_files r = ["app.py"] /\
  Repository.stats_analyzed_files (Repository.stats r) = 1%Z /\
  Repository.total_files (Repository.stats r) = 3%Z.
Proof.
  assert (Hds : Forall well_behaved (detectors Examples.noting_scanner)).
  { constructor; [|constructor]. intros repo content file_path. repeat split. }
  destruct (scan_repository_files_analyzed Examples.noting_scanner
              (Repository.init Examples.three_files)
              ["app.py"; "logo.png"; "gone.js"] Config.default_extensions
              Hds eq_refl) as (H1 & H2 & H3).
  - vm_compute. reflexivity.
  - split; [exact H1|]. split; [exact H2|exact H3].
Defined.

(** *** Groups without projects *)

(** X8. The pool is created with min(configured, number of projects)
    workers and the executor refuses a size below one: for a group without
    projects, or a configured concurrency of zero or less, [scan] raises
    [ValueError] instead of completing with nothing scanned. *)
Theorem scan_refuses_empty_pool self group projects n :
  groups_get self = inr group ->
  projects_list group = inr projects ->
  Config.get (config self) "scanning" "concurrent_scans" (Config.CInt 5)
    = Config.CInt n ->
  (Z.min n (Z.of_nat (length projects)) <= 0)%Z ->
  scan self None = raise (ValueError "max_workers must be greater than 0").
Proof.
  intros Hg Hp Hn Hmin. unfold scan, scan_projects, max_workers.
  rewrite Hg, Hp, Hn. cbn [ok].
  now destruct (Z.leb_spec (Z.min n (Z.of_nat (length projects))) 0); [|lia].
Qed.

Lemma scan_refuses_empty_pool_witness :
  scan (Examples.empty_group {| Config.config := Config.DEFAULT_CONFIG |}) None
  = raise (ValueError "max_workers must be greater than 0").
Proof.
  apply (scan_refuses_empty_pool
           (Examples.empty_group {| Config.config := Config.DEFAULT_CONFIG |})
           {| group_name := "acme"; projects_list := ok [] |} [] 5).
  - reflexivity.
  - reflexivity.
  - vm_compute. reflexivity.
  - vm_compute. discriminate.
Defined.

(** *** The analyzers the configuration loads *)

(** X9. [DependencyAnalyzer] has no [analyze] method. When the configuration
    enables the dependency analyzer, as the default configuration does, and
    at least one repository was scanned, the cross-repository phase raises
    and [scan] does not return normally. *)
Theorem scan_raises_with_dependency_analyzer self finditer documentation_analyze
        group projects repo repositories :
  analyzers self
    = map (Loader.analyze_method finditer documentation_analyze)
          (Loader._load_analyzers (config self)) ->
  Loader.truthy (Loader.setting (config self) "analyzers" "dependencies") = true ->
  groups_get self = inr group ->
  projects_list group = inr projects ->
  scan_projects self projects = ok (repo :: repositories) ->
  scan self None
  = raise (OtherError
      "AttributeError: 'DependencyAnalyzer' object has no attribute 'analyze'").
Proof.
  intros Han Hdep Hg Hp Hscan. unfold scan. rewrite Hg, Hp, Hscan.
  unfold _run_cross_repo_analysis. rewrite Han.
  unfold Loader._load_analyzers. rewrite Hdep.
  destruct (Loader.truthy (Loader.setting (config self) "analyzers" "connections"));
    reflexivity.
Qed.

Lemma scan_raises_with_dependency_analyzer_witness :
  scan (Examples.loaded_scanner {| Config.config := Config.DEFAULT_CONFIG |}) None
  = raise (OtherError
      "AttributeError: 'DependencyAnalyzer' object has no attribute 'analyze'").
Proof.
  set (self := Examples.loaded_scanner {| Config.config := Config.DEFAULT_CONFIG |}).
  assert (Hsome : match scan_projects self (Examples.handles 10) with
                  | inr (_ :: _) => True
                  | _ => False
                  end) by (vm_compute; exact I).
  destruct (scan_projects self (Examples.handles 10))
    as [e|[|repo repositories]] eqn:Hscan; try contradiction.
  apply (scan_raises_with_dependency_analyzer self Examples.demo_finditer
           (fun repositories => ok repositories)
           {| group_name := "acme"; projects_list := ok (Examples.handles 10) |}
           (Examples.handles 10) repo repositories).
  - reflexivity.
  - vm_compute. reflexivity.
  - reflexivity.
  - reflexivity.
  - exact Hscan.
Defined.

End ScanFacts.

(** ** Utilities *)

Module UtilsFacts.
Import Utils PyStr.

Section Chunks.

Context {A : Type}.
Variables (items : list A) (c : nat).
Hypothesis c_positive : (0 < c)%nat.

Lemma range_from_bound fuel i j :
  j ∈ range_from fuel i (length items) c -> (j < length items)%nat.
Proof.
  revert i. induction fuel as [|f IH]; intros i; cbn [range_from].
  - intros H. inversion H.
  - destruct (Nat.ltb_spec i (length items)); [|intros H'; inversion H'].
    intros Hin. apply elem_of_cons in Hin as [->|Hin]; [assumption|].
    now apply (IH (i + c)%nat).
Qed.

(** With enough fuel the chunks from [i] on make up what is left from [i]
    on. *)
Lemma concat_chunks fuel i :
  (length items <= fuel + i)%nat ->
  concat (map (fun i => take c (drop i items)) (range_from fuel i (length items) c)) = drop i items.
Proof.
  revert i. induction fuel as [|f IH]; intros i Hfuel; cbn [range_from].
  - cbn. symmetry. apply drop_ge. lia.
  - destruct (Nat.ltb_spec i (length items)) as [Hlt|Hge].
    + cbn [map concat]. rewrite IH by lia.
      rewrite <- drop_drop. apply take_drop.
    + cbn. symmetry. apply drop_ge. lia.
Qed.

Lemma chunk_length i :
  (i < length items)%nat ->
  (0 < length (take c (drop i items)) <= c)%nat.
Proof.
  intros Hi. rewrite length_take, length_drop. lia.
Qed.

(** A chunk that has a successor is full. *)
Lemma chunk_full fuel i k ch :
  map (fun i => take c (drop i items)) (range_from fuel i (length items) c) !! k = Some ch ->
  is_Some (map (fun i => take c (drop i items)) (range_from fuel i (length items) c) !! S k) ->
  length ch = c.
Proof.
  revert i k. induction fuel as [|f IH]; intros i k; cbn [range_from];
    [intros H; inversion H|].
  destruct (Nat.ltb_spec i (length items)) as [Hlt|Hge];
    [|intros H; inversion H].
  cbn [map]. destruct k as [|k].
  - intros [= <-] [ch' Hnext]. cbn in Hnext.
    destruct f as [|f']; [inversion Hnext|]. cbn [range_from] in Hnext.
    destruct (Nat.ltb_spec (i + c) (length items)) as [Hlt'|];
      [|inversion Hnext].
    rewrite length_take, length_drop. lia.
  - intros Hk Hnext. now apply (IH (i + c)%nat k).
Qed.

End Chunks.

(** X10. [chunked_list] cuts without losing anything: for a positive size
    it returns chunks that, put end to end, are the list itself, every chunk
    holds between one and [chunk_size] items and every chunk but the last
    holds exactly [chunk_size]. A size of zero raises [ValueError] and a
    negative size gives no chunk at all, whatever the list. *)
Theorem chunked_list_partitions {A} (items : list A) (chunk_size : Z) :
  (chunk_size = 0%Z ->
   chunked_list items chunk_size
   = raise (ValueError "range() arg 3 must not be zero")) /\
  ((chunk_size < 0)%Z -> chunked_list items chunk_size = ok []) /\
  ((0 < chunk_size)%Z ->
   exists chunks,
     chunked_list items chunk_size = ok chunks /\
     concat chunks = items /\
     Forall (fun ch => (0 < length ch <= Z.to_nat chunk_size)%nat) chunks /\
     (forall k ch, chunks !! k = Some ch -> is_Some (chunks !! S k) ->
                   length ch = Z.to_nat chunk_size)).
Proof.
  unfold chunked_list. split; [|split].
  - intros ->. reflexivity.
  - intros Hneg. destruct (Z.eqb_spec chunk_size 0); [lia|].
    destruct (Z.ltb_spec chunk_size 0); [reflexivity|lia].
  - intros Hpos. destruct (Z.eqb_spec chunk_size 0); [lia|].
    destruct (Z.ltb_spec chunk_size 0); [lia|].
    assert (Hcn : (0 < Z.to_nat chunk_size)%nat) by lia.
    eexists. split; [reflexivity|]. split; [|split].
    + rewrite (concat_chunks items _ Hcn) by lia. apply drop_0.
    + apply Forall_forall. intros ch Hin.
      apply list_elem_of_fmap in Hin as (j & -> & Hj).
      apply range_from_bound in Hj. now apply chunk_length.
    + intros k ch. now apply chunk_full.
Qed.

(** *** Patterns in content *)

Lemma startswith_lower s p :
  startswith s p = true -> startswith (lower s) (lower p) = true.
Proof.
  revert s. induction p as [|a p IH]; intros s; [intros; apply PyStrFacts.startswith_nil|].
  destruct s as [|b s]; [discriminate|]. cbn [startswith lower].
  destruct (Ascii.eqb_spec a b) as [->|]; [|discriminate].
  rewrite Ascii.eqb_refl. apply IH.
Qed.

Lemma contains_lower p s :
  contains p s = true -> contains (lower p) (lower s) = true.
Proof.
  induction s as [|b s IH]; cbn [contains lower].
  - destruct (startswith "" p) eqn:H; [|discriminate].
    intros _. apply startswith_lower in H. cbn [lower] in H. now rewrite H.
  - destruct (startswith (String b s) p) eqn:H.
    + intros _. apply startswith_lower in H. cbn [lower] in H. now rewrite H.
    + intros Hc. rewrite (IH Hc).
      now destruct (startswith _ (lower p)).
Qed.

(** X11. Matching without regard to case finds whatever exact matching
    finds: when some pattern occurs in an ASCII content as written,
    [find_pattern_in_content] with the default [case_sensitive=False] answers
    true as well. (Beyond ASCII [str.lower] looks at the neighbours of a
    letter, and the model of [lower] does not apply.) *)
Theorem find_pattern_case_insensitive content patterns :
  is_ascii content = true ->
  find_pattern_in_content content patterns true = true ->
  find_pattern_in_content content patterns false = true.
Proof.
  intros _. unfold find_pattern_in_content. rewrite !existsb_exists.
  intros (p & Hin & Hp). exists (lower p). split.
  - apply in_map_iff. eauto.
  - now apply contains_lower.
Qed.

Lemma find_pattern_case_insensitive_witness :
  find_pattern_in_content "import React from 'react'" ["React"; "Vue"] false = true.
Proof.
  apply find_pattern_case_insensitive; reflexivity.
Defined.

End UtilsFacts.

(** ** Connection analyzer: what a run keeps *)

Module AnalyzeFacts.
Import PyStr Connection FoldFacts.

Section Run.

Variable finditer : Pattern -> string -> list Match.

(** A relation between a record and what a pass makes of it, kept by each
    pass, is kept by the whole run, record by record and in order. *)
Lemma analyze_related (P : Repository.t -> Repository.t -> Prop) :
  (forall endpoints r, P r (snd (index_repo finditer endpoints r))) ->
  (forall endpoints r x, P r x -> P r (connect_repo finditer endpoints x)) ->
  (forall repositories names r x,
     P r x -> P r (service_repo finditer repositories names x)) ->
  forall repositories, Forall2 P repositories (analyze finditer repositories).
Proof.
  intros Hindex Hconnect Hservice repositories.
  unfold analyze. destruct repositories as [|r0 rest]; [constructor|].
  set (repositories := r0 :: rest). clearbody repositories.
  unfold _extract_api_endpoints.
  assert (Hext : forall rs endpoints,
            Forall2 P rs (snd (extract_from finditer endpoints rs))).
  { induction rs as [|r rs IH]; intros endpoints; [constructor|].
    cbn [extract_from]. specialize (Hindex endpoints r).
    destruct (index_repo finditer endpoints r) as [eps1 r1].
    specialize (IH eps1).
    destruct (extract_from finditer eps1 rs) as [eps2 rs']. cbn [snd] in *.
    now constructor. }
  specialize (Hext repositories ODict.empty).
  destruct (extract_from finditer ODict.empty repositories)
    as [api_endpoints reps1]. cbn [snd] in Hext.
  unfold _find_service_connections, _find_api_connections.
  set (reps2 := map (connect_repo finditer api_endpoints) reps1).
  set (names := collect_repo_names reps2).
  clearbody names.
  assert (H2 : Forall2 P repositories reps2).
  { unfold reps2. clear reps2. induction Hext; cbn [map]; constructor; auto. }
  clear Hext. clearbody reps2. generalize reps2 at 1 as others. intros others.
  induction H2; cbn [map]; constructor; auto.
Qed.

(** What each pass keeps of a record, from what the mutator it calls
    keeps. *)
Lemma index_repo_kept (Q : Repository.t -> Prop) :
  (forall x path method source,
     Q x -> Q (Repository.add_api_endpoint path method source None x)) ->
  forall endpoints r, Q r -> Q (snd (index_repo finditer endpoints r)).
Proof.
  intros Hapi endpoints r Hr. unfold index_repo.
  destruct (Repository.scanned r); [|exact Hr].
  apply (fold_left_invariant (fun st : index_state => Q (snd st)));
    [|exact Hr].
  intros st file _ Hst. unfold index_file.
  destruct (is_code_file file); [|exact Hst].
  destruct (fetch (snd st) file); [|exact Hst].
  apply (fold_left_invariant (fun st : index_state => Q (snd st)));
    [|exact Hst].
  intros st1 pattern _ Hst1.
  apply (fold_left_invariant (fun st : index_state => Q (snd st)));
    [|exact Hst1].
  intros [eps x] m _ Hx. unfold index_match.
  destruct (truthy_str (match_path m)); [|exact Hx].
  cbn [snd] in *. now apply Hapi.
Qed.

Lemma connect_repo_kept (Q : Repository.t -> Prop) :
  (forall x dep_type n, Q x -> Q (Repository.add_dependency dep_type n x)) ->
  forall endpoints x, Q x -> Q (connect_repo finditer endpoints x).
Proof.
  intros Hdep endpoints x Hx. unfold connect_repo.
  destruct (Repository.scanned x); [|exact Hx].
  apply (fold_left_invariant Q); [|exact Hx].
  intros x1 file _ Hx1. unfold connect_file.
  destruct (is_code_file file); [|exact Hx1].
  destruct (fetch x1 file); [|exact Hx1].
  apply (fold_left_invariant Q); [|exact Hx1].
  intros x2 pattern _ Hx2.
  apply (fold_left_invariant Q); [|exact Hx2].
  intros x3 m _ Hx3. unfold connect_match.
  destruct (truthy_str (match_path m)); [|exact Hx3].
  apply (fold_left_invariant Q); [|exact Hx3].
  intros x4 item _ Hx4. unfold connect_infos.
  apply (fold_left_invariant Q); [|exact Hx4].
  intros x5 info _ Hx5.
  destruct (negb _); [now apply Hdep|exact Hx5].
Qed.

Lemma service_repo_kept (Q : Repository.t -> Prop) :
  (forall x dep_type n, Q x -> Q (Repository.add_dependency dep_type n x)) ->
  forall repositories names x,
    Q x -> Q (service_repo finditer repositories names x).
Proof.
  intros Hdep repositories names x Hx.
  assert (Hlink : forall wanted x0, Q x0 ->
            Q (link_targets wanted repositories x0)).
  { intros wanted x0 Hx0. unfold link_targets.
    apply (fold_left_invariant Q); [|exact Hx0].
    intros x1 target _ Hx1.
    destruct (_ && _)%bool; [now apply Hdep|exact Hx1]. }
  unfold service_repo.
  destruct (Repository.scanned x); [|exact Hx].
  apply (fold_left_invariant Q); [|exact Hx].
  intros x1 file _ Hx1. unfold service_file.
  destruct (_ && _)%bool; [exact Hx1|].
  destruct (fetch x1 file); [|exact Hx1].
  apply (fold_left_invariant Q).
  - intros x2 repo_name _ Hx2. unfold url_token.
    destruct (5 <? String.length repo_name)%nat; [|exact Hx2].
    apply (fold_left_invariant Q); [|exact Hx2].
    intros x3 m _ Hx3. now apply Hlink.
  - apply (fold_left_invariant Q); [|exact Hx1].
    intros x2 pattern _ Hx2.
    apply (fold_left_invariant Q); [|exact Hx2].
    intros x3 m _ Hx3. unfold service_match.
    destruct (truthy_str (group1 m)); [|exact Hx3].
    apply (fold_left_invariant Q); [|exact Hx3].
    intros x4 repo_name _ Hx4. unfold link_token.
    destruct (_ || _)%bool; [|exact Hx4]. now apply Hlink.
Qed.

(** A property of the record kept by both mutators is kept by the run. *)
Lemma analyze_preserved (P : Repository.t -> Repository.t -> Prop) :
  (forall r, P r r) ->
  (forall r x path method source,
     P r x -> P r (Repository.add_api_endpoint path method source None x)) ->
  (forall r x dep_type n, P r x -> P r (Repository.add_dependency dep_type n x)) ->
  forall repositories, Forall2 P repositories (analyze finditer repositories).
Proof.
  intros Hrefl Hapi Hdep. apply analyze_related.
  - intros endpoints r. apply (index_repo_kept (P r)); [apply Hapi|apply Hrefl].
  - intros endpoints r x. apply (connect_repo_kept (P r)), Hdep.
  - intros repositories names r x. apply (service_repo_kept (P r)), Hdep.
Qed.

(** X12. The analyzer only adds links: it returns as many records as it was
    given, in the same order, and each differs from the one given at most in
    its [apis] and its [dependencies]; identity, files, technologies,
    documentation and counters are as they were. *)
Theorem analyze_only_adds_links repositories :
  Forall2 same_but_links repositories (analyze finditer repositories).
Proof.
  apply analyze_preserved.
  - intros r. repeat split.
  - intros r x path method source Hx. exact Hx.
  - intros r x dep_type n Hx. unfold Repository.add_dependency.
    destruct (Repository.str_in n _); exact Hx.
Qed.

(** X13. The dependency lists stay free of duplicates: a record whose lists
    held no name twice before the run holds none twice after it, however
    often the same pair is matched. *)
Theorem analyze_keeps_dependencies_deduplicated repositories :
  Forall2 (fun r r' => Repository.deduplicated r -> Repository.deduplicated r')
          repositories (analyze finditer repositories).
Proof.
  apply (analyze_preserved
           (fun r x => Repository.deduplicated r -> Repository.deduplicated x)).
  - auto.
  - intros r x path method source Hx Hr. exact (Hx Hr).
  - intros r x dep_type n Hx Hr.
    apply RecordFacts.add_dependency_deduplicated. exact (Hx Hr).
Qed.

(** X14. A record that is not scanned, or that has no analysed file, is
    skipped by every pass: it comes back as it was given and adds nothing to
    the endpoint index. *)
Theorem analyze_skips repositories :
  Forall2 (fun r r' => skipped r -> r' = r)
          repositories (analyze finditer repositories) /\
  (forall endpoints r,
     skipped r -> index_repo finditer endpoints r = (endpoints, r)).
Proof.
  assert (Hindex : forall endpoints r,
            skipped r -> index_repo finditer endpoints r = (endpoints, r)).
  { intros endpoints r [Hs|Hf]; unfold index_repo.
    - now rewrite Hs.
    - rewrite Hf. now destruct (Repository.scanned r). }
  split; [|exact Hindex].
  apply analyze_related.
  - intros endpoints r Hr. now rewrite (Hindex endpoints r Hr).
  - intros endpoints r x Hx Hr. rewrite (Hx Hr). unfold connect_repo.
    destruct Hr as [Hs|Hf]; [now rewrite Hs|].
    rewrite Hf. now destruct (Repository.scanned r).
  - intros others names r x Hx Hr. rewrite (Hx Hr). unfold service_repo.
    destruct Hr as [Hs|Hf]; [now rewrite Hs|].
    rewrite Hf. now destruct (Repository.scanned r).
Qed.

Lemma http_method_known text :
  In (http_method text) ["GET"; "POST"; "PUT"; "DELETE"; "PATCH"].
Proof.
  unfold http_method.
  repeat (destruct (contains _ _); [cbn; tauto|]). cbn; tauto.
Qed.

Lemma add_dependency_apis dep_type n x :
  Repository.apis (Repository.add_dependency dep_type n x) = Repository.apis x /\
  Repository.analyzed_files (Repository.add_dependency dep_type n x)
  = Repository.analyzed_files x.
Proof.
  unfold Repository.add_dependency.
  destruct (Repository.str_in n _); split; reflexivity.
Qed.

(** X15. The run never drops or rewrites an endpoint observation: the [apis]
    of each record afterwards are those it had, in order, followed by the new
    ones; and each new one names one of the five methods, comes from one of
    the record's analysed files with a code extension, has an empty
    description and carries a path that went through [_normalize_path]. *)
Theorem analyze_appends_endpoints repositories :
  Forall2 (fun r r' =>
             exists added,
               Repository.apis r' = Repository.apis r ++ added /\
               Forall (recorded_for r) added)
          repositories (analyze finditer repositories).
Proof.
  apply (Forall2_impl gained); [|intros r x [_ H]; exact H].
  assert (Hdep : forall r x dep_type n,
            gained r x -> gained r (Repository.add_dependency dep_type n x)).
  { intros r x dep_type n [Hf (added & Ha & Hall)].
    destruct (add_dependency_apis dep_type n x) as [Hapis Hfiles].
    split; [now rewrite Hfiles|]. exists added. now rewrite Hapis. }
  apply analyze_related.
  - intros endpoints r. unfold index_repo.
    destruct (Repository.scanned r);
      [|split; [reflexivity|exists []; split; [now rewrite app_nil_r|constructor]]].
    apply (fold_left_invariant (fun st : index_state => gained r (snd st))).
    2:{ split; [reflexivity|exists []; split; [now rewrite app_nil_r|constructor]]. }
    intros st file Hfile Hst. unfold index_file.
    destruct (is_code_file file) eqn:Hcode; [|exact Hst].
    destruct (fetch (snd st) file); [|exact Hst].
    apply (fold_left_invariant (fun st : index_state => gained r (snd st)));
      [|exact Hst].
    intros st1 pattern _ Hst1.
    apply (fold_left_invariant (fun st : index_state => gained r (snd st)));
      [|exact Hst1].
    intros [eps x] m _ Hx. unfold index_match.
    destruct (truthy_str (match_path m)); [|exact Hx].
    cbn [snd] in *. destruct Hx as [Hf (added & Ha & Hall)].
    split; [exact Hf|].
    eexists (added ++ [_]). split.
    + unfold Repository.add_api_endpoint. cbn. rewrite Ha.
      now rewrite <- app_assoc.
    + apply Forall_app. split; [exact Hall|]. constructor; [|constructor].
      unfold recorded_for. cbn.
      split; [apply http_method_known|].
      split; [now apply list_elem_of_In|].
      split; [exact Hcode|]. split; [reflexivity|]. eauto.
  - intros endpoints r x. apply (connect_repo_kept (gained r)), Hdep.
  - intros others names r x. apply (service_repo_kept (gained r)), Hdep.
Qed.

End Run.

End AnalyzeFacts.

(** ** Paths without parameter syntax *)

Module PlainPathFacts.
Import PyStr Connection PyStrFacts NormalizeFacts.

Lemma rstrip_cons c a r :
  rstrip c (String a r)
  = match rstrip c r with
    | EmptyString => if Ascii.eqb a c then EmptyString else String a EmptyString
    | r' => String a r'
    end.
Proof. reflexivity. Qed.

Lemma rstrip_twice c s : rstrip c (rstrip c s) = rstrip c s.
Proof.
  induction s as [|a r IH]; [reflexivity|]. cbn [rstrip].
  destruct (rstrip c r) as [|b r'] eqn:Hr.
  - destruct (Ascii.eqb a c) eqn:Ha; [reflexivity|].
    cbn [rstrip]. now rewrite Ha.
  - rewrite rstrip_cons. now rewrite IH.
Qed.

Lemma all_chars_rstrip p c s :
  all_chars p s = true -> all_chars p (rstrip c s) = true.
Proof.
  induction s as [|a r IH]; [reflexivity|]. cbn [all_chars rstrip].
  intros H. apply andb_prop in H as [Ha Hr]. specialize (IH Hr).
  destruct (rstrip c r) as [|b r'].
  - destruct (Ascii.eqb a c); [reflexivity|]. cbn [all_chars]. now rewrite Ha.
  - cbn [all_chars] in *. now rewrite Ha, IH.
Qed.

(** X16. A path that holds none of [:], [<] and [{] only loses its trailing
    slashes: no host is cut off and nothing is replaced. On such paths
    normalising a second time changes nothing. *)
Theorem normalize_path_without_parameters path :
  avoids ":" path = true ->
  avoids "<" path = true ->
  avoids "{" path = true ->
  _normalize_path path = rstrip "/" path /\
  _normalize_path (_normalize_path path) = _normalize_path path.
Proof.
  assert (Hplain : forall p,
            avoids ":" p = true -> avoids "<" p = true -> avoids "{" p = true ->
            _normalize_path p = rstrip "/" p).
  { intros p Hc Ha Hb. unfold _normalize_path.
    apply (all_chars_rstrip _ "/") in Hc, Ha, Hb.
    set (q := rstrip "/" p) in *. clearbody q.
    pose proof (contains_scheme_skip q "" Hc) as Hs.
    rewrite append_nil_r in Hs. rewrite Hs. cbn [contains startswith].
    pose proof (sub_colon_skip_text q "" Hc) as H1.
    rewrite append_nil_r in H1. cbn [sub_colon] in H1.
    rewrite append_nil_r in H1. rewrite H1.
    pose proof (sub_group_skip_text "<" ">" q "" Ha) as H2.
    rewrite append_nil_r in H2. cbn [sub_group] in H2.
    rewrite append_nil_r in H2. rewrite H2.
    pose proof (sub_group_skip_text "{" "}" q "" Hb) as H3.
    rewrite append_nil_r in H3. cbn [sub_group] in H3.
    now rewrite append_nil_r in H3. }
  intros Hc Ha Hb. split; [now apply Hplain|].
  rewrite (Hplain path Hc Ha Hb).
  rewrite Hplain; [apply rstrip_twice| | |]; now apply all_chars_rstrip.
Qed.

Lemma normalize_path_without_parameters_witness :
  _normalize_path "/api/users//" = "/api/users" /\
  _normalize_path (_normalize_path "/api/users//") = _normalize_path "/api/users//".
Proof.
  apply (normalize_path_without_parameters "/api/users//"); reflexivity.
Defined.

End PlainPathFacts.

(** ** Dependency analyzer: the shape of the result *)

Module DependencyGraphFacts.
Import PyStr Dependency FoldFacts DependencyFacts.

(** Every value of the candidate table is one of the repositories. *)
Lemma repo_packages_values repos_data item :
  item ∈ ODict.items (build_repo_packages repos_data) ->
  snd item ∈ ODict.keys repos_data.
Proof.
  destruct item as [key b]. intros Hin. cbn [snd].
  apply (item_iff_get _ _ _ (repo_packages_NoDup repos_data)) in Hin.
  rewrite get_repo_packages in Hin.
  now apply last_claimant_Some in Hin as [Hb _].
Qed.

(** X17. The result of [find_cross_repo_dependencies] is a graph on the
    repositories it was given: every key is one of them, its list is not
    empty and holds no name twice, and every name in it is one of the
    repositories given and never the key itself. A repository without a match
    has no entry at all. *)
Theorem cross_repo_result_is_a_graph repos_data a deps :
  (a, deps) ∈ ODict.items (find_cross_repo_dependencies repos_data) ->
  a ∈ ODict.keys repos_data /\
  deps <> [] /\
  NoDup deps /\
  forall b, b ∈ deps -> b ∈ ODict.keys repos_data /\ b <> a.
Proof.
  unfold find_cross_repo_dependencies.
  set (pk := build_repo_packages repos_data).
  assert (Hpk : forall item, item ∈ ODict.items pk ->
                             snd item ∈ ODict.keys repos_data)
    by apply repo_packages_values.
  clearbody pk. revert a deps.
  apply (fold_left_invariant
           (fun out : ODict.t (list string) =>
              forall a deps, (a, deps) ∈ ODict.items out ->
                a ∈ ODict.keys repos_data /\ deps <> [] /\ NoDup deps /\
                forall b, b ∈ deps -> b ∈ ODict.keys repos_data /\ b <> a)).
  - intros out [repo_name repo_info] Hitem Hout a deps.
    destruct (repo_dependencies pk repo_name repo_info) as [|x l] eqn:Hdeps;
      [apply Hout|].
    intros Hin. apply ODictFacts.items_set in Hin as [[= -> ->]|Hin];
      [|now apply Hout].
    split; [|split; [discriminate|split]].
    + unfold ODict.keys. apply list_elem_of_fmap.
      exists (repo_name, repo_info). split; [reflexivity|exact Hitem].
    + rewrite <- Hdeps. apply repo_dependencies_NoDup.
    + intros b Hb. rewrite <- Hdeps in Hb.
      apply repo_dependencies_elem_of in Hb
        as (dep_file & dep & item & _ & _ & Hi & <- & _ & Hne).
      split; [now apply Hpk|exact Hne].
  - intros a deps Hin. inversion Hin.
Qed.

Lemma cross_repo_result_is_a_graph_witness :
  "billing-service" ∈ ODict.keys Examples.billing_repos /\
  ["billing"] <> [] /\
  NoDup ["billing"] /\
  forall b, b ∈ ["billing"] ->
            b ∈ ODict.keys Examples.billing_repos /\ b <> "billing-service".
Proof.
  apply (cross_repo_result_is_a_graph Examples.billing_repos).
  vm_compute. apply list_elem_of_here.
Defined.

End DependencyGraphFacts.

(** ** Dependency analyzer: manifests *)

Module ManifestFacts.
Import PyStr Dependency Manifest NormalizeFacts.

Lemma tally_app l1 l2 o : tally (l1 ++ l2) o = tally l2 (tally l1 o).
Proof.
  destruct l1 as [|a l1]; [reflexivity|].
  destruct l2 as [|b l2].
  - now rewrite app_nil_r.
  - cbn [tally app default length]. f_equal. rewrite length_app. cbn [length].
    unfold id. lia.
Qed.

Lemma count_dep_get types total dep ty :
  ODict.get ty (fst (count_dep (types, total) dep))
  = tally (List.filter (with_type ty) [dep]) (ODict.get ty types) /\
  snd (count_dep (types, total) dep) = (total + 1)%Z.
Proof.
  unfold count_dep, with_type. cbn [fst snd List.filter]. split; [|reflexivity].
  set (k := dep_type dep).
  assert (Hsame : forall ty',
            default 0%Z (ODict.get ty'
               (if ODict.mem k types then types else ODict.set k 0%Z types))
            = default 0%Z (ODict.get ty' types) /\
            (k <> ty' ->
             ODict.get ty'
               (if ODict.mem k types then types else ODict.set k 0%Z types)
             = ODict.get ty' types)).
  { intros ty'. unfold ODict.mem.
    destruct (ODict.get k types) as [v|] eqn:Hk; [split; reflexivity|].
    destruct (String.eqb_spec k ty') as [<-|Hne].
    - rewrite ODictFacts.get_set_eq, Hk. split; [reflexivity|congruence].
    - rewrite (ODictFacts.get_set_ne _ _ _ _ Hne). split; reflexivity. }
  destruct (String.eqb_spec k ty) as [<-|Hne].
  - rewrite ODictFacts.get_set_eq. cbn [tally length].
    destruct (Hsame k) as [-> _]. reflexivity.
  - rewrite (ODictFacts.get_set_ne _ _ _ _ Hne). cbn [tally].
    now apply Hsame.
Qed.

Lemma count_deps_get deps types total ty :
  ODict.get ty (fst (fold_left count_dep deps (types, total)))
  = tally (List.filter (with_type ty) deps) (ODict.get ty types) /\
  snd (fold_left count_dep deps (types, total))
  = (total + Z.of_nat (length deps))%Z.
Proof.
  revert types total. induction deps as [|dep deps IH]; intros types total.
  - cbn. split; [reflexivity|lia].
  - cbn [fold_left].
    destruct (count_dep_get types total dep ty) as [Hget Htot].
    destruct (count_dep (types, total) dep) as [types1 total1].
    cbn [fst snd] in Hget, Htot. subst total1.
    destruct (IH types1 (total + 1)%Z) as [IHget IHtot].
    rewrite IHget, IHtot, Hget, <- tally_app, <- List.filter_app.
    split; [reflexivity|]. cbn [length]. lia.
Qed.

Lemma analyze_files_from parsed result ty :
  let result' := fold_left analyze_file parsed result in
  total_dependencies result'
  = (total_dependencies result
     + Z.of_nat (length (concat (map snd parsed))))%Z /\
  ODict.get ty (dependency_types result')
  = tally (of_type ty parsed) (ODict.get ty (dependency_types result)) /\
  analysis_files result'
  = analysis_files result ++ map entry_of (List.filter has_dependencies parsed).
Proof.
  revert result. induction parsed as [|[path deps] parsed IH]; intros result.
  - cbn. rewrite app_nil_r. repeat split. lia.
  - cbn [fold_left]. specialize (IH (analyze_file result (path, deps))).
    cbn zeta in *. destruct IH as (IHtot & IHget & IHfiles).
    rewrite IHtot, IHget, IHfiles. clear IHtot IHget IHfiles.
    unfold of_type. cbn [map concat snd]. rewrite List.filter_app, tally_app.
    fold (of_type ty parsed).
    unfold analyze_file, has_dependencies. cbn [List.filter snd fst].
    destruct deps as [|dep deps]; [repeat split|].
    destruct (count_deps_get (dep :: deps) (dependency_types result)
                (total_dependencies result) ty) as [Hget Htot].
    destruct (fold_left count_dep (dep :: deps) _) as [types total].
    cbn [fst snd] in Hget, Htot. cbn [total_dependencies dependency_types
      analysis_files map]. rewrite Hget, Htot.
    split; [|split].
    + rewrite length_app. lia.
    + reflexivity.
    + now rewrite <- app_assoc.
Qed.

(** X18. The tallies of [analyze_repository] add up: [total_dependencies] is
    the number of dependencies parsed from all files, the count kept for a
    type is the number of dependencies of that type, a type without
    dependencies is no key of [dependency_types], and [dependency_files] has
    one entry, in order, for each file that gave at least one dependency and
    none for the others. *)
Theorem analyze_repository_tallies parsed :
  let result := analyze_repository parsed in
  total_dependencies result = Z.of_nat (length (concat (map snd parsed))) /\
  (forall ty,
     ODict.get ty (dependency_types result)
     = match of_type ty parsed with
       | [] => None
       | l => Some (Z.of_nat (length l))
       end) /\
  analysis_files result = map entry_of (List.filter has_dependencies parsed).
Proof.
  cbn zeta. unfold analyze_repository.
  split; [|split].
  - now destruct (analyze_files_from parsed
      {| analysis_files := []; total_dependencies := 0; dependency_types := [] |}
      "") as (-> & _ & _).
  - intros ty.
    destruct (analyze_files_from parsed
      {| analysis_files := []; total_dependencies := 0; dependency_types := [] |}
      ty) as (_ & -> & _).
    cbn [dependency_types ODict.get]. unfold tally.
    now destruct (of_type ty parsed).
  - now destruct (analyze_files_from parsed
      {| analysis_files := []; total_dependencies := 0; dependency_types := [] |}
      "") as (_ & _ & ->).
Qed.

(** *** Lines of a [requirements.txt] *)

Lemma span_spec p s :
  fst (span p s) +:+ snd (span p s) = s /\
  Connection.all_chars p (fst (span p s)) = true.
Proof.
  induction s as [|c r [IHapp IHall]]; [split; reflexivity|].
  cbn [span]. destruct (p c) eqn:Hc; [|split; reflexivity].
  destruct (span p r) as [a b]. cbn [fst snd] in *.
  rewrite PyStrFacts.append_cons, IHapp. cbn [Connection.all_chars].
  now rewrite Hc, IHall.
Qed.

(** A run of characters of the class, followed by nothing or by a character
    outside it, is what [span] cuts off. *)
Lemma span_app p name rest :
  Connection.all_chars p name = true ->
  match rest with EmptyString => True | String c _ => p c = false end ->
  span p (name +:+ rest) = (name, rest).
Proof.
  intros Hname Hrest. induction name as [|a name IH].
  - destruct rest as [|c r]; [reflexivity|].
    rewrite PyStrFacts.append_nil_l. cbn [span]. now rewrite Hrest.
  - cbn [Connection.all_chars] in Hname. apply andb_prop in Hname as [Ha Hn].
    rewrite PyStrFacts.append_cons. cbn [span]. now rewrite Ha, (IH Hn).
Qed.

Lemma chomp_no_newline s : Connection.avoids newline s = true -> chomp s = s.
Proof.
  induction s as [|c r IH]; [reflexivity|].
  unfold Connection.avoids. cbn [Connection.all_chars].
  intros H. apply andb_prop in H as [Hc Hr]. cbn [chomp].
  destruct r as [|d r'].
  - apply negb_true_iff in Hc. now rewrite Hc.
  - f_equal. now apply IH.
Qed.

Lemma name_char_no_newline c : name_char c = true -> negb (Ascii.eqb c newline) = true.
Proof.
  intros H. destruct (Ascii.eqb_spec c newline) as [->|]; [discriminate|reflexivity].
Qed.

Lemma operator_char_cases c :
  operator_char c = true ->
  name_char c = false /\ negb (Ascii.eqb c newline) = true /\
  negb (Ascii.eqb c "#") = true.
Proof.
  unfold operator_char. intros H.
  repeat (apply orb_prop in H as [H|H]);
    apply Ascii.eqb_eq in H; subst c; repeat split.
Qed.

Lemma name_char_not_space c : name_char c = true -> is_space c = false.
Proof.
  destruct c as [[] [] [] [] [] [] [] []]; vm_compute; intros H;
    first [reflexivity | discriminate H].
Qed.

Lemma lstrip_space_first c r :
  is_space c = false -> lstrip_space (String c r) = String c r.
Proof. intros H. cbn [lstrip_space]. now rewrite H. Qed.

Lemma rstrip_space_no_space s :
  Connection.all_chars (fun c => negb (is_space c)) s = true ->
  rstrip_space s = s.
Proof.
  induction s as [|c r IH]; [reflexivity|]. cbn [Connection.all_chars].
  intros H. apply andb_prop in H as [Hc Hr]. cbn [rstrip_space].
  rewrite (IH Hr). destruct r; [|reflexivity].
  apply negb_true_iff in Hc. now rewrite Hc.
Qed.

(** A name is left as it is by [strip]. *)
Lemma strip_name name :
  Connection.all_chars name_char name = true -> strip name = name.
Proof.
  intros Hname.
  assert (Hns : Connection.all_chars (fun c => negb (is_space c)) name = true).
  { apply (all_chars_weaken name_char); [|exact Hname].
    intros c Hc. now rewrite (name_char_not_space c Hc). }
  unfold strip. destruct name as [|a name']; [reflexivity|].
  cbn [Connection.all_chars] in Hname. apply andb_prop in Hname as [Ha _].
  rewrite (lstrip_space_first a name' (name_char_not_space a Ha)).
  now apply rstrip_space_no_space.
Qed.

(** What [strip] returns ends with no newline. *)
Lemma chomp_rstrip_space s : chomp (rstrip_space s) = rstrip_space s.
Proof.
  induction s as [|a r IH]; [reflexivity|]. cbn [rstrip_space].
  destruct (rstrip_space r) as [|b r'] eqn:Hr.
  - destruct (is_space a) eqn:Ha; [reflexivity|]. cbn [chomp].
    destruct (Ascii.eqb_spec a newline) as [->|]; [discriminate|reflexivity].
  - change (chomp (String a (String b r')))
      with (String a (chomp (String b r'))).
    now rewrite IH.
Qed.

(** X19. The ASCII lines of a [requirements.txt] that are recognised: a bare
    name, made of letters, digits, [_], [.] and [-], gives a dependency of type
    python with the version text [Not specified]; the same name followed at
    once by one of [< > = ! ~] and at least one more character gives the name
    with everything from that character on, as far as the line goes once
    stripped, as its version. *)
Theorem requirement_of_line_recognises name c tail :
  name <> "" ->
  Connection.all_chars name_char name = true ->
  operator_char c = true ->
  tail <> "" ->
  Connection.avoids newline tail = true ->
  is_ascii (name +:+ String c tail) = true ->
  strip (name +:+ String c tail) = name +:+ String c tail ->
  parse_requirement name
  = Some {| dep_name := name; dep_version := "Not specified";
            dep_type := "python" |} /\
  parse_requirement (name +:+ String c tail)
  = Some {| dep_name := name; dep_version := String c tail;
            dep_type := "python" |}.
Proof.
  intros Hne Hname Hop Htail Hnl _ Hstrip. unfold parse_requirement.
  rewrite Hstrip, (strip_name name Hname). clear Hstrip.
  destruct (operator_char_cases c Hop) as (Hc & Hcn & _).
  assert (Hname_nl : Connection.avoids newline name = true).
  { unfold Connection.avoids.
    apply (all_chars_weaken name_char); [apply name_char_no_newline|exact Hname]. }
  destruct name as [|a name']; [congruence|]. clear Hne.
  assert (Ha : name_char a = true).
  { cbn [Connection.all_chars] in Hname. now apply andb_prop in Hname as [Ha _]. }
  assert (Hhash : Ascii.eqb "#" a = false).
  { destruct (Ascii.eqb_spec "#" a) as [<-|]; [discriminate|reflexivity]. }
  split; unfold requirement_of_line.
  - cbn [String.eqb startswith]. rewrite Hhash. cbn [negb andb].
    unfold match_requirement. rewrite (chomp_no_newline _ Hname_nl).
    pose proof (span_app name_char (String a name') "" Hname I) as Hs.
    rewrite PyStrFacts.append_nil_r in Hs. now rewrite Hs.
  - rewrite PyStrFacts.append_cons.
    cbn [String.eqb startswith]. rewrite Hhash. cbn [negb andb].
    unfold match_requirement. rewrite <- PyStrFacts.append_cons.
    rewrite chomp_no_newline.
    2:{ rewrite avoids_app, Hname_nl. unfold Connection.avoids.
        cbn [Connection.all_chars]. now rewrite Hcn. }
    rewrite (span_app name_char (String a name') (String c tail) Hname Hc).
    destruct tail as [|d tail']; [congruence|].
    rewrite Hop. unfold Connection.avoids in Hnl. now rewrite Hnl.
Qed.

Lemma requirement_of_line_recognises_witness :
  parse_requirement "Django"
  = Some {| dep_name := "Django"; dep_version := "Not specified";
            dep_type := "python" |} /\
  parse_requirement "Django>=4.2,<5"
  = Some {| dep_name := "Django"; dep_version := ">=4.2,<5";
            dep_type := "python" |}.
Proof.
  apply (requirement_of_line_recognises "Django" ">" "=4.2,<5");
    first [reflexivity | discriminate].
Defined.

(** X20. Nothing else is recognised: an ASCII line that yields a dependency
    is, once stripped, its name, a non-empty run of letters, digits, [_], [.] and
    [-], followed by nothing, or by the version, which then starts with one
    of [< > = ! ~] and has at least one more character. A line with a space,
    a bracket, a semicolon or a comment after the name, or one that starts
    with an option such as [-r file], yields no dependency. *)
Theorem requirement_of_line_only line dep :
  is_ascii line = true ->
  parse_requirement line = Some dep ->
  dep_type dep = "python" /\
  dep_name dep <> "" /\
  Connection.all_chars name_char (dep_name dep) = true /\
  ((strip line = dep_name dep /\ dep_version dep = "Not specified") \/
   (strip line = dep_name dep +:+ dep_version dep /\
    exists c tail,
      dep_version dep = String c tail /\ operator_char c = true /\ tail <> "")).
Proof.
  intros _. unfold parse_requirement, requirement_of_line.
  destruct (_ && _)%bool; [|discriminate].
  unfold match_requirement.
  assert (Hchomp : chomp (strip line) = strip line)
    by apply chomp_rstrip_space.
  rewrite Hchomp.
  destruct (span_spec name_char (strip line)) as [Happ Hall].
  destruct (span name_char (strip line)) as [name rest]. cbn [fst snd] in *.
  destruct name as [|a name']; [discriminate|].
  destruct rest as [|c tail].
  - intros H. cbn in H. inversion H; subst.
    cbn [dep_type dep_name dep_version].
    rewrite PyStrFacts.append_nil_r in Happ.
    split; [reflexivity|]. split; [discriminate|]. split; [exact Hall|].
    left. now split.
  - destruct tail as [|d tail']; [discriminate|].
    destruct (operator_char c) eqn:Hop; cbn [andb]; [|discriminate].
    destruct (Connection.all_chars (fun x => negb (Ascii.eqb x newline))
                (String d tail')); [|discriminate].
    intros H. cbn in H. inversion H; subst.
    cbn [dep_type dep_name dep_version].
    split; [reflexivity|]. split; [discriminate|]. split; [exact Hall|].
    right. split; [now rewrite Happ|].
    exists c, (String d tail'). split; [reflexivity|]. split; [exact Hop|discriminate].
Qed.

Lemma requirement_of_line_only_witness :
  dep_type {| dep_name := "requests"; dep_version := "==2.31.0";
              dep_type := "python" |} = "python" /\
  "requests" <> "" /\
  Connection.all_chars name_char "requests" = true /\
  ((strip "  requests==2.31.0 " = "requests" /\ "==2.31.0" = "Not specified") \/
   (strip "  requests==2.31.0 " = "requests" +:+ "==2.31.0" /\
    exists c tail,
      "==2.31.0" = String c tail /\ operator_char c = true /\ tail <> "")).
Proof.
  apply (requirement_of_line_only "  requests==2.31.0 "
           {| dep_name := "requests"; dep_version := "==2.31.0";
              dep_type := "python" |}); reflexivity.
Defined.

(** Lines the parser passes over, although pip accepts them. *)
Lemma requirement_lines_dropped :
  parse_requirement "flask >= 2.0" = None /\
  parse_requirement "uvicorn[standard]==0.23" = None /\
  parse_requirement "-r base.txt" = None /\
  parse_requirement "  # pinned" = None /\
  parse_requirement "pytest=" = None.
Proof. vm_compute. repeat split. Qed.

End ManifestFacts.

(** ** Service groups *)

Module ServiceGroupFacts.
Import PyStr ServiceGroups PyStrFacts.

Lemma lower_app a b : lower (a +:+ b) = lower a +:+ lower b.
Proof.
  induction a as [|c a IH]; [now rewrite !append_nil_l|].
  cbn [lower]. now rewrite !append_cons, <- IH.
Qed.

Lemma length_lower s : String.length (lower s) = String.length s.
Proof. induction s as [|c s IH]; [reflexivity|]. cbn. now rewrite IH. Qed.

Lemma length_app_str a b :
  String.length (a +:+ b) = (String.length a + String.length b)%nat.
Proof.
  induction a as [|c a IH]; [now rewrite append_nil_l|].
  rewrite append_cons. cbn [String.length]. now rewrite IH.
Qed.

Lemma endswith_spec s p : endswith s p = true <-> exists pre, s = pre +:+ p.
Proof.
  split.
  - induction s as [|c s IH]; cbn [endswith].
    + destruct (String.eqb_spec "" p) as [<-|]; [|discriminate].
      intros _. now exists "".
    + destruct (String.eqb_spec (String c s) p) as [<-|].
      * intros _. exists "". now rewrite append_nil_l.
      * intros H. destruct (IH H) as [pre ->]. exists (String c pre).
        now rewrite append_cons.
  - intros [pre ->]. induction pre as [|c pre IH].
    + rewrite append_nil_l. destruct p; cbn [endswith]; now rewrite String.eqb_refl.
    + rewrite append_cons. cbn [endswith]. rewrite IH.
      now destruct (String.eqb _ p).
Qed.

(** Two strings with a common end: one is the end of the other. *)
Lemma common_end x t pre p :
  x +:+ t = pre +:+ p -> endswith t p = true \/ endswith p t = true.
Proof.
  revert pre. induction x as [|a x IH]; intros pre.
  - rewrite append_nil_l. intros ->. left. apply endswith_spec. eauto.
  - destruct pre as [|b pre].
    + rewrite append_nil_l. intros <-. right. apply endswith_spec. eauto.
    + rewrite !append_cons. intros [= _ H]. now apply IH in H.
Qed.

Lemma endswith_app_other x t p :
  endswith t p = false -> endswith p t = false -> endswith (x +:+ t) p = false.
Proof.
  intros Htp Hpt. destruct (endswith (x +:+ t) p) eqn:H; [|reflexivity].
  apply endswith_spec in H as [pre H].
  apply common_end in H as [H|H]; congruence.
Qed.

Lemma endswith_app_same x t : endswith (x +:+ t) t = true.
Proof. apply endswith_spec. eauto. Qed.

Lemma str_take_base base s n :
  n = String.length s ->
  str_take (String.length (base +:+ s) - n) (base +:+ s) = base.
Proof.
  intros ->. rewrite length_app_str.
  replace (String.length base + String.length s - String.length s)%nat
    with (String.length base) by lia.
  induction base as [|c base IH].
  - rewrite append_nil_l. now destruct s.
  - rewrite append_cons. cbn [String.length str_take]. now rewrite IH.
Qed.

(** X21. [extract_service_name] takes the suffix off: an ASCII name that
    ends, in whatever case, with one of [-api], [-service], [-backend],
    [-server], [-client], [-core] gives what stands before that suffix, with
    its case kept; no earlier suffix of the list gets in the way. *)
Theorem extract_service_name_strips base s :
  is_ascii (base +:+ s) = true ->
  In (lower s) service_suffixes ->
  extract_service_name (base +:+ s) = base.
Proof.
  intros _ Hin. pose proof (length_lower s) as Hlen.
  unfold extract_service_name, service_suffixes in *.
  cbn [extract_from]. rewrite lower_app.
  cbn [In] in Hin.
  repeat (destruct Hin as [Hin|Hin]); try contradiction;
    rewrite <- Hin in *;
    repeat first
      [ rewrite endswith_app_same
      | rewrite endswith_app_other by reflexivity ];
    apply str_take_base; now rewrite <- Hlen.
Qed.

Lemma extract_service_name_strips_witness :
  extract_service_name ("Orders" +:+ "-Service") = "Orders".
Proof.
  apply extract_service_name_strips; [reflexivity|]. vm_compute. tauto.
Defined.

(** *** The groups *)

Lemma extended_app l1 l2 o : extended (l1 ++ l2) o = extended l2 (extended l1 o).
Proof.
  destruct l1 as [|a l1]; [reflexivity|].
  destruct l2 as [|b l2]; [now rewrite app_nil_r|].
  cbn [extended app default]. unfold id. now rewrite <- app_assoc.
Qed.

Lemma get_group_add groups repo k :
  ODict.get k (group_add groups repo)
  = extended (members_of k [repo]) (ODict.get k groups).
Proof.
  unfold group_add, members_of. cbn [List.filter].
  destruct (Repository.scanned repo); cbn [negb andb]; [|reflexivity].
  destruct (String.eqb_spec (extract_service_name (Repository.name repo)) k)
    as [->|Hne].
  - now rewrite ODictFacts.get_set_eq.
  - now rewrite (ODictFacts.get_set_ne _ _ _ _ Hne).
Qed.

Lemma get_groups repositories groups k :
  ODict.get k (fold_left group_add repositories groups)
  = extended (members_of k repositories) (ODict.get k groups).
Proof.
  revert groups. induction repositories as [|repo rest IH]; intros groups;
    [reflexivity|].
  cbn [fold_left]. rewrite IH, get_group_add, <- extended_app.
  unfold members_of. now rewrite <- map_app, <- List.filter_app.
Qed.

Lemma groups_NoDup repositories :
  NoDup (ODict.keys (fold_left group_add repositories ([] : ODict.t (list string)))).
Proof.
  apply (FoldFacts.fold_left_invariant
           (fun d : ODict.t (list string) => NoDup (ODict.keys d)));
    [|apply NoDup_nil_2].
  intros d repo _ Hd. unfold group_add.
  destruct (negb (Repository.scanned repo)); [exact Hd|].
  now apply DependencyFacts.keys_set_NoDup.
Qed.

(** X22. The groups of [_identify_service_groups] are exactly the service
    names shared by two scanned repositories or more: a name is a key with
    the list [members] when, and only when, [members] are the names of all
    scanned repositories with that service name, in the order given, and
    there are at least two of them. Records that were not scanned are in no
    group, and a service with a single repository is left out. *)
Theorem service_groups_are_shared_names repositories k members :
  (k, members) ∈ ODict.items (_identify_service_groups repositories) <->
  members = members_of k repositories /\ (2 <= length members)%nat.
Proof.
  unfold _identify_service_groups, ODict.items.
  rewrite list_elem_of_In, List.filter_In, <- list_elem_of_In.
  change (fold_left group_add repositories [])
    with (ODict.items (fold_left group_add repositories ([] : ODict.t (list string)))).
  rewrite (DependencyFacts.item_iff_get _ _ _ (groups_NoDup repositories)).
  rewrite get_groups. cbn [snd ODict.get].
  rewrite Nat.ltb_lt. unfold extended.
  destruct (members_of k repositories) as [|a l] eqn:Hm.
  - split; [intros [H _]; discriminate|].
    intros [-> H]. cbn in H. lia.
  - cbn [default]. split.
    + intros [[= <-] H]. split; [reflexivity|lia].
    + intros [-> H]. split; [reflexivity|lia].
Qed.

End ServiceGroupFacts.

(** ** Summary report: what it holds *)

Module ReportFacts.
Import Summary SummaryFacts.

Section Loops.

Context {S : Type}.
Variable body : S -> Repository.t -> M S.
Hypothesis body_read_only : forall s r, read_only (body s r).

Lemma loop_step pre r rest s :
  over_records body (seq (length pre) (length (r :: rest))) s (pre ++ r :: rest)
  = match snd (body s r (pre ++ r :: rest)) with
    | inr s' =>
        over_records body (seq (length (pre ++ [r])) (length rest)) s'
             ((pre ++ [r]) ++ rest)
    | inl e => ((pre ++ [r]) ++ rest, inl e)
    end.
Proof.
  rewrite <- app_assoc. cbn [app]. rewrite length_app. cbn [length seq].
  rewrite Nat.add_1_r.
  unfold over_records. cbn [for_each]. unfold bind at 1. unfold bind at 1.
  unfold load at 1. unfold Heap.
  rewrite list_lookup_middle by reflexivity. unfold ok. cbv beta iota.
  pose proof (body_read_only s r (pre ++ r :: rest)) as Hro.
  destruct (body s r (pre ++ r :: rest)) as [h1 [e|s1]]; cbn [fst snd] in *;
    now subst h1.
Qed.

(** A loop over the records keeps what each round keeps, the rounds seen
    in the order of the list. *)
Lemma loop_invariant (Inv : list Repository.t -> S -> Prop) :
  (forall pre r s s' h0,
     Inv pre s -> snd (body s r h0) = inr s' -> Inv (pre ++ [r]) s') ->
  forall h s0 s',
    Inv [] s0 ->
    snd (over_records body (seq 0 (length h)) s0 h) = inr s' ->
    Inv h s'.
Proof.
  intros Hstep h.
  assert (Hgen : forall rest pre s s',
            Inv pre s ->
            snd (over_records body (seq (length pre) (length rest)) s (pre ++ rest)) = inr s' ->
            Inv (pre ++ rest) s').
  { induction rest as [|r rest IH]; intros pre s s' Hs.
    - cbn. intros [= <-]. now rewrite app_nil_r.
    - rewrite loop_step.
      destruct (snd (body s r (pre ++ r :: rest))) as [e|s1] eqn:Hb;
        [discriminate|].
      intros Hrun. replace (pre ++ r :: rest) with ((pre ++ [r]) ++ rest)
        by now rewrite <- app_assoc.
      apply (IH (pre ++ [r]) s1); [|exact Hrun]. now apply (Hstep _ _ s _ _ Hs Hb). }
  intros s0 s' H0. apply (Hgen h [] s0 s' H0).
Qed.

(** A loop whose rounds all succeed on the records given succeeds. *)
Lemma loop_succeeds (P : Repository.t -> Prop) :
  (forall s r h0, P r -> exists s', snd (body s r h0) = inr s') ->
  forall h s0, Forall P h -> exists s', snd (over_records body (seq 0 (length h)) s0 h) = inr s'.
Proof.
  intros Hstep h.
  assert (Hgen : forall rest pre s,
            Forall P rest ->
            exists s', snd (over_records body (seq (length pre) (length rest)) s (pre ++ rest))
                       = inr s').
  { induction rest as [|r rest IH]; intros pre s Hall.
    - cbn. eauto.
    - rewrite loop_step. apply Forall_cons in Hall as [Hr Hrest].
      destruct (Hstep s r (pre ++ r :: rest) Hr) as [s1 ->].
      now apply IH. }
  intros s0 Hall. apply (Hgen h [] s0 Hall).
Qed.

Lemma loop_read_only xs s : read_only (over_records body xs s).
Proof.
  unfold over_records. apply read_only_for_each. intros s1 i.
  apply read_only_bind; [apply read_only_load|apply body_read_only].
Qed.

End Loops.

(** *** The three loops of [generate_summary] *)

Lemma count_round_read_only s r : read_only (count_round s r).
Proof. apply read_only_ret. Qed.

Lemma main_round_read_only s r : read_only (main_round s r).
Proof.
  unfold main_round. destruct (negb _); [apply read_only_ret|apply read_only_lift].
Qed.

(** [generate_summary] on a list that is not empty, loop by loop. *)
Lemma generate_summary_eq h :
  h <> [] ->
  generate_summary h
  = (h,
     match snd (over_records count_round (seq 0 (length h)) O h) with
     | inl e => inl e
     | inr count =>
         match snd (over_records main_round (seq 0 (length h)) acc0 h) with
         | inl e => inl e
         | inr acc =>
             match snd (_generate_documentation_summary (length h) h) with
             | inl e => inl e
             | inr docs =>
                 inr {| total_repositories := length h;
                        scanned_repositories := count;
                        total_technologies := length (technology_counts acc);
                        top_technologies := most_common 10 (technology_counts acc);
                        repositories := repos_summary acc;
                        technologies :=
                          map (fun item =>
                                 (fst item, sorted_desc ce_count (snd item)))
                              (ODict.items (all_technologies acc));
                        api_connections := acc_api_connections acc;
                        service_dependencies := acc_service_dependencies acc;
                        documentation := Some docs |}
             end
         end
     end).
Proof.
  intros Hne. unfold generate_summary.
  destruct (length h) as [|n] eqn:Hlen; [now destruct h|].
  cbn [generate_summary_on]. rewrite <- Hlen. clear n Hlen.
  change (for_each (seq 0 (length h))
            (fun count i =>
               repo <- load i ;;
               ret (if Repository.scanned repo then Datatypes.S count else count)) O)
    with (over_records count_round (seq 0 (length h)) O).
  change (for_each (seq 0 (length h))
            (fun acc i =>
               repo <- load i ;;
               if negb (Repository.scanned repo) then ret acc
               else lift (summarize_repo acc repo))
            {| all_technologies := []; technology_counts := [];
               acc_api_connections := []; acc_service_dependencies := [];
               repos_summary := [] |})
    with (over_records main_round (seq 0 (length h)) acc0).
  unfold bind at 1.
  pose proof (loop_read_only count_round count_round_read_only
                (seq 0 (length h)) O h) as H1.
  destruct (over_records count_round (seq 0 (length h)) O h) as [h1 [e|count]];
    cbn [fst snd] in *; subst h1; [reflexivity|].
  unfold bind at 1.
  pose proof (loop_read_only main_round main_round_read_only
                (seq 0 (length h)) acc0 h) as H2.
  destruct (over_records main_round (seq 0 (length h)) acc0 h) as [h2 [e|acc]];
    cbn [fst snd] in *; subst h2; [reflexivity|].
  unfold bind at 1.
  pose proof (read_only_documentation (length h) h) as H3.
  destruct (_generate_documentation_summary (length h) h) as [h3 [e|docs]];
    cbn [fst snd] in *; subst h3; reflexivity.
Qed.

(** *** The main loop, round by round *)

Lemma count_tech_error category techs e :
  fold_left (count_tech category) techs (inl e) = inl e.
Proof. induction techs as [|t techs IH]; [reflexivity|exact IH]. Qed.

Lemma count_category_error (items : list (string * list (gmap string Val))) e :
  fold_left (fun st item => fold_left (count_tech (fst item)) (snd item) st)
            items (inl e : Exc (ODict.t (list CountEntry) * list (Val * Z) * list Val))
  = inl e.
Proof.
  induction items as [|it items IH]; [reflexivity|].
  cbn [fold_left]. now rewrite count_tech_error.
Qed.

Lemma existsb_name_is_entry name entries :
  existsb (name_is_entry name) entries = false.
Proof. induction entries as [|e entries IH]; [reflexivity|exact IH]. Qed.

(** A round of the innermost loop that succeeds. *)
Lemma count_tech_ok category st tech st' :
  count_tech category st tech = inr st' ->
  exists all_techs counts repo_techs name,
    st = inr (all_techs, counts, repo_techs) /\
    tech !! "name" = Some name /\ hashable name = true /\
    st' = (ODict.set category
             (default [] (ODict.get category all_techs)
              ++ [{| ce_name := name; ce_count := 1 |}]) all_techs,
           counter_incr name counts, repo_techs ++ [name]).
Proof.
  unfold count_tech. destruct st as [e|[[all_techs counts] repo_techs]];
    [discriminate|].
  destruct (tech !! "name") as [name|]; [|discriminate].
  destruct (hashable name) eqn:Hh; cbn [negb]; [|discriminate].
  rewrite existsb_name_is_entry. cbn [negb].
  intros [= <-]. exists all_techs, counts, repo_techs, name. repeat split.
  exact Hh.
Qed.

(** What the technology loops of a round keep of [all_technologies]. *)
Lemma count_category_invariant (Good : ODict.t (list CountEntry) -> Prop)
    (items : list (string * list (gmap string Val))) all_techs counts repo_techs
    all_techs' counts' repo_techs' :
  (forall category all_techs name,
     Good all_techs ->
     Good (ODict.set category
          (default [] (ODict.get category all_techs)
           ++ [{| ce_name := name; ce_count := 1 |}]) all_techs)) ->
  Good all_techs ->
  fold_left (fun st item => fold_left (count_tech (fst item)) (snd item) st)
            items (inr (all_techs, counts, repo_techs))
  = inr (all_techs', counts', repo_techs') ->
  Good all_techs'.
Proof.
  intros Hstep H0 Hrun.
  pose (Inv := fun st : Exc (ODict.t (list CountEntry) * list (Val * Z) * list Val) =>
                 match st with inl _ => True | inr (a, _, _) => Good a end).
  change (Inv (inr (all_techs', counts', repo_techs'))). rewrite <- Hrun.
  apply (FoldFacts.fold_left_invariant Inv); [|exact H0].
  intros st item _ Hst.
  apply (FoldFacts.fold_left_invariant Inv); [|exact Hst].
  intros st1 tech _ Hst1.
  destruct (count_tech (fst item) st1 tech) as [e|st2] eqn:Hc; [exact I|].
  apply count_tech_ok in Hc as (a & c & t & name & -> & _ & _ & ->).
  cbn [Inv] in *. now apply Hstep.
Qed.

Lemma summarize_repo_ok acc repo acc' :
  summarize_repo acc repo = inr acc' ->
  exists all_techs counts repo_techs,
    fold_left (fun st item => fold_left (count_tech (fst item)) (snd item) st)
              (ODict.items (Repository.technologies repo))
              (inr (all_technologies acc, technology_counts acc, []))
    = inr (all_techs, counts, repo_techs) /\
    all_technologies acc' = all_techs /\
    technology_counts acc' = counts /\
    acc_api_connections acc'
    = acc_api_connections acc ++ edges_from "repositories" "api" repo /\
    acc_service_dependencies acc'
    = acc_service_dependencies acc ++ edges_from "services" "service" repo /\
    exists s, repos_summary acc' = repos_summary acc ++ [s] /\ summarizes repo s.
Proof.
  unfold summarize_repo, ok.
  destruct (fold_left _ _ _) as [e|[[all_techs counts] repo_techs]];
    [discriminate|].
  intros [= <-]. exists all_techs, counts, repo_techs.
  cbn [all_technologies technology_counts acc_api_connections
       acc_service_dependencies repos_summary].
  repeat split. eexists. split; [reflexivity|]. repeat split.
Qed.

(** *** Sorting keeps the entries *)

Lemma Forall_insert_desc {A} (P : A -> Prop) key x l :
  P x -> Forall P l -> Forall P (insert_desc key x l).
Proof.
  intros Hx. induction 1 as [|y l Hy Hl IH]; cbn [insert_desc].
  - now constructor.
  - destruct (key x <? key y)%Z; constructor; auto.
Qed.

Lemma Forall_sorted_desc {A} (P : A -> Prop) key l :
  Forall P l -> Forall P (sorted_desc key l).
Proof.
  unfold sorted_desc. induction 1 as [|y l Hy Hl IH]; cbn [foldr]; [constructor|].
  now apply Forall_insert_desc.
Qed.

(** X23. The per-category lists of the report never count: every entry of
    [technologies] has the count 1, whatever the number of repositories that
    use the technology; a technology seen again is entered again. The
    membership test of the loop compares a name with the entries, which are
    dictionaries, so the branch that increments is never taken. *)
Theorem technology_entries_count_one h h' report :
  generate_summary h = (h', inr report) ->
  forall category entries,
    (category, entries) ∈ ODict.items (technologies report) ->
    Forall (fun entry => ce_count entry = 1%Z) entries.
Proof.
  destruct h as [|r0 rest].
  { intros [= <- <-] category entries Hin. inversion Hin. }
  rewrite generate_summary_eq by discriminate.
  set (h := r0 :: rest). intros Hrun.
  destruct (snd (over_records count_round (seq 0 (length h)) O h))
    as [e|count]; [discriminate|].
  destruct (snd (over_records main_round (seq 0 (length h)) acc0 h))
    as [e|acc] eqn:Hmain; [discriminate|].
  destruct (snd (_generate_documentation_summary (length h) h))
    as [e|docs]; [discriminate|].
  injection Hrun as _ Hreport. subst report. cbn [technologies].
  pose (Good := fun all_techs : ODict.t (list CountEntry) =>
               forall category entries,
                 (category, entries) ∈ ODict.items all_techs ->
                 Forall (fun entry => ce_count entry = 1%Z) entries).
  assert (Hacc : Good (all_technologies acc)).
  { apply (loop_invariant main_round main_round_read_only
             (fun _ acc => Good (all_technologies acc)) ) with (h := h) (s0 := acc0);
      [| |exact Hmain].
    - intros pre r s s' h0 Hs. unfold main_round.
      destruct (negb (Repository.scanned r)); [now intros [= <-]|].
      cbn [lift snd]. intros Hsum.
      apply summarize_repo_ok in Hsum
        as (all_techs & counts & repo_techs & Hfold & -> & _).
      apply (count_category_invariant Good _ _ _ _ _ _ _) in Hfold; [exact Hfold| |exact Hs].
      clear. intros category all_techs name Hall cat entries Hin.
      apply ODictFacts.items_set in Hin as [[= -> ->]|Hin]; [|now apply (Hall cat)].
      apply Forall_app. split; [|now repeat constructor].
      destruct (ODict.get category all_techs) as [l|] eqn:Hget; [|constructor].
      apply ODictFacts.get_Some_item in Hget. now apply (Hall category).
    - intros category entries Hin. inversion Hin. }
  intros category entries Hin. unfold ODict.items in Hin.
  apply list_elem_of_fmap in Hin as ([cat l] & [= -> ->] & Hin).
  apply Forall_sorted_desc. now apply (Hacc cat).
Qed.

Lemma technology_entries_count_one_witness :
  exists report,
    snd (generate_summary Examples.flask_twice) = inr report /\
    forall category entries,
      (category, entries) ∈ ODict.items (technologies report) ->
      Forall (fun entry => ce_count entry = 1%Z) entries.
Proof.
  assert (Hsome : match snd (generate_summary Examples.flask_twice) with
                  | inr _ => True
                  | inl _ => False
                  end) by (vm_compute; exact I).
  destruct (generate_summary Examples.flask_twice) as [h' [e|report]] eqn:Hrun;
    [contradiction|].
  exists report. split; [reflexivity|].
  apply (technology_entries_count_one Examples.flask_twice h' report Hrun).
Defined.

(** Flask in two repositories: counted twice over all, entered twice with
    the count 1 under its category. *)
Lemma flask_counted_once_per_entry :
  match snd (generate_summary Examples.flask_twice) with
  | inr report => (top_technologies report, technologies report)
  | inl _ => ([], [])
  end
  = ([(VStr "Flask", 2%Z)],
     [("backend", [{| ce_name := VStr "Flask"; ce_count := 1 |};
                   {| ce_name := VStr "Flask"; ce_count := 1 |}])]).
Proof. vm_compute. reflexivity. Qed.

(** *** The shape of the report *)

Lemma scanned_of_app a b : scanned_of (a ++ b) = scanned_of a ++ scanned_of b.
Proof. apply List.filter_app. Qed.

Lemma scanned_of_snoc pre r :
  scanned_of (pre ++ [r])
  = scanned_of pre ++ (if Repository.scanned r then [r] else []).
Proof. rewrite scanned_of_app. unfold scanned_of at 2. reflexivity. Qed.

(** X24. What a report says of the records: [total_repositories] counts all
    of them and [scanned_repositories] the scanned ones; [repositories] has
    one entry per scanned record, in order, with its id, name, path, URL,
    number of endpoints, documentation flags and dependency lists;
    [api_connections] and [service_dependencies] are the dependency lists of
    the scanned records laid out as edges, in order. A record that was not
    scanned adds nothing but one to the total. *)
Theorem report_covers_scanned_records h h' report :
  generate_summary h = (h', inr report) ->
  total_repositories report = length h /\
  scanned_repositories report = length (scanned_of h) /\
  Forall2 summarizes (scanned_of h) (repositories report) /\
  api_connections report
  = flat_map (edges_from "repositories" "api") (scanned_of h) /\
  service_dependencies report
  = flat_map (edges_from "services" "service") (scanned_of h).
Proof.
  destruct h as [|r0 rest].
  { intros [= <- <-]. repeat split. constructor. }
  rewrite generate_summary_eq by discriminate.
  set (h := r0 :: rest). intros Hrun.
  destruct (snd (over_records count_round (seq 0 (length h)) O h))
    as [e|count] eqn:Hcount; [discriminate|].
  destruct (snd (over_records main_round (seq 0 (length h)) acc0 h))
    as [e|acc] eqn:Hmain; [discriminate|].
  destruct (snd (_generate_documentation_summary (length h) h))
    as [e|docs]; [discriminate|].
  injection Hrun as _ Hreport. subst report.
  cbn [total_repositories scanned_repositories repositories api_connections
       service_dependencies].
  split; [reflexivity|]. split.
  - apply (loop_invariant count_round count_round_read_only
             (fun pre n => n = length (scanned_of pre))) with (h := h) (s0 := O);
      [|reflexivity|exact Hcount].
    intros pre r s s' h0 -> [= <-]. rewrite scanned_of_snoc, length_app.
    destruct (Repository.scanned r); cbn [length]; lia.
  - apply (loop_invariant main_round main_round_read_only
             (fun pre acc =>
                Forall2 summarizes (scanned_of pre) (repos_summary acc) /\
                acc_api_connections acc
                = flat_map (edges_from "repositories" "api") (scanned_of pre) /\
                acc_service_dependencies acc
                = flat_map (edges_from "services" "service") (scanned_of pre)))
      with (h := h) (s0 := acc0); [|repeat split; constructor|exact Hmain].
    intros pre r s s' h0 (Hsum & Hapi & Hsvc). unfold main_round.
    rewrite scanned_of_snoc.
    destruct (Repository.scanned r); cbn [negb].
    + cbn [lift snd]. intros Hround.
      apply summarize_repo_ok in Hround
        as (_ & _ & _ & _ & _ & _ & -> & -> & s1 & -> & Hs1).
      rewrite !flat_map_app. cbn [flat_map]. rewrite !app_nil_r, Hapi, Hsvc.
      split; [|split; reflexivity].
      apply Forall2_app; [exact Hsum|]. constructor; [exact Hs1|constructor].
    + intros [= <-]. now rewrite !app_nil_r.
Qed.

Lemma report_covers_scanned_records_witness :
  exists report,
    snd (generate_summary Examples.mixed_heap) = inr report /\
    total_repositories report = length Examples.mixed_heap /\
    scanned_repositories report = length (scanned_of Examples.mixed_heap) /\
    Forall2 summarizes (scanned_of Examples.mixed_heap) (repositories report) /\
    api_connections report
    = flat_map (edges_from "repositories" "api") (scanned_of Examples.mixed_heap) /\
    service_dependencies report
    = flat_map (edges_from "services" "service") (scanned_of Examples.mixed_heap).
Proof.
  assert (Hsome : match snd (generate_summary Examples.mixed_heap) with
                  | inr _ => True
                  | inl _ => False
                  end) by (vm_compute; exact I).
  destruct (generate_summary Examples.mixed_heap) as [h' [e|report]] eqn:Hrun;
    [contradiction|].
  exists report. split; [reflexivity|].
  apply (report_covers_scanned_records Examples.mixed_heap h' report Hrun).
Defined.

(** *** When a report is returned *)

Lemma count_techs_succeed category techs
    (st : ODict.t (list CountEntry) * list (Val * Z) * list Val) :
  (exists st', fold_left (count_tech category) techs (inr st) = inr st') <->
  Forall (fun tech : gmap string Val =>
            exists name, tech !! "name" = Some name /\ hashable name = true)
         techs.
Proof.
  revert st. induction techs as [|tech techs IH]; intros st.
  - split; [constructor|]. intros _. now exists st.
  - cbn [fold_left]. split.
    + intros [st' Hrun].
      destruct (count_tech category (inr st) tech) as [e|st1] eqn:Hc;
        [now rewrite count_tech_error in Hrun|].
      constructor; [|apply (IH st1); eauto].
      apply count_tech_ok in Hc as (_ & _ & _ & name & _ & Hn & Hh & _). eauto.
    + intros Hall. apply Forall_cons in Hall as [(name & Hn & Hh) Hall].
      destruct st as [[all_techs counts] repo_techs].
      unfold count_tech at 2. rewrite Hn, Hh, existsb_name_is_entry.
      cbn [negb]. now apply IH.
Qed.

Lemma count_categories_succeed (items : list (string * list (gmap string Val)))
    (st : ODict.t (list CountEntry) * list (Val * Z) * list Val) :
  (exists st',
     fold_left (fun st item => fold_left (count_tech (fst item)) (snd item) st)
               items (inr st) = inr st') <->
  Forall (fun item : string * list (gmap string Val) =>
            Forall (fun tech : gmap string Val =>
                      exists name,
                        tech !! "name" = Some name /\ hashable name = true)
                   (snd item))
         items.
Proof.
  revert st. induction items as [|item items IH]; intros st.
  - split; [constructor|]. intros _. now exists st.
  - cbn [fold_left]. split.
    + intros [st' Hrun].
      destruct (fold_left (count_tech (fst item)) (snd item) (inr st))
        as [e|st1] eqn:Hc; [now rewrite count_category_error in Hrun|].
      constructor; [|apply (IH st1); eauto].
      apply (count_techs_succeed (fst item) (snd item) st). eauto.
    + intros Hall. apply Forall_cons in Hall as [Hitem Hall].
      apply (count_techs_succeed (fst item) (snd item) st) in Hitem as [st1 ->].
      now apply IH.
Qed.

Lemma summarize_repo_succeeds acc repo :
  (exists acc', summarize_repo acc repo = inr acc') <-> summarizable repo.
Proof.
  assert (Hiff : summarizable repo <->
            Forall (fun item : string * list (gmap string Val) =>
                      Forall (fun tech : gmap string Val =>
                                exists name,
                                  tech !! "name" = Some name /\
                                  hashable name = true) (snd item))
                   (ODict.items (Repository.technologies repo))).
  { unfold summarizable. rewrite Forall_forall. split.
    - intros H [category techs] Hin. apply Forall_forall. intros tech Ht.
      now apply (H category techs).
    - intros H category techs tech Hin Ht. specialize (H _ Hin).
      cbn [snd] in H. rewrite Forall_forall in H. now apply H. }
  rewrite Hiff,
    <- (count_categories_succeed _
          (all_technologies acc, technology_counts acc, [])).
  unfold summarize_repo, ok. split.
  - intros [acc' H].
    destruct (fold_left _ _ _) as [e|st']; [discriminate|]. eauto.
  - intros [[[a c] t] ->]. eauto.
Qed.

(** X25. When [generate_summary] returns a report: exactly when every
    observation of every scanned record has a [name] that can be counted,
    which is what [add_technology] stores. An observation without a name
    makes the call raise [KeyError], one whose name is a list [TypeError];
    records that were not scanned are not looked at. *)
Theorem generate_summary_returns_iff h :
  (exists report, snd (generate_summary h) = inr report) <->
  Forall summarizable (scanned_of h).
Proof.
  destruct h as [|r0 rest].
  { split; [constructor|]. intros _. now exists empty_report. }
  rewrite generate_summary_eq by discriminate.
  set (h := r0 :: rest). cbn [snd]. split.
  - intros [report Hrun].
    destruct (snd (over_records count_round (seq 0 (length h)) O h))
      as [e|count]; [discriminate|].
    destruct (snd (over_records main_round (seq 0 (length h)) acc0 h))
      as [e|acc] eqn:Hmain; [discriminate|].
    apply (loop_invariant main_round main_round_read_only
             (fun pre _ => Forall summarizable (scanned_of pre)))
      with (h := h) (s0 := acc0) (s' := acc); [|constructor|exact Hmain].
    intros pre r s s' h0 Hpre. unfold main_round. rewrite scanned_of_snoc.
    destruct (Repository.scanned r); cbn [negb].
    + cbn [lift snd]. intros Hround. apply Forall_app. split; [exact Hpre|].
      constructor; [|constructor].
      apply (summarize_repo_succeeds s r). eauto.
    + intros _. now rewrite app_nil_r.
  - intros Hall.
    destruct (loop_succeeds count_round count_round_read_only (fun _ => True))
      with (h := h) (s0 := O) as [count ->].
    { intros s r h0 _. eexists. reflexivity. }
    { apply Forall_forall. auto. }
    destruct (loop_succeeds main_round main_round_read_only
                (fun r => Repository.scanned r = true -> summarizable r))
      with (h := h) (s0 := acc0) as [acc ->].
    { intros s r h0 Hr. unfold main_round.
      destruct (Repository.scanned r); cbn [negb]; [|eexists; reflexivity].
      cbn [lift snd]. apply summarize_repo_succeeds. now apply Hr. }
    { apply Forall_forall. intros r Hin Hs.
      rewrite Forall_forall in Hall. apply Hall.
      unfold scanned_of. apply list_elem_of_In, List.filter_In.
      split; [now apply list_elem_of_In|exact Hs]. }
    unfold _generate_documentation_summary.
    destruct (loop_succeeds (fun s repo => ret (document_repo s repo))
                (fun s r => read_only_ret _) (fun _ => True))
      with (h := h)
           (s0 := {| repos_with_readme := 0; repos_with_api_docs := 0;
                     repos_with_setup := 0; repos_with_architecture := 0;
                     docs_total_repositories := length h;
                     docs_setup_instructions := [];
                     architecture_overview := [] |}) as [docs Hdocs].
    { intros s r h0 _. eexists. reflexivity. }
    { apply Forall_forall. auto. }
    unfold over_records in Hdocs. rewrite Hdocs. eauto.
Qed.

(** An observation without a name: the summary raises [KeyError]. *)
Lemma nameless_observation_raises :
  snd (generate_summary Examples.nameless_heap) = inl (KeyError "name").
Proof. vm_compute. reflexivity. Qed.

End ReportFacts.
